(** * dorkbot: target store, fingerprinting and blocklist matching

  A shallow embedding of [dorkbot/dorkbot.py] and the proofs of the
  properties its specification states about it.

  Layout: the Python string helpers the program relies on, the
  collaborating libraries as a type class, the SQL statements the program
  sends and their meaning on a relational store, the program's functions in
  a state-and-exception monad, and then the lemmas and theorems. *)

From Stdlib Require Import ZArith Lia Ascii.
From stdpp Require Import base strings list gmap sorting pretty.

Local Open Scope Z_scope.

(** ** Python string operations used by the program *)
Module PyStr.

(** [s.startswith(p)] *)
Fixpoint startswith (p s : string) : bool :=
  match p, s with
  | EmptyString, _ => true
  | String a p', String b s' => if decide (a = b) then startswith p' s' else false
  | String _ _, EmptyString => false
  end.

(** [p in s] for strings: [p] occurs somewhere inside [s]. *)
Fixpoint contains (p s : string) : bool :=
  startswith p s ||
  match s with
  | EmptyString => false
  | String _ s' => contains p s'
  end.

(** [s.count(c)] for a one-character [c]. *)
Fixpoint count (c : ascii) (s : string) : nat :=
  match s with
  | EmptyString => 0%nat
  | String a s' => ((if decide (a = c) then 1 else 0) + count c s')%nat
  end.

(** [s.split(c)] for a one-character separator: never the empty list. *)
Fixpoint split (c : ascii) (s : string) : list string :=
  match s with
  | EmptyString => [EmptyString]
  | String a s' =>
      if decide (a = c) then EmptyString :: split c s'
      else match split c s' with
           | [] => [String a EmptyString]
           | p :: ps => String a p :: ps
           end
  end.

(** [s.split(c, 1)]: cut at the first separator only. *)
Fixpoint split1 (c : ascii) (s : string) : list string :=
  match s with
  | EmptyString => [EmptyString]
  | String a s' =>
      if decide (a = c) then [EmptyString; s']
      else match split1 c s' with
           | [] => [String a EmptyString]
           | p :: ps => String a p :: ps
           end
  end.

(** [sep.join(l)] *)
Fixpoint join (sep : string) (l : list string) : string :=
  match l with
  | [] => EmptyString
  | [x] => x
  | x :: xs => x +:+ sep +:+ join sep xs
  end.

(** [l[-1]] on the result of a split, which is never empty. *)
Definition last (l : list string) : string := List.last l EmptyString.

(** [sorted(l)] on strings: ascending by code point. *)
Definition sorted (l : list string) : list string := merge_sort String.le l.

(** [str(n)] for a non-negative integer. *)
Definition str (n : nat) : string := pretty n.

(** [s[n:]] *)
Fixpoint drop (n : nat) (s : string) : string :=
  match n, s with
  | O, _ => s
  | S n', String _ s' => drop n' s'
  | S _, EmptyString => EmptyString
  end.

End PyStr.

(** ** Values of the collaborating libraries *)

(** [urllib.parse.urlparse(url)]: the components the program reads. *)
Record url_parts := {
netloc : string;
path : string;
query : string;
hostname : option string   (* [None] when the URL has no host *)
}.

Inductive ipver := IPv4 | IPv6.

(** [ipaddress.IPv4Address] / [IPv6Address]: version and integer value. *)
Record IPAddress := { ip_version : ipver; ip_int : Z }.

(** [ipaddress.IPv4Network] / [IPv6Network]. *)
Record IPNetwork := {
net_version : ipver;
network_address : Z;
prefixlen : Z
}.

(** What [ipaddress.ip_address(socket.gethostbyname(host))] does. *)
Inductive resolution :=
| Resolved (a : IPAddress)   (* an address came back *)
| GaiError                   (* [socket.gaierror] *)
| OtherFailure.              (* any other exception *)

(** The outcome of a library parser: a value, or [ValueError(msg)]. *)
Inductive parsed (A : Type) :=
  | Parsed (a : A)
  | ValueError (msg : string).
Arguments Parsed {A} a.
Arguments ValueError {A} msg.

(** The libraries the program calls and does not implement. *)
Class Env := {
  (** [hashlib.md5(s.encode("utf-8")).hexdigest()] *)
  md5_hexdigest : string -> string;
  (** a hex digest is 32 characters, in particular it is not empty *)
  md5_hexdigest_nonempty : forall s, md5_hexdigest s <> EmptyString;
  (** [urllib.parse.urlparse], on the URLs it accepts. On a few it raises
      [ValueError] (an unbalanced bracket in the netloc), and a call that
      builds a [Target] from such a URL does not return. *)
  urlparse : string -> url_parts;
  (** [socket.gethostbyname] followed by [ipaddress.ip_address] *)
  gethostbyname : string -> resolution;
  (** [ipaddress.ip_network] *)
  ip_network : string -> parsed IPNetwork;
  (** [re.compile(p)] succeeds *)
  re_valid : string -> bool;
  (** [re.compile(p).match(s)] is not [None] *)
  re_match : string -> string -> bool;
  (** [random.shuffle] and [ORDER BY RANDOM()], at the n-th use *)
  shuffle : forall A : Type, nat -> list A -> list A
}.

(** ** IP addresses and networks *)

#[global] Instance ipver_eq_dec : EqDecision ipver.
Proof. solve_decision. Defined.

#[global] Instance IPAddress_eq_dec : EqDecision IPAddress.
Proof. solve_decision. Defined.

#[global] Instance IPNetwork_eq_dec : EqDecision IPNetwork.
Proof. solve_decision. Defined.

#[global] Instance IPNetwork_countable : Countable IPNetwork.
Proof.
  refine (inj_countable'
    (fun n => (bool_decide (net_version n = IPv4), network_address n, prefixlen n))
    (fun t => {| net_version := if t.1.1 then IPv4 else IPv6;
                 network_address := t.1.2; prefixlen := t.2 |}) _).
  intros [[] a p]; reflexivity.
Defined.

Definition max_prefixlen (v : ipver) : Z :=
  match v with IPv4 => 32 | IPv6 => 128 end.

(** [net.netmask] as an integer: [prefixlen] one bits, then zero bits. *)
Definition netmask (n : IPNetwork) : Z :=
  Z.shiftl (Z.ones (prefixlen n)) (max_prefixlen (net_version n) - prefixlen n).

(** [a in n]: same version, and the address under the mask is the network
    address. *)
Definition ip_in_network (a : IPAddress) (n : IPNetwork) : bool :=
  if decide (ip_version a = net_version n)
  then Z.land (ip_int a) (netmask n) =? network_address n
  else false.

(** ** The relational store

    [targets(url PRIMARY KEY, source, scanned DEFAULT 0)],
    [fingerprints(fingerprint PRIMARY KEY)], [blocklist(item PRIMARY KEY)].
    The target and blocklist tables are kept as lists in row order, which is
    the order an unordered [SELECT] returns them in; the label of a target is
    text or [NULL]. *)
Record TargetRow := {
  row_url : string;
  row_source : option string;
  row_scanned : Z
}.

Record Store := {
  targets : list TargetRow;
  fingerprints : gset string;
  blocklist : list string
}.

(** A fetched row: its column values, [None] for [NULL]. *)
Definition row := list (option string).

Inductive insert_kw := INSERT_OR_REPLACE | INSERT | UPSERT.
Inductive conflict_kw := NO_CLAUSE | ON_CONFLICT_DO_NOTHING.

(** The statements the program sends, with their parameters. *)
Inductive sql :=
  | SelectTargets (with_source unscanned_only : bool) (source_eq : option string)
      (* SELECT url[,source] FROM targets [WHERE scanned != 1] [AND source = ?] *)
  | SelectUnscanned (random : bool)
      (* SELECT url FROM targets WHERE scanned != 1 [ORDER BY RANDOM()] *)
  | InsertFingerprint (ins : insert_kw) (fingerprint : string)
      (* <insert> INTO fingerprints VALUES (?) *)
  | InsertTarget (ins : insert_kw) (conf : conflict_kw) (url : string) (source : option string)
      (* <insert> INTO targets (url, source) VALUES (?, ?) <conflict> *)
  | DeleteTarget (url : string)          (* DELETE FROM targets WHERE url=(?) *)
  | SelectFingerprint (fingerprint : string)
      (* SELECT fingerprint FROM fingerprints WHERE fingerprint = (?) *)
  | UpdateScanned (url : string)         (* UPDATE targets SET scanned = 1 WHERE url = ? *)
  | DeleteFingerprints                   (* DELETE FROM fingerprints *)
  | ResetScanned                         (* UPDATE targets SET scanned = 0 *)
  | DeleteTargets                        (* DELETE FROM targets *)
  | SelectBlocklist                      (* SELECT item FROM blocklist *)
  | InsertBlocklist (ins : insert_kw) (item : string)
      (* <insert> INTO blocklist VALUES (?) *)
  | DeleteBlocklistItem (item : string)  (* DELETE FROM blocklist WHERE item=(?) *)
  | DeleteBlocklist.                     (* DELETE FROM blocklist *)

Definition has_url (u : string) (r : TargetRow) : bool := bool_decide (row_url r = u).

Definition unscanned (r : TargetRow) : bool := negb (row_scanned r =? 1).

Definition set_scanned (v : Z) (r : TargetRow) : TargetRow :=
  {| row_url := row_url r; row_source := row_source r; row_scanned := v |}.

Definition set_source (s : option string) (r : TargetRow) : TargetRow :=
  {| row_url := row_url r; row_source := s; row_scanned := row_scanned r |}.

(** A new row takes the column default [scanned = 0]. *)
Definition new_row (u : string) (s : option string) : TargetRow :=
  {| row_url := u; row_source := s; row_scanned := 0 |}.

(** [<insert> INTO targets (url, source) VALUES (u, s) <conflict>] when a
    row with that key may exist. [INSERT OR REPLACE] deletes the old row and
    inserts a new one; [UPSERT] writes the named columns of the old row;
    [ON CONFLICT DO NOTHING] leaves the old row; a bare [INSERT] violates the
    key, which is [None] here. *)
Definition insert_target (ins : insert_kw) (conf : conflict_kw)
    (u : string) (s : option string) (ts : list TargetRow) : option (list TargetRow) :=
  if existsb (has_url u) ts then
    match ins, conf with
    | INSERT_OR_REPLACE, _ => Some (filter (fun r => row_url r <> u) ts ++ [new_row u s])
    | UPSERT, _ => Some ((fun r => if has_url u r then set_source s r else r) <$> ts)
    | INSERT, ON_CONFLICT_DO_NOTHING => Some ts
    | INSERT, NO_CLAUSE => None
    end
  else Some (ts ++ [new_row u s]).

(** The same for a one-column table kept as a set or as a list of keys. *)
Definition insert_key_ok (ins : insert_kw) (present : bool) : bool :=
  match ins with
  | INSERT => negb present
  | _ => true
  end.

Definition select_row (with_source : bool) (r : TargetRow) : row :=
  if with_source then [Some (row_url r); row_source r] else [Some (row_url r)].

Definition select_where (unscanned_only : bool) (source_eq : option string)
    (r : TargetRow) : bool :=
  (if unscanned_only then unscanned r else true) &&
  match source_eq with
  | Some s => bool_decide (row_source r = Some s)
  | None => true
  end.

Definition with_targets (ts : list TargetRow) (s : Store) : Store :=
  {| targets := ts; fingerprints := fingerprints s; blocklist := blocklist s |}.

Definition with_fingerprints (fs : gset string) (s : Store) : Store :=
  {| targets := targets s; fingerprints := fs; blocklist := blocklist s |}.

Definition with_blocklist (b : list string) (s : Store) : Store :=
  {| targets := targets s; fingerprints := fingerprints s; blocklist := b |}.

Definition unique_violation : string := "UNIQUE constraint failed".

(** ** Exceptions, the process state and the monad *)

Inductive exn :=
  | DbError (msg : string)            (* [self.module.Error], with [str(e)] *)
  | SystemExit (code : Z)             (* [sys.exit(code)] *)
  | UnboundLocalError (var : string)  (* a local read before any assignment *)
  | AttributeError (name : string)    (* an attribute that was never set *)
  | TypeError                         (* [str.join] on a value that is not text *)
  | IndexError
  | ReError.                          (* [re.error] *)

Inductive level := DEBUG | INFO | WARNING | ERROR.

(** [Diverge] is the model running out of loop fuel, not a Python outcome. *)
Inductive result (A : Type) :=
  | Ok (a : A)
  | Raise (e : exn)
  | Diverge.
Arguments Ok {A} a.
Arguments Raise {A} e.
Arguments Diverge {A}.

(** The process and what it talks to. [cursor] is the pending result set of
    the cursor the running method opened: every method opens one cursor and
    hands that object to its helpers, so one field is all cursors there are.
    [faults] tells what the coming [execute] calls do: [Some msg] raises the
    driver's [Error(msg)], [None] (or an exhausted list) lets the statement
    run. [connects] counts the calls of [connect], [rng] the draws from the
    random source. The commit or rollback that ends a [with self.db] block
    is not part of the model: [db] is the state the statements have produced
    so far. *)
Record World := {
  db : Store;
  cursor : list row;
  faults : list (option string);
  log : list (level * string);
  connects : nat;
  rng : nat
}.

Definition with_db (s : Store) (w : World) : World :=
  {| db := s; cursor := cursor w; faults := faults w; log := log w;
     connects := connects w; rng := rng w |}.

Definition with_cursor (c : list row) (w : World) : World :=
  {| db := db w; cursor := c; faults := faults w; log := log w;
     connects := connects w; rng := rng w |}.

Definition with_faults (f : list (option string)) (w : World) : World :=
  {| db := db w; cursor := cursor w; faults := f; log := log w;
     connects := connects w; rng := rng w |}.

Definition with_log (l : list (level * string)) (w : World) : World :=
  {| db := db w; cursor := cursor w; faults := faults w; log := l;
     connects := connects w; rng := rng w |}.

Definition with_connects (n : nat) (w : World) : World :=
  {| db := db w; cursor := cursor w; faults := faults w; log := log w;
     connects := n; rng := rng w |}.

Definition with_rng (n : nat) (w : World) : World :=
  {| db := db w; cursor := cursor w; faults := faults w; log := log w;
     connects := connects w; rng := n |}.

Definition M (A : Type) : Type := World -> result A * World.

Definition ret {A} (a : A) : M A := fun w => (Ok a, w).

Definition bind {A B} (m : M A) (k : A -> M B) : M B := fun w =>
  match m w with
  | (Ok a, w') => k a w'
  | (Raise e, w') => (Raise e, w')
  | (Diverge, w') => (Diverge, w')
  end.

Notation "x <- m ;; k" := (bind m (fun x => k))
  (at level 100, m at next level, right associativity).
Notation "m ;; k" := (bind m (fun _ => k))
  (at level 100, right associativity).

Definition raise {A} (e : exn) : M A := fun w => (Raise e, w).

Definition diverge {A} : M A := fun w => (Diverge, w).

(** [try: m  except self.module.Error as e: h(str(e))] *)
Definition except_db {A} (m : M A) (h : string -> M A) : M A := fun w =>
  match m w with
  | (Raise (DbError msg), w') => h msg w'
  | r => r
  end.

(** A pure computation that may raise. *)
Definition lift {A} (r : result A) : M A := fun w => (r, w).

Definition logging (l : level) (msg : string) : M unit := fun w =>
  (Ok tt, with_log (log w ++ [(l, msg)]) w).

Definition sys_exit {A} (code : Z) : M A := raise (SystemExit code).

(** [self.connect()]: a new connection object. *)
Definition connect : M unit := fun w =>
  (Ok tt, with_connects (S (connects w)) w).

(** [self.db.cursor()] *)
Definition new_cursor : M unit := fun w => (Ok tt, with_cursor [] w).

(** [cursor.fetchone()] *)
Definition fetchone : M (option row) := fun w =>
  match cursor w with
  | [] => (Ok None, w)
  | r :: rs => (Ok (Some r), with_cursor rs w)
  end.

(** [cursor.fetchall()] *)
Definition fetchall : M (list row) := fun w => (Ok (cursor w), with_cursor [] w).

(** [row[0]] of a fetched row, as text. *)
Definition column0 (r : row) : M string :=
  match r with
  | Some v :: _ => ret v
  | None :: _ => raise TypeError
  | [] => raise IndexError
  end.

(** ** The program *)
Section Program.
Context `{E : Env}.

(** ** The fingerprint engine *)
(** [generate_hash] *)
Definition generate_hash (url : string) : string := md5_hexdigest url.

(** The body of the [for param in url_parts.query.split("&")] loop: the
    names appended to [params] by one [param]. *)
Definition kept_name (param : string) : list string :=
  match PyStr.split1 "="%char param with
  | [name; value] => if decide (value = EmptyString) then [] else [name]
  | _ => []
  end.

Definition query_params (q : string) : list string :=
  flat_map kept_name (PyStr.split "&"%char q).

(** The string that is hashed: [netloc|depth|page|names]. *)
Definition fingerprint_string (p : url_parts) : string :=
  let depth := PyStr.str (PyStr.count "/"%char (path p)) in
  let page := PyStr.last (PyStr.split "/"%char (path p)) in
  PyStr.join "|" [netloc p; depth; page;
                  PyStr.join "," (PyStr.sorted (query_params (query p)))].

(** [generate_fingerprint(target)], which reads [target.url] only. *)
Definition generate_fingerprint (url : string) : string :=
  generate_hash (fingerprint_string (urlparse url)).

(** ** Running a statement *)

(** What a statement does to the store and which rows it yields; [inl msg]
    is the driver raising [Error(msg)]. [n] is the state of the random
    source, read by [ORDER BY RANDOM()] only. *)
Definition run_sql (q : sql) (n : nat) (s : Store) : string + (Store * list row) :=
  match q with
  | SelectTargets with_source unscanned_only source_eq =>
      inr (s, select_row with_source <$>
                filter (fun r => select_where unscanned_only source_eq r) (targets s))
  | SelectUnscanned random =>
      let rows := select_row false <$> filter (fun r => unscanned r) (targets s) in
      inr (s, if random then shuffle row n rows else rows)
  | InsertFingerprint ins f =>
      if insert_key_ok ins (bool_decide (f ∈ fingerprints s))
      then inr (with_fingerprints ({[ f ]} ∪ fingerprints s) s, [])
      else inl unique_violation
  | InsertTarget ins conf u src =>
      match insert_target ins conf u src (targets s) with
      | Some ts => inr (with_targets ts s, [])
      | None => inl unique_violation
      end
  | DeleteTarget u =>
      inr (with_targets (filter (fun r => row_url r <> u) (targets s)) s, [])
  | SelectFingerprint f =>
      inr (s, if bool_decide (f ∈ fingerprints s) then [[Some f]] else [])
  | UpdateScanned u =>
      inr (with_targets ((fun r => if has_url u r then set_scanned 1 r else r) <$> targets s) s, [])
  | DeleteFingerprints => inr (with_fingerprints ∅ s, [])
  | ResetScanned => inr (with_targets (set_scanned 0 <$> targets s) s, [])
  | DeleteTargets => inr (with_targets [] s, [])
  | SelectBlocklist => inr (s, (fun i => [Some i]) <$> blocklist s)
  | InsertBlocklist ins i =>
      if bool_decide (i ∈ blocklist s)
      then (if insert_key_ok ins true then inr (s, []) else inl unique_violation)
      else inr (with_blocklist (blocklist s ++ [i]) s, [])
  | DeleteBlocklistItem i =>
      inr (with_blocklist (filter (fun j => j <> i) (blocklist s)) s, [])
  | DeleteBlocklist => inr (with_blocklist [] s, [])
  end.

Definition uses_random (q : sql) : bool :=
  match q with
  | SelectUnscanned true => true
  | _ => false
  end.

(** [cursor.execute(q)]: the next entry of [faults] decides whether the
    driver raises; otherwise the statement runs and its rows replace
    whatever the cursor still held. *)
Definition run (q : sql) : M unit := fun w =>
  match run_sql q (rng w) (db w) with
  | inl msg => (Raise (DbError msg), w)
  | inr (s, rows) =>
      (Ok tt, with_rng (if uses_random q then S (rng w) else rng w)
                (with_cursor rows (with_db s w)))
  end.

Definition execute (q : sql) : M unit := fun w =>
  match faults w with
  | Some msg :: fs => (Raise (DbError msg), with_faults fs w)
  | None :: fs => run q (with_faults fs w)
  | [] => run q w
  end.

(** [cursor.executemany(q, params)]: the statement once per parameter tuple. *)
Fixpoint executemany (qs : list sql) : M unit :=
  match qs with
  | [] => ret tt
  | q :: qs' => execute q ;; executemany qs'
  end.

(** [random.shuffle(l)] *)
Definition random_shuffle (l : list string) : M (list string) := fun w =>
  (Ok (shuffle string (rng w) l), with_rng (S (rng w)) w).

(** ** Targets *)

(** An attribute of an object: assigned or not. *)
Inductive attr (A : Type) :=
  | Unset
  | Attr (a : A).
#[global] Arguments Unset {A}.
#[global] Arguments Attr {A} a.

(** A [Target]: the attributes the store and the matcher read. The
    timestamps and the report hash play no part in them. *)
Record Target := {
  url : string;
  host : option string;
  ip : attr (option IPAddress)
}.

(** [Target.__init__]. Resolution of a missing host raises [TypeError],
    which the [except Exception] branch takes; that branch logs and assigns
    nothing to [self.ip]. *)
Definition Target_init (u : string) : M Target :=
  let h := hostname (urlparse u) in
  match h with
  | Some name =>
      match gethostbyname name with
      | Resolved a => ret {| url := u; host := h; ip := Attr (Some a) |}
      | GaiError => ret {| url := u; host := h; ip := Attr None |}
      | OtherFailure =>
          logging ERROR ("Failed to resolve hostname: " +:+ name) ;;
          ret {| url := u; host := h; ip := Unset |}
      end
  | None =>
      logging ERROR "Failed to resolve hostname: None" ;;
      ret {| url := u; host := h; ip := Unset |}
  end.

(** ** The target database *)

Record TargetDatabase := {
  database : string;
  insert : insert_kw;
  conflict : conflict_kw
}.

(** [TargetDatabase.__init__]: the driver and its insert syntax follow from
    the prefix of the connection string. *)
Definition TargetDatabase_init (d : string) : TargetDatabase :=
  if PyStr.startswith "postgresql://" d then
    {| database := d; insert := INSERT; conflict := ON_CONFLICT_DO_NOTHING |}
  else if PyStr.startswith "phoenixdb://" d then
    {| database := PyStr.drop 12 d; insert := UPSERT; conflict := NO_CLAUSE |}
  else
    {| database := d; insert := INSERT_OR_REPLACE; conflict := NO_CLAUSE |}.

(** The [source] argument of [get_urls]: [False], [True] or a label. *)
Inductive source_arg :=
  | SrcBool (b : bool)
  | SrcStr (s : string).

(** [" | ".join(row)]: every column value has to be text. *)
Fixpoint all_text (r : row) : option (list string) :=
  match r with
  | [] => Some []
  | Some v :: r' => (fun l => v :: l) <$> all_text r'
  | None :: _ => None
  end.

Definition join_row (r : row) : result string :=
  match all_text r with
  | Some l => Ok (PyStr.join " | " l)
  | None => Raise TypeError
  end.

Fixpoint join_rows (rs : list row) : result (list string) :=
  match rs with
  | [] => Ok []
  | r :: rs' =>
      match join_row r with
      | Ok x =>
          match join_rows rs' with
          | Ok xs => Ok (x :: xs)
          | other => other
          end
      | Raise e => Raise e
      | Diverge => Diverge
      end
  end.

(** [get_urls] *)
Definition get_urls (unscanned_only : bool) (source : source_arg) (randomize : bool)
    : M (list string) :=
  let with_source := match source with SrcBool true => true | _ => false end in
  let source_eq :=
    match source with
    | SrcStr s => if decide (s = EmptyString) then None else Some s
    | SrcBool _ => None
    end in
  urls <- except_db
    (new_cursor ;;
     execute (SelectTargets with_source unscanned_only source_eq) ;;
     rows <- fetchall ;;
     lift (join_rows rows))
    (fun msg => logging ERROR ("Failed to get targets - " +:+ msg) ;; sys_exit 1) ;;
  if randomize then random_shuffle urls else ret urls.

(** The test both retry loops make on [str(e)]. *)
Definition connection_lost (msg : string) : bool :=
  PyStr.contains "connection already closed" msg ||
  PyStr.contains "server closed the connection unexpectedly" msg.

(** [mark_scanned]: [n] is the number of iterations of [for i in range(3)]
    still to run. Neither the [try] body nor the handler leaves the loop. *)
Fixpoint mark_scanned_from (n : nat) (u : string) : M unit :=
  match n with
  | O => ret tt
  | S n' =>
      except_db (execute (UpdateScanned u))
        (fun msg =>
           if connection_lost msg then
             logging WARNING ("Failed to mark target as scanned (retrying) - " +:+ msg) ;;
             connect
           else
             logging ERROR ("Failed to mark target as scanned - " +:+ msg) ;;
             sys_exit 1) ;;
      mark_scanned_from n' u
  end.

Definition mark_scanned (u : string) : M unit := mark_scanned_from 3 u.

(** The retry loop of [get_scanned]: the value is the local [row] after the
    loop, [None] when no iteration assigned it. *)
Fixpoint get_scanned_from (n : nat) (f : string) : M (option (option row)) :=
  match n with
  | O => ret None
  | S n' =>
      again <- except_db
        (execute (SelectFingerprint f) ;;
         r <- fetchone ;;
         ret (inl r))
        (fun msg =>
           if connection_lost msg then
             logging WARNING ("Failed to look up fingerprint (retrying) - " +:+ msg) ;;
             connect ;;
             ret (inr tt)
           else
             logging ERROR ("Failed to look up fingerprint - " +:+ msg) ;;
             sys_exit 1) ;;
      match again with
      | inl r => ret (Some r)               (* break *)
      | inr _ => get_scanned_from n' f      (* continue *)
      end
  end.

(** [get_scanned]: the stored fingerprint, or [None] for [False]. *)
Definition get_scanned (f : string) : M (option string) :=
  r <- get_scanned_from 3 f ;;
  match r with
  | None => raise (UnboundLocalError "row")
  | Some None => ret None
  | Some (Some []) => ret None
  | Some (Some (v :: _)) => ret v
  end.

(** Truth value of what [get_scanned] returns: [False] and the empty string
    are false. *)
Definition truthy (v : option string) : bool :=
  match v with
  | Some s => negb (bool_decide (s = EmptyString))
  | None => false
  end.

(** The [while True] loop of [get_next_target], with [fuel] iterations. *)
Fixpoint get_next_target_loop (fuel : nat) (self : TargetDatabase) : M (option Target) :=
  match fuel with
  | O => diverge
  | S fuel' =>
      r <- fetchone ;;
      match r with
      | None => ret None
      | Some r =>
          u <- column0 r ;;
          target <- Target_init u ;;
          let fingerprint := generate_fingerprint u in
          mark_scanned u ;;
          found <- get_scanned fingerprint ;;
          if truthy found then
            logging DEBUG ("Skipping (matches fingerprint of previous scan): " +:+ url target) ;;
            get_next_target_loop fuel' self
          else
            execute (InsertFingerprint (insert self) fingerprint) ;;
            ret (Some target)
      end
  end.

(** [get_next_target] *)
Definition get_next_target (fuel : nat) (self : TargetDatabase) (random : bool)
    : M (option Target) :=
  except_db
    (new_cursor ;;
     execute (SelectUnscanned random) ;;
     get_next_target_loop fuel self)
    (fun msg => logging ERROR ("Failed to get next target - " +:+ msg) ;; sys_exit 1).

(** [add_target] *)
Definition add_target (self : TargetDatabase) (u : string) (source : option string) : M unit :=
  except_db
    (new_cursor ;;
     execute (InsertTarget (insert self) (conflict self) u source))
    (fun msg => logging ERROR ("Failed to add target - " +:+ msg) ;; sys_exit 1).

(** [add_targets] *)
Definition add_targets (self : TargetDatabase) (urls : list string) (source : option string)
    : M unit :=
  except_db
    (new_cursor ;;
     executemany ((fun u => InsertTarget (insert self) (conflict self) u source) <$> urls))
    (fun msg => logging ERROR ("Failed to add target - " +:+ msg) ;; sys_exit 1).

(** [delete_target] *)
Definition delete_target (u : string) : M unit :=
  except_db
    (new_cursor ;; execute (DeleteTarget u))
    (fun msg => logging ERROR ("Failed to delete target - " +:+ msg) ;; sys_exit 1).

(** [flush_fingerprints] *)
Definition flush_fingerprints : M unit :=
  logging INFO "Flushing fingerprints" ;;
  except_db
    (new_cursor ;; execute DeleteFingerprints ;; execute ResetScanned)
    (fun msg => logging ERROR ("Failed to flush fingerprints - " +:+ msg) ;; sys_exit 1).

(** [flush_targets] *)
Definition flush_targets : M unit :=
  logging INFO "Flushing targets" ;;
  except_db
    (new_cursor ;; execute DeleteTargets)
    (fun msg => logging ERROR ("Failed to flush targets - " +:+ msg) ;; sys_exit 1).

(** ** The blocklist *)

(** A [Blocklist] object. [bl_database] tells whether [self.database] is
    set (rules kept in a table) or the rules come from a flat file;
    [regex] is the pattern compiled into [self.regex], if any. *)
Record Blocklist := {
  bl_database : bool;
  bl_insert : insert_kw;
  ip_set : gset IPNetwork;
  host_set : gset string;
  regex_set : gset string;
  regex : option string
}.

Definition add_ip (n : IPNetwork) (b : Blocklist) : Blocklist :=
  {| bl_database := bl_database b; bl_insert := bl_insert b;
     ip_set := {[ n ]} ∪ ip_set b; host_set := host_set b;
     regex_set := regex_set b; regex := regex b |}.

Definition add_host (h : string) (b : Blocklist) : Blocklist :=
  {| bl_database := bl_database b; bl_insert := bl_insert b;
     ip_set := ip_set b; host_set := {[ h ]} ∪ host_set b;
     regex_set := regex_set b; regex := regex b |}.

Definition add_regex (p : string) (b : Blocklist) : Blocklist :=
  {| bl_database := bl_database b; bl_insert := bl_insert b;
     ip_set := ip_set b; host_set := host_set b;
     regex_set := {[ p ]} ∪ regex_set b; regex := regex b |}.

Definition with_regex (r : option string) (b : Blocklist) : Blocklist :=
  {| bl_database := bl_database b; bl_insert := bl_insert b;
     ip_set := ip_set b; host_set := host_set b;
     regex_set := regex_set b; regex := r |}.

(** [item.split(":")[1]] *)
Definition item_arg (item : string) : M string :=
  match PyStr.split ":"%char item with
  | _ :: x :: _ => ret x
  | _ => raise IndexError
  end.

(** The [for item in items] loop of [parse_list]. [ip_net] is the local of
    that name: [None] until a first address has parsed. After the
    [try/except ValueError] the loop body goes on to [self.ip_set.add(ip_net)]
    in either case. *)
Fixpoint parse_items (items : list string) (ip_net : option IPNetwork) (self : Blocklist)
    : M Blocklist :=
  match items with
  | [] => ret self
  | item :: rest =>
      if PyStr.startswith "ip:" item then
        a <- item_arg item ;;
        ip_net' <- match ip_network a with
                   | Parsed n => ret (Some n)
                   | ValueError msg =>
                       logging ERROR ("Could not parse blocklist item as ip - " +:+ msg) ;;
                       ret ip_net
                   end ;;
        match ip_net' with
        | Some n => parse_items rest ip_net' (add_ip n self)
        | None => raise (UnboundLocalError "ip_net")
        end
      else if PyStr.startswith "host:" item then
        h <- item_arg item ;;
        parse_items rest ip_net (add_host h self)
      else if PyStr.startswith "regex:" item then
        p <- item_arg item ;;
        parse_items rest ip_net (add_regex p self)
      else
        logging WARNING ("Could not parse blocklist item - " +:+ item) ;;
        parse_items rest ip_net self
  end.

(** [parse_list] *)
Definition parse_list (self : Blocklist) (items : list string) : M Blocklist :=
  self' <- parse_items items None self ;;
  let pattern := PyStr.join "|" (elements (regex_set self')) in
  if decide (pattern = EmptyString) then ret (with_regex None self')
  else if re_valid pattern then ret (with_regex (Some pattern) self')
  else raise ReError.

(** [add] *)
Definition Blocklist_add (self : Blocklist) (item : string) : M Blocklist :=
  connect ;;
  self' <-
    (if PyStr.startswith "ip:" item then
       a <- item_arg item ;;
       match ip_network a with
       | Parsed n => ret (add_ip n self)
       | ValueError msg =>
           logging ERROR ("Could not parse blocklist item as ip - " +:+ msg) ;;
           sys_exit 1
       end
     else if PyStr.startswith "host:" item then
       h <- item_arg item ;;
       ret (add_host h self)
     else if PyStr.startswith "regex:" item then
       p <- item_arg item ;;
       ret (add_regex p self)
     else
       logging ERROR ("Could not parse blocklist item - " +:+ item) ;;
       sys_exit 1) ;;
  (if bl_database self then
     except_db
       (new_cursor ;; execute (InsertBlocklist (bl_insert self) item))
       (fun msg => logging ERROR ("Failed to add blocklist item - " +:+ msg) ;; sys_exit 1)
   else
     logging WARNING "Add ignored (not implemented for file-based blocklist)") ;;
  ret self'.

(** The three tests of [match], each on its own. *)
Definition regex_test (self : Blocklist) (target : Target) : bool :=
  match regex self with
  | Some p => re_match p (url target)
  | None => false
  end.

Definition host_test (self : Blocklist) (target : Target) : bool :=
  match host target with
  | Some h => bool_decide (h ∈ host_set self)
  | None => false
  end.

(** [for ip_net in nets: if target.ip and target.ip in ip_net: return True]
    and then [return False]. Reading [target.ip] raises when the attribute
    was never assigned. *)
Fixpoint ip_loop (nets : list IPNetwork) (target : Target) : result bool :=
  match nets with
  | [] => Ok false
  | n :: nets' =>
      match ip target with
      | Unset => Raise (AttributeError "ip")
      | Attr None => ip_loop nets' target
      | Attr (Some a) => if ip_in_network a n then Ok true else ip_loop nets' target
      end
  end.

(** [match] *)
Definition Blocklist_match (self : Blocklist) (target : Target) : result bool :=
  if regex_test self target then Ok true
  else if host_test self target then Ok true
  else ip_loop (elements (ip_set self)) target.

(** [[blocklist.match(target) for blocklist in blocklists]] *)
Fixpoint match_each (blocklists : list Blocklist) (target : Target) : result (list bool) :=
  match blocklists with
  | [] => Ok []
  | b :: bs =>
      match Blocklist_match b target with
      | Ok x =>
          match match_each bs target with
          | Ok xs => Ok (x :: xs)
          | other => other
          end
      | Raise e => Raise e
      | Diverge => Diverge
      end
  end.

(** [True in [blocklist.match(target) for blocklist in blocklists]] *)
Definition match_any (blocklists : list Blocklist) (target : Target) : M bool :=
  l <- lift (match_each blocklists target) ;;
  ret (bool_decide (true ∈ l)).

(** ** Pruning *)

(** The [for url in urls] loop of [prune]; [seen] is the local set
    [fingerprints]. *)
Fixpoint prune_loop (blocklists : list Blocklist) (urls : list string) (seen : gset string)
    : M unit :=
  match urls with
  | [] => ret tt
  | u :: rest =>
      target <- Target_init u ;;
      let fingerprint := generate_fingerprint u in
      new_cursor ;;
      dup <- (if bool_decide (fingerprint ∈ seen) then ret true
              else found <- get_scanned fingerprint ;; ret (truthy found)) ;;
      if (dup : bool) then
        logging DEBUG ("Marking scanned (matches fingerprint of another target): " +:+ url target) ;;
        mark_scanned (url target) ;;
        prune_loop blocklists rest seen
      else
        blocked <- match_any blocklists target ;;
        if (blocked : bool) then
          logging DEBUG ("Deleting (matches blocklist pattern): " +:+ url target) ;;
          delete_target (url target) ;;
          prune_loop blocklists rest seen
        else
          prune_loop blocklists rest ({[ fingerprint ]} ∪ seen)
  end.

(** [TargetDatabase.prune] *)
Definition prune (blocklists : list Blocklist) (randomize : bool) : M unit :=
  urls <- get_urls false (SrcBool false) false ;;
  urls <- (if randomize then random_shuffle urls else ret urls) ;;
  prune_loop blocklists urls ∅.

(** ** Sequences of store operations *)

Inductive store_op :=
  | OpAddTarget (u : string) (source : option string)
  | OpAddTargets (urls : list string) (source : option string)
  | OpDeleteTarget (u : string)
  | OpGetNextTarget (fuel : nat) (random : bool)
  | OpMarkScanned (u : string)
  | OpPrune (blocklists : list Blocklist) (randomize : bool)
  | OpFlushTargets.

Definition run_op (self : TargetDatabase) (o : store_op) : M unit :=
  match o with
  | OpAddTarget u s => add_target self u s
  | OpAddTargets us s => add_targets self us s
  | OpDeleteTarget u => delete_target u
  | OpGetNextTarget fuel random => get_next_target fuel self random ;; ret tt
  | OpMarkScanned u => mark_scanned u
  | OpPrune bs randomize => prune bs randomize
  | OpFlushTargets => flush_targets
  end.

(** The operations one after the other; the first that raises ends the
    process. *)
Fixpoint run_ops (self : TargetDatabase) (os : list store_op) : M unit :=
  match os with
  | [] => ret tt
  | o :: os' => run_op self o ;; run_ops self os'
  end.

End Program.

(** ** The rest of the program: argument formatting, indexing, scanning
    and the remaining blocklist methods *)
Section Orchestration.
Context `{E : Env}.

(** The [for arg in args_list] loop of [format_module_args]; [args] is the
    list built so far. A list has no method [add]. *)
Fixpoint format_args_loop (args_list : list string) (args : list string)
    : result (list string) :=
  match args_list with
  | [] => Ok args
  | arg :: rest =>
      if PyStr.startswith "--" arg then Raise (AttributeError "add")
      else format_args_loop rest (args ++ ["--" +:+ arg])
  end.

(** [format_module_args]; [None] is the option never given. *)
Definition format_module_args (args_list : option (list string)) : result (list string) :=
  match args_list with
  | None => Ok []
  | Some l => format_args_loop l []
  end.

(** [[blocklist.match(Target(url)) for blocklist in blocklists]]: a new
    [Target] for every blocklist. *)
Fixpoint match_each_fresh (blocklists : list Blocklist) (u : string) : M (list bool) :=
  match blocklists with
  | [] => ret []
  | b :: bs =>
      target <- Target_init u ;;
      x <- lift (Blocklist_match b target) ;;
      xs <- match_each_fresh bs u ;;
      ret (x :: xs)
  end.

(** The [for url in urls] loop of [index], which builds [targets]. *)
Fixpoint index_loop (blocklists : list Blocklist) (urls : list string) (targets : list string)
    : M (list string) :=
  match urls with
  | [] => ret targets
  | u :: rest =>
      l <- match_each_fresh blocklists u ;;
      if bool_decide (true ∈ l) then
        logging DEBUG ("Ignoring (matches blocklist pattern): " +:+ u) ;;
        index_loop blocklists rest targets
      else
        index_loop blocklists rest (targets ++ [u])
  end.

(** [index]. [urls] and [module_source] are what [indexer.run] returned,
    [about] the indexer's name and arguments as the log line prints them,
    [args_source] is [args.source]: [False] when [--source] is absent,
    [True] for the bare flag, or the label given with it. The bare flag
    passes [True] on as the label; [true_label] is the text the driver
    stores in the [source] column for that value. *)
Definition index (self : TargetDatabase) (blocklists : list Blocklist) (about : string)
    (urls : list string) (module_source : string) (args_source : source_arg)
    (true_label : string) : M unit :=
  logging INFO ("Indexing: " +:+ about) ;;
  let source :=
    match args_source with
    | SrcStr s => if decide (s = EmptyString) then module_source else s
    | SrcBool true => true_label
    | SrcBool false => module_source
    end in
  targets <- index_loop blocklists urls [] ;;
  connect ;;
  add_targets self targets (Some source).

(** The [while] loop of [scan], with [fuel] iterations. [run] is
    [scanner.run], [None] its failure value [False]; [gfuel] is the fuel of
    [get_next_target]. The value is the list of the scanner's invocations in
    order, each with its result: a report is written for those with a
    result. The report directory is taken to exist. *)
Fixpoint scan_loop (fuel gfuel : nat) (self : TargetDatabase) (blocklists : list Blocklist)
    (run : Target -> option string) (count : Z) (random : bool) (scanned : Z)
    : M (list (Target * option string)) :=
  match fuel with
  | O => diverge
  | S fuel' =>
      if (scanned <? count) || (count =? -1) then
        connect ;;
        target <- get_next_target gfuel self random ;;
        match target with
        | None => ret []
        | Some target =>
            blocked <- match_any blocklists target ;;
            if (blocked : bool) then
              logging DEBUG ("Deleting (matches blocklist pattern): " +:+ url target) ;;
              delete_target (url target) ;;
              scan_loop fuel' gfuel self blocklists run count random scanned
            else
              logging INFO ("Scanning: " +:+ url target) ;;
              let results := run target in
              match results with
              | None =>
                  logging ERROR ("Scan failed: " +:+ url target) ;;
                  rest <- scan_loop fuel' gfuel self blocklists run count random (scanned + 1) ;;
                  ret ((target, results) :: rest)
              | Some _ =>
                  rest <- scan_loop fuel' gfuel self blocklists run count random (scanned + 1) ;;
                  ret ((target, results) :: rest)
              end
        end
      else ret []
  end.

(** [scan] *)
Definition scan (fuel gfuel : nat) (self : TargetDatabase) (blocklists : list Blocklist)
    (run : Target -> option string) (count : Z) (random : bool)
    : M (list (Target * option string)) :=
  scan_loop fuel gfuel self blocklists run count random 0.

(** [Blocklist.delete] *)
Definition Blocklist_delete (self : Blocklist) (item : string) : M unit :=
  connect ;;
  (if bl_database self then
     except_db
       (new_cursor ;; execute (DeleteBlocklistItem item))
       (fun msg => logging ERROR ("Failed to delete blocklist item - " +:+ msg) ;; sys_exit 1)
   else
     logging WARNING "Delete ignored (not implemented for file-based blocklist)").

(** [Blocklist.get_parsed_items]. [str_address] and [str_network] are
    [str] on an address and on a network; a network of one address is listed
    by its address. *)
Definition get_parsed_items (str_address : ipver -> Z -> string)
    (str_network : IPNetwork -> string) (self : Blocklist) : list string :=
  let parsed_ip_set : gset string :=
    list_to_set
      ((fun n => if decide (prefixlen n = max_prefixlen (net_version n))
                 then str_address (net_version n) (network_address n)
                 else str_network n) <$> elements (ip_set self)) in
  ((fun i => "ip:" +:+ i) <$> elements parsed_ip_set) ++
  ((fun i => "host:" +:+ i) <$> elements (host_set self)) ++
  ((fun i => "regex:" +:+ i) <$> elements (regex_set self)).

(** [[row[0] for row in c.fetchall()]] *)
Fixpoint first_columns (rows : list row) : M (list string) :=
  match rows with
  | [] => ret []
  | r :: rs =>
      x <- column0 r ;;
      xs <- first_columns rs ;;
      ret (x :: xs)
  end.

(** [read_items]. [file_lines] is [self.blocklist_file.read().splitlines()],
    which only a file-based blocklist reads. *)
Definition read_items (file_lines : list string) (self : Blocklist) : M (list string) :=
  if bl_database self then
    except_db
      (new_cursor ;;
       execute SelectBlocklist ;;
       rows <- fetchall ;;
       first_columns rows)
      (fun msg => logging ERROR ("Failed to get targets - " +:+ msg) ;; sys_exit 1)
  else ret file_lines.

(** The last statement of [Blocklist.__init__]:
    [self.parse_list(self.read_items())]. *)
Definition Blocklist_load (file_lines : list string) (self : Blocklist) : M Blocklist :=
  items <- read_items file_lines self ;;
  parse_list self items.

(** [Blocklist.flush]. [unlink_error] is the outcome of [os.unlink] on the
    file of a file-based blocklist: [Some msg] for an [OSError]. *)
Definition Blocklist_flush (unlink_error : option string) (self : Blocklist) : M Blocklist :=
  logging INFO "Flushing blocklist" ;;
  (if bl_database self then
     except_db
       (new_cursor ;; execute DeleteBlocklist)
       (fun msg => logging ERROR ("Failed to flush blocklist - " +:+ msg) ;; sys_exit 1)
   else
     match unlink_error with
     | None => ret tt
     | Some msg =>
         logging ERROR ("Failed to delete blocklist file - " +:+ msg) ;; sys_exit 1
     end) ;;
  ret {| bl_database := bl_database self; bl_insert := bl_insert self;
         ip_set := ∅; host_set := ∅; regex_set := ∅; regex := None |}.

End Orchestration.

(** ** Vocabulary of the statements *)

(** A computation that never takes a fingerprint out of the table, whatever
    its outcome. *)
Definition keeps_fingerprints {A} (m : M A) : Prop :=
  forall w, fingerprints (db w) ⊆ fingerprints (db (m w).2).

(** Every statement but [DELETE FROM fingerprints]. *)
Definition not_fingerprint_delete (q : sql) : Prop :=
  match q with
  | DeleteFingerprints => False
  | _ => True
  end.

(** The target a URL gives, without the log line [Target.__init__] may
    write. *)
Definition target_of `{E : Env} (u : string) : Target :=
  {| url := u;
     host := hostname (urlparse u);
     ip := match hostname (urlparse u) with
           | Some name =>
               match gethostbyname name with
               | Resolved a => Attr (Some a)
               | GaiError => Attr None
               | OtherFailure => Unset
               end
           | None => Unset
           end |}.

(** [UPDATE targets SET scanned = 1 WHERE url = u] on the rows. *)
Definition mark_row (u : string) (r : TargetRow) : TargetRow :=
  if has_url u r then set_scanned 1 r else r.

Definition db_mark (u : string) (s : Store) : Store :=
  with_targets (mark_row u <$> targets s) s.

Definition db_delete (u : string) (s : Store) : Store :=
  with_targets (filter (fun r => row_url r <> u) (targets s)) s.

(** The row of a URL, if the table has one. *)
Definition lookup_url (u : string) (ts : list TargetRow) : option TargetRow :=
  find (has_url u) ts.

(** The rows the [SELECT] of [get_next_target] puts on the cursor. *)
Definition selected `{E : Env} (random : bool) (w : World) : list row :=
  let rows := select_row false <$> filter (fun r => unscanned r) (targets (db w)) in
  if random then shuffle row (rng w) rows else rows.

(** The store after a candidate [u] with fingerprint [f] went through one
    iteration of the loop. *)
Definition db_claim (u f : string) (s : Store) : Store :=
  if bool_decide (f ∈ fingerprints s) then db_mark u s
  else with_fingerprints ({[ f ]} ∪ fingerprints s) (db_mark u s).

(** The log lines of the two retry loops. *)
Definition lookup_retry_warning (msg : string) : level * string :=
  (WARNING, "Failed to look up fingerprint (retrying) - " +:+ msg).

Definition mark_retry_warning (msg : string) : level * string :=
  (WARNING, "Failed to mark target as scanned (retrying) - " +:+ msg).

(** The third test of [match]: the target has an address and some network
    of [ip_set] holds it. *)
Definition ip_test (self : Blocklist) (target : Target) : bool :=
  match ip target with
  | Attr (Some a) => existsb (ip_in_network a) (elements (ip_set self))
  | _ => false
  end.

(** The item starts with one of the three prefixes. *)
Definition recognised (item : string) : bool :=
  PyStr.startswith "ip:" item || PyStr.startswith "host:" item ||
  PyStr.startswith "regex:" item.

(** What [get_urls] prints for a row when it selects both columns. *)
Definition with_label (r : TargetRow) : string :=
  row_url r +:+ " | " +:+ default EmptyString (row_source r).

(** The columns and the filter [get_urls] puts into its [SELECT]. *)
Definition wants_source (source : source_arg) : bool :=
  match source with SrcBool true => true | _ => false end.

Definition source_filter (source : source_arg) : option string :=
  match source with
  | SrcStr s => if decide (s = EmptyString) then None else Some s
  | SrcBool _ => None
  end.

(** The row of [u] after [<insert> INTO targets (url, source) VALUES (u, s)],
    given the row it had before. *)
Definition after_insert (ins : insert_kw) (u : string) (s : option string)
    (old : option TargetRow) : TargetRow :=
  match old, ins with
  | None, _ => new_row u s
  | Some _, INSERT_OR_REPLACE => new_row u s
  | Some r, UPSERT => set_source s r
  | Some r, INSERT => r
  end.

(** The insert syntax of the three drivers: a bare [INSERT] always comes
    with [ON CONFLICT DO NOTHING]. *)
Definition driver_syntax (ins : insert_kw) (conf : conflict_kw) : Prop :=
  ins = INSERT -> conf = ON_CONFLICT_DO_NOTHING.

(** The target table after the insert statement of a driver. *)
Definition upsert (ins : insert_kw) (conf : conflict_kw) (s : option string)
    (ts : list TargetRow) (u : string) : list TargetRow :=
  default ts (insert_target ins conf u s ts).

(** [c] does not occur in [s]. *)
Definition free_of (c : ascii) (s : string) : Prop := PyStr.count c s = 0%nat.

(** The four components of a parsed URL that the fingerprint is made of:
    netloc, number of slashes in the path, last path segment, and the sorted
    names of the parameters with a value. *)
Definition shape (p : url_parts) : string * nat * string * list string :=
  (netloc p,
   PyStr.count "/"%char (path p),
   PyStr.last (PyStr.split "/"%char (path p)),
   PyStr.sorted (query_params (query p))).

(** The components can be read back from the string that is hashed: no [|]
    in the netloc or in the last segment, and names that are not empty and
    hold no comma. *)
Definition separable (p : url_parts) : Prop :=
  free_of "|"%char (netloc p) /\
  free_of "|"%char (PyStr.last (PyStr.split "/"%char (path p))) /\
  Forall (fun n => n <> EmptyString /\ free_of ","%char n) (query_params (query p)).

(** The hash tells two strings apart. *)
Definition no_collision `{E : Env} (s1 s2 : string) : Prop :=
  generate_hash s1 = generate_hash s2 -> s1 = s2.

(** A query string written from (name, value) pairs: [n1=v1&n2=v2&...]. *)
Definition encode_query (ps : list (string * string)) : string :=
  PyStr.join "&" ((fun p => p.1 +:+ "=" +:+ p.2) <$> ps).

(** Names and values that survive in a query string unchanged. *)
Definition plain_pair (p : string * string) : Prop :=
  free_of "="%char p.1 /\ free_of "&"%char p.1 /\ free_of "&"%char p.2.

(** The names of the pairs whose value is not empty, in order. *)
Definition names_with_value (ps : list (string * string)) : list string :=
  fst <$> filter (fun p => p.2 <> EmptyString) ps.

(** [x] in front of a list that was computed without raising. *)
Definition cons_ok {A} (x : A) (r : result (list A)) : result (list A) :=
  match r with
  | Ok l => Ok (x :: l)
  | Raise e => Raise e
  | Diverge => Diverge
  end.

(** What one pass of [prune] makes of the rows it visits, in table order:
    [known] is the fingerprint table, [seen] the fingerprints kept earlier
    in the pass. A duplicate is marked, a blocked target is dropped, any
    other row stays and its fingerprint counts as seen. *)
Fixpoint prune_rows `{E : Env} (blocklists : list Blocklist) (known seen : gset string)
    (rows : list TargetRow) : result (list TargetRow) :=
  match rows with
  | [] => Ok []
  | r :: rest =>
      let f := generate_fingerprint (row_url r) in
      if bool_decide (f ∈ seen) || bool_decide (f ∈ known) then
        cons_ok (mark_row (row_url r) r) (prune_rows blocklists known seen rest)
      else
        match match_each blocklists (target_of (row_url r)) with
        | Ok l =>
            if bool_decide (true ∈ l) then prune_rows blocklists known seen rest
            else cons_ok r (prune_rows blocklists known ({[ f ]} ∪ seen) rest)
        | Raise e => Raise e
        | Diverge => Diverge
        end
  end.

(** How a computation ended, without its value. *)
Definition outcome {A} (r : result A) : result unit :=
  match r with
  | Ok _ => Ok tt
  | Raise e => Raise e
  | Diverge => Diverge
  end.

(** The store after [flush_fingerprints]. *)
Definition db_flush_fingerprints (s : Store) : Store :=
  with_targets (set_scanned 0 <$> targets s) (with_fingerprints ∅ s).

(** The number of rows [get_next_target] can still select. *)
Definition pending (s : Store) : nat :=
  length (filter (fun r => unscanned r) (targets s)).

(** The fingerprint of a row's URL. *)
Definition row_fingerprint `{E : Env} (r : TargetRow) : string :=
  generate_fingerprint (row_url r).

(** No blocklist of the list matches the target of the URL, and none raises
    on it. *)
Definition allowed `{E : Env} (blocklists : list Blocklist) (u : string) : Prop :=
  exists l, match_each blocklists (target_of u) = Ok l /\ true ∉ l.

(** Some blocklist of the list matches the target of the URL. *)
Definition blocked `{E : Env} (blocklists : list Blocklist) (u : string) : Prop :=
  exists l, match_each blocklists (target_of u) = Ok l /\ true ∈ l.

(** The blocklist table after [<insert> INTO blocklist VALUES (item)] went
    through. *)
Definition table_with (item : string) (table : list string) : list string :=
  if bool_decide (item ∈ table) then table else table ++ [item].

(** How [get_parsed_items] writes a network. *)
Definition listed_network (str_address : ipver -> Z -> string)
    (str_network : IPNetwork -> string) (n : IPNetwork) : string :=
  if decide (prefixlen n = max_prefixlen (net_version n))
  then str_address (net_version n) (network_address n)
  else str_network n.

(** [allowed], as a truth value. *)
Definition allowedb `{E : Env} (blocklists : list Blocklist) (u : string) : bool :=
  match match_each blocklists (target_of u) with
  | Ok l => negb (bool_decide (true ∈ l))
  | _ => false
  end.

(** The label [index] stores: the one given with [--source], what the
    driver makes of [True] for the bare flag, and else the indexer's. *)
Definition index_source (module_source : string) (args_source : source_arg)
    (true_label : string) : string :=
  match args_source with
  | SrcStr s => if decide (s = EmptyString) then module_source else s
  | SrcBool true => true_label
  | SrcBool false => module_source
  end.

(** No blocklist of the list matches the target, and none raises on it. *)
Definition unmatched `{E : Env} (blocklists : list Blocklist) (target : Target) : Prop :=
  exists l, match_each blocklists target = Ok l /\ true ∉ l.

(** The fingerprint of a target the scanner was given. *)
Definition scanned_fingerprint `{E : Env} (x : Target * option string) : string :=
  generate_fingerprint (url x.1).

(** [item.split(":")[1]], when the item has a colon. *)
Definition second_field (item : string) : option string :=
  match PyStr.split ":"%char item with
  | _ :: x :: _ => Some x
  | _ => None
  end.

(** ** A concrete environment to run the program on examples

    Small stand-ins for the libraries: URLs of the shape
    [scheme://host/path?query], dotted-quad networks with an optional prefix
    length, patterns that are literal prefixes, a resolver given by a table,
    a shuffle that reverses at every odd use, and a digest that tags its
    input (so distinct inputs keep distinct digests). *)
Module Sample.

Fixpoint before (c : ascii) (s : string) : string :=
  match s with
  | EmptyString => EmptyString
  | String a s' => if decide (a = c) then EmptyString else String a (before c s')
  end.

Fixpoint after (c : ascii) (s : string) : string :=
  match s with
  | EmptyString => EmptyString
  | String a s' => if decide (a = c) then s' else after c s'
  end.

Fixpoint from (c : ascii) (s : string) : string :=
  match s with
  | EmptyString => EmptyString
  | String a s' => if decide (a = c) then s else from c s'
  end.

Definition parse_url (u : string) : url_parts :=
  let u := before "#"%char u in
  let q := after "?"%char u in
  let u := before "?"%char u in
  let rest := after ":"%char u in
  if PyStr.startswith "//" rest then
    let loc := before "/"%char (PyStr.drop 2 rest) in
    {| netloc := loc; path := from "/"%char (PyStr.drop 2 rest); query := q;
       hostname := if decide (loc = EmptyString) then None else Some (before ":"%char loc) |}
  else
    {| netloc := EmptyString; path := u; query := q; hostname := None |}.

Definition digit (a : ascii) : option Z :=
  let n := Z.of_nat (nat_of_ascii a) in
  if (48 <=? n) && (n <=? 57) then Some (n - 48) else None.

Fixpoint number_from (acc : Z) (s : string) : option Z :=
  match s with
  | EmptyString => Some acc
  | String a s' =>
      match digit a with
      | Some d => number_from (10 * acc + d) s'
      | None => None
      end
  end.

Definition number (s : string) : option Z :=
  match s with
  | EmptyString => None
  | _ => if (3 <? Z.of_nat (String.length s)) then None else number_from 0 s
  end.

Definition octet (s : string) : option Z :=
  match number s with
  | Some n => if n <=? 255 then Some n else None
  | None => None
  end.

Definition dotted_quad (s : string) : option Z :=
  match octet <$> PyStr.split "."%char s with
  | [Some a; Some b; Some c; Some d] => Some (((a * 256 + b) * 256 + c) * 256 + d)
  | _ => None
  end.

Definition parse_network (s : string) : parsed IPNetwork :=
  let bad := ValueError (s +:+ " does not appear to be an IPv4 or IPv6 network") in
  match PyStr.split "/"%char s with
  | [a] =>
      match dotted_quad a with
      | Some n => Parsed {| net_version := IPv4; network_address := n; prefixlen := 32 |}
      | None => bad
      end
  | [a; p] =>
      match dotted_quad a, number p with
      | Some n, Some len =>
          let net := {| net_version := IPv4; network_address := n; prefixlen := len |} in
          if (len <=? 32) && (Z.land n (netmask net) =? n) then Parsed net
          else ValueError (s +:+ " has host bits set")
      | _, _ => bad
      end
  | _ => bad
  end.

Definition v4 (a b c d : Z) : IPAddress :=
  {| ip_version := IPv4; ip_int := ((a * 256 + b) * 256 + c) * 256 + d |}.

Definition resolve (h : string) : resolution :=
  if decide (h = "h") then Resolved (v4 10 0 0 5)
  else if decide (h = "intranet") then Resolved (v4 10 0 1 5)
  else if decide (h = "example.com") then Resolved (v4 93 184 216 34)
  else if decide (h = "bad..label") then OtherFailure
  else GaiError.

Definition digest (s : string) : string := "md5:" +:+ s.

Definition reverse_odd (A : Type) (n : nat) (l : list A) : list A :=
  if Nat.odd n then reverse l else l.

#[export] Instance env : Env.
Proof.
  refine {| md5_hexdigest := digest;
            md5_hexdigest_nonempty := _;
            urlparse := parse_url;
            gethostbyname := resolve;
            ip_network := parse_network;
            re_valid := fun _ => true;
            re_match := PyStr.startswith;
            shuffle := reverse_odd |}.
  intros s. discriminate.
Defined.

(** A process with the given store, no pending fault and an empty log. *)
Definition world (s : Store) : World :=
  {| db := s; cursor := []; faults := []; log := []; connects := 0; rng := 0 |}.

Definition store (ts : list TargetRow) (fs : list string) : Store :=
  {| targets := ts; fingerprints := list_to_set fs; blocklist := [] |}.

Definition empty_blocklist : Blocklist :=
  {| bl_database := true; bl_insert := INSERT_OR_REPLACE; ip_set := ∅;
     host_set := ∅; regex_set := ∅; regex := None |}.

(** *** Inputs of the worked examples *)

Definition sqlite : TargetDatabase := TargetDatabase_init "dorkbot.db".

(** Two unscanned targets, the first with the shape of a page that was
    scanned before. *)
Definition duplicate_first : World :=
  world (store [new_row "http://h/p?x=2" None; new_row "http://h/q" None]
               [generate_fingerprint "http://h/p?x=1"]).

(** A database whose connection is lost at three statements in a row. *)
Definition connection_gone : World :=
  {| db := store [new_row "http://h/q" None] [];
     cursor := [];
     faults := [Some "connection already closed";
                Some "server closed the connection unexpectedly";
                Some "connection already closed"];
     log := []; connects := 0; rng := 0 |}.

(** A blocklist holding the network 10.0.0.0/24 and nothing else. *)
Definition ten_net : IPNetwork :=
  {| net_version := IPv4; network_address := 167772160; prefixlen := 24 |}.

Definition block_ten : Blocklist := add_ip ten_net empty_blocklist.

(** A store after two claims: both targets scanned, one fingerprint. *)
Definition after_scan : World :=
  world (store [set_scanned 1 (new_row "http://h/p?x=1" (Some "google"));
                set_scanned 1 (new_row "http://h/p?x=2" None)]
               [generate_fingerprint "http://h/p?x=1"]).


(** Two pages of one shape and a host inside the blocked network. *)
Definition mixed : World :=
  world (store [new_row "http://example.com/p?x=1" None;
                new_row "http://example.com/p?x=2" None;
                new_row "http://h/admin" None] []).

(** Two unscanned targets of one shape. *)
Definition two_alike : World :=
  world (store [new_row "http://h/p?x=1" None; new_row "http://h/p?x=2" None] []).

(** *** Inputs of the further examples *)

(** A database that answers three statements. *)
Definition answers_thrice : World :=
  {| db := store [new_row "http://h/q" None; new_row "http://h/r" None] [];
     cursor := []; faults := [None; None; None];
     log := []; connects := 0; rng := 0 |}.

(** A database whose second statement fails, the connection still up. *)
Definition fails_second : World :=
  {| db := store [new_row "http://h/q" None; new_row "http://h/r" None] [];
     cursor := []; faults := [None; Some "disk I/O error"];
     log := []; connects := 0; rng := 0 |}.

(** A connection that is lost once and is back at the next statement. *)
Definition connection_blip : World :=
  {| db := store [] [generate_fingerprint "http://h/p?x=1"];
     cursor := []; faults := [Some "connection already closed"; None];
     log := []; connects := 0; rng := 0 |}.

(** A blocklist kept in a table whose [INSERT] is the plain one. *)
Definition strict_blocklist : Blocklist :=
  {| bl_database := true; bl_insert := INSERT; ip_set := ∅;
     host_set := ∅; regex_set := ∅; regex := None |}.

(** A blocklist table with one host rule. *)
Definition listed_host : World :=
  world {| targets := []; fingerprints := ∅; blocklist := ["host:example.com"] |}.

(** [str] of an IPv4 address and of a network. *)
Definition print_address (v : ipver) (n : Z) : string :=
  pretty (n / 16777216) +:+ "." +:+ pretty ((n / 65536) mod 256) +:+ "." +:+
  pretty ((n / 256) mod 256) +:+ "." +:+ pretty (n mod 256).

Definition print_network (n : IPNetwork) : string :=
  print_address (net_version n) (network_address n) +:+ "/" +:+ pretty (prefixlen n).

(** One rule of each kind. *)
Definition rules : Blocklist :=
  with_regex (Some "admin")
    (add_regex "admin" (add_host "example.com" (add_ip ten_net empty_blocklist))).

(** A scanner that finds something on every target. *)
Definition report (t : Target) : option string := Some ("report of " +:+ url t).

End Sample.

(** * Properties *)

Create HintDb keeps.

Section Fingerprints_kept.
Context `{E : Env}.

Lemma keeps_ret {A} (a : A) : keeps_fingerprints (ret a).
Proof. intros w. reflexivity. Qed.

Lemma keeps_raise {A} (e : exn) : keeps_fingerprints (@raise A e).
Proof. intros w. reflexivity. Qed.

Lemma keeps_diverge {A} : keeps_fingerprints (@diverge A).
Proof. intros w. reflexivity. Qed.

Lemma keeps_lift {A} (r : result A) : keeps_fingerprints (lift r).
Proof. intros w. reflexivity. Qed.

Lemma keeps_bind {A B} (m : M A) (k : A -> M B) :
  keeps_fingerprints m -> (forall a, keeps_fingerprints (k a)) ->
  keeps_fingerprints (bind m k).
Proof.
  intros Hm Hk w. unfold bind. specialize (Hm w).
  destruct (m w) as [[a | e |] w1]; simpl in *; try assumption.
  etransitivity; [exact Hm | apply Hk].
Qed.

Lemma keeps_except_db {A} (m : M A) (h : string -> M A) :
  keeps_fingerprints m -> (forall msg, keeps_fingerprints (h msg)) ->
  keeps_fingerprints (except_db m h).
Proof.
  intros Hm Hh w. unfold except_db. specialize (Hm w).
  destruct (m w) as [[a | [] |] w1]; simpl in *; try assumption.
  etransitivity; [exact Hm | apply Hh].
Qed.

Lemma keeps_logging l msg : keeps_fingerprints (logging l msg).
Proof. intros w. reflexivity. Qed.

Lemma keeps_sys_exit {A} code : keeps_fingerprints (@sys_exit A code).
Proof. intros w. reflexivity. Qed.

Lemma keeps_connect : keeps_fingerprints connect.
Proof. intros w. reflexivity. Qed.

Lemma keeps_new_cursor : keeps_fingerprints new_cursor.
Proof. intros w. reflexivity. Qed.

Lemma keeps_fetchone : keeps_fingerprints fetchone.
Proof. intros w. unfold fetchone. destruct (cursor w); reflexivity. Qed.

Lemma keeps_fetchall : keeps_fingerprints fetchall.
Proof. intros w. reflexivity. Qed.

Lemma keeps_column0 r : keeps_fingerprints (column0 r).
Proof. intros w. destruct r as [|[]]; reflexivity. Qed.

Lemma keeps_random_shuffle l : keeps_fingerprints (random_shuffle l).
Proof. intros w. reflexivity. Qed.

Lemma run_sql_keeps q n s s' rows :
  not_fingerprint_delete q -> run_sql q n s = inr (s', rows) ->
  fingerprints s ⊆ fingerprints s'.
Proof.
  intros Hq Hrun. destruct q; simpl in *; try contradiction;
    repeat match goal with
           | H : context [if ?b then _ else _] |- _ => destruct b
           | H : context [match ?o with Some _ => _ | None => _ end] |- _ => destruct o
           end;
    try discriminate; inversion Hrun; subst; simpl; set_solver.
Qed.

Lemma keeps_run q : not_fingerprint_delete q -> keeps_fingerprints (run q).
Proof.
  intros Hq w. unfold run.
  destruct (run_sql q (rng w) (db w)) as [msg | [s rows]] eqn:Hrun; simpl.
  - reflexivity.
  - eapply run_sql_keeps; eassumption.
Qed.

Lemma keeps_execute q : not_fingerprint_delete q -> keeps_fingerprints (execute q).
Proof.
  intros Hq w. unfold execute.
  destruct (faults w) as [|[msg|] fs]; simpl.
  - apply (keeps_run q Hq).
  - reflexivity.
  - apply (keeps_run q Hq (with_faults fs w)).
Qed.

End Fingerprints_kept.

#[export] Hint Resolve keeps_ret keeps_raise keeps_diverge keeps_lift keeps_logging
  keeps_sys_exit keeps_connect keeps_new_cursor keeps_fetchone keeps_fetchall
  keeps_column0 keeps_random_shuffle : keeps.

(** Walks down a monadic term, one combinator at a time. *)
Ltac keeps_step :=
  match goal with
  | |- keeps_fingerprints (bind _ _) => apply keeps_bind; [| intros ?]
  | |- keeps_fingerprints (except_db _ _) => apply keeps_except_db; [| intros ?]
  | |- keeps_fingerprints (execute _) => apply keeps_execute; exact I
  | |- keeps_fingerprints (if ?b then _ else _) => destruct b
  | |- keeps_fingerprints (match ?x with _ => _ end) => destruct x
  | |- keeps_fingerprints _ => solve [auto with keeps]
  end.

Ltac keeps := repeat keeps_step.

Section Fingerprints_kept_by_methods.
Context `{E : Env}.

Lemma keeps_Target_init u : keeps_fingerprints (Target_init u).
Proof. unfold Target_init. keeps. Qed.

Lemma keeps_mark_scanned_from n u : keeps_fingerprints (mark_scanned_from n u).
Proof. induction n as [|n IH]; simpl; keeps. Qed.

Lemma keeps_mark_scanned u : keeps_fingerprints (mark_scanned u).
Proof. apply keeps_mark_scanned_from. Qed.

Lemma keeps_get_scanned_from n f : keeps_fingerprints (get_scanned_from n f).
Proof. induction n as [|n IH]; simpl; keeps. Qed.

Lemma keeps_get_scanned f : keeps_fingerprints (get_scanned f).
Proof.
  unfold get_scanned. apply keeps_bind; [apply keeps_get_scanned_from |].
  intros r. keeps.
Qed.

Hint Resolve keeps_Target_init keeps_mark_scanned keeps_get_scanned : keeps.

Lemma keeps_get_next_target_loop fuel self :
  keeps_fingerprints (get_next_target_loop fuel self).
Proof. induction fuel as [|fuel IH]; simpl; keeps. Qed.

Lemma keeps_get_next_target fuel self random :
  keeps_fingerprints (get_next_target fuel self random).
Proof.
  unfold get_next_target. keeps. apply keeps_get_next_target_loop.
Qed.

Lemma keeps_add_target self u s : keeps_fingerprints (add_target self u s).
Proof. unfold add_target. keeps. Qed.

Lemma keeps_executemany qs :
  Forall not_fingerprint_delete qs -> keeps_fingerprints (executemany qs).
Proof.
  induction 1 as [|q qs Hq _ IH]; simpl; [auto with keeps |].
  apply keeps_bind; [by apply keeps_execute | intros _; exact IH].
Qed.

Lemma keeps_add_targets self urls s : keeps_fingerprints (add_targets self urls s).
Proof.
  unfold add_targets. keeps. apply keeps_executemany.
  apply Forall_fmap, Forall_forall. intros u _. exact I.
Qed.

Lemma keeps_delete_target u : keeps_fingerprints (delete_target u).
Proof. unfold delete_target. keeps. Qed.

Lemma keeps_flush_targets : keeps_fingerprints flush_targets.
Proof. unfold flush_targets. keeps. Qed.

Lemma keeps_get_urls uo src rz : keeps_fingerprints (get_urls uo src rz).
Proof. unfold get_urls. keeps. Qed.

Lemma keeps_match_any bs t : keeps_fingerprints (match_any bs t).
Proof. unfold match_any. keeps. Qed.

Hint Resolve keeps_delete_target keeps_get_urls keeps_match_any : keeps.

Lemma keeps_prune_loop bs urls seen : keeps_fingerprints (prune_loop bs urls seen).
Proof.
  revert seen. induction urls as [|u urls IH]; intros seen; simpl; keeps.
Qed.

Lemma keeps_prune bs rz : keeps_fingerprints (prune bs rz).
Proof. unfold prune. keeps; apply keeps_prune_loop. Qed.

Lemma keeps_run_op self o : keeps_fingerprints (run_op self o).
Proof.
  destruct o; simpl;
    [ apply keeps_add_target | apply keeps_add_targets | apply keeps_delete_target
    | apply keeps_bind; [apply keeps_get_next_target | intros; apply keeps_ret]
    | apply keeps_mark_scanned | apply keeps_prune | apply keeps_flush_targets ].
Qed.

(** C9. A fingerprint that is in the table stays in it through every
    sequence of add_target, add_targets, delete_target, get_next_target,
    mark_scanned, prune and flush_targets, on every driver, whatever the
    database does (faults included) and however the sequence ends. *)
Theorem fingerprints_never_removed (self : TargetDatabase) (ops : list store_op) (w : World) :
  fingerprints (db w) ⊆ fingerprints (db (run_ops self ops w).2).
Proof.
  revert w. change (keeps_fingerprints (run_ops self ops)).
  induction ops as [|o ops IH]; simpl.
  - apply keeps_ret.
  - apply keeps_bind; [apply keeps_run_op | intros _; exact IH].
Qed.

End Fingerprints_kept_by_methods.

(** ** Runs without database faults *)

Section Quiet_runs.
Context `{E : Env}.

Lemma bind_ok {A B} (m : M A) (k : A -> M B) w a w1 :
  m w = (Ok a, w1) -> bind m k w = k a w1.
Proof. intros H. unfold bind. by rewrite H. Qed.

Lemma bind_raise {A B} (m : M A) (k : A -> M B) w e w1 :
  m w = (Raise e, w1) -> bind m k w = (Raise e, w1).
Proof. intros H. unfold bind. by rewrite H. Qed.

Lemma bind_Ok_inv {A B} (m : M A) (k : A -> M B) w b w' :
  bind m k w = (Ok b, w') -> exists a w1, m w = (Ok a, w1) /\ k a w1 = (Ok b, w').
Proof.
  unfold bind. destruct (m w) as [[a | e |] w1]; try discriminate.
  intros H. by exists a, w1.
Qed.

Lemma except_db_ok {A} (m : M A) h w a w1 :
  m w = (Ok a, w1) -> except_db m h w = (Ok a, w1).
Proof. intros H. unfold except_db. by rewrite H. Qed.

Lemma except_db_caught {A} (m : M A) h w msg w1 :
  m w = (Raise (DbError msg), w1) -> except_db m h w = h msg w1.
Proof. intros H. unfold except_db. by rewrite H. Qed.

Lemma execute_quiet q w : faults w = [] -> execute q w = run q w.
Proof. intros H. unfold execute. by rewrite H. Qed.

Lemma mark_row_idemp u r : mark_row u (mark_row u r) = mark_row u r.
Proof.
  unfold mark_row. destruct (has_url u r) eqn:H; [| by rewrite H].
  unfold has_url in *. simpl. by rewrite H.
Qed.

Lemma db_mark_idemp u s : db_mark u (db_mark u s) = db_mark u s.
Proof.
  unfold db_mark, with_targets. simpl. f_equal.
  rewrite <- list_fmap_compose. apply list_fmap_ext. intros _ r _. apply mark_row_idemp.
Qed.

Lemma Target_init_quiet u w :
  exists w', Target_init u w = (Ok (target_of u), w') /\
    db w' = db w /\ faults w' = faults w /\ cursor w' = cursor w.
Proof.
  unfold Target_init, target_of.
  destruct (hostname (urlparse u)) as [name|]; [destruct (gethostbyname name) |];
    eexists; (split; [reflexivity | done]).
Qed.

Lemma mark_scanned_from_quiet n u w :
  faults w = [] ->
  exists w', mark_scanned_from (S n) u w = (Ok tt, w') /\
    db w' = Nat.iter (S n) (db_mark u) (db w) /\ faults w' = [] /\ cursor w' = [].
Proof.
  revert w. induction n as [|n IH]; intros w Hw.
  - eexists. split; [| split; [| split]].
    + simpl. erewrite bind_ok; [reflexivity |].
      apply except_db_ok. rewrite execute_quiet by done. reflexivity.
    + reflexivity.
    + done.
    + done.
  - set (w1 := with_rng (rng w) (with_cursor [] (with_db (db_mark u (db w)) w))).
    destruct (IH w1 Hw) as (w' & Hrun & Hdb & Hf & Hc).
    exists w'. split; [| split; [| split]]; [| | done | done].
    + change (mark_scanned_from (S (S n)) u) with
        (except_db (execute (UpdateScanned u))
           (fun msg =>
              if connection_lost msg then
                logging WARNING ("Failed to mark target as scanned (retrying) - " +:+ msg) ;;
                connect
              else
                logging ERROR ("Failed to mark target as scanned - " +:+ msg) ;;
                sys_exit 1) ;;
         mark_scanned_from (S n) u).
      erewrite bind_ok; [exact Hrun |].
      apply except_db_ok. rewrite execute_quiet by done. reflexivity.
    + rewrite Hdb. subst w1. simpl. by rewrite Nat.iter_swap.
Qed.

Lemma mark_scanned_quiet u w :
  faults w = [] ->
  exists w', mark_scanned u w = (Ok tt, w') /\
    db w' = db_mark u (db w) /\ faults w' = [] /\ cursor w' = [].
Proof.
  intros Hw. destruct (mark_scanned_from_quiet 2 u w Hw) as (w' & Hrun & Hdb & Hf & Hc).
  exists w'. repeat split; try done.
  rewrite Hdb. simpl. by rewrite !db_mark_idemp.
Qed.

(** Without faults the first iteration of the lookup loop succeeds, and it
    leaves the cursor on the result of the lookup, one row already taken. *)
Lemma get_scanned_quiet f w :
  faults w = [] ->
  exists w', get_scanned f w =
      (Ok (if bool_decide (f ∈ fingerprints (db w)) then Some f else None), w') /\
    db w' = db w /\ faults w' = [] /\ cursor w' = [].
Proof.
  intros Hw. unfold get_scanned. simpl.
  unfold bind at 1. unfold bind at 1. unfold except_db, bind.
  rewrite execute_quiet by done. unfold run. simpl.
  destruct (bool_decide (f ∈ fingerprints (db w))); simpl;
    eexists; (split; [reflexivity | done]).
Qed.

Lemma delete_target_quiet u w :
  faults w = [] ->
  exists w', delete_target u w = (Ok tt, w') /\
    db w' = db_delete u (db w) /\ faults w' = [].
Proof.
  intros Hw. unfold delete_target, except_db, bind. simpl.
  rewrite execute_quiet by done. eexists. split; [reflexivity | done].
Qed.

Lemma truthy_found (f : string) (b : bool) :
  f <> EmptyString -> truthy (if b then Some f else None) = b.
Proof.
  intros Hf. destruct b; simpl; [| done].
  by rewrite bool_decide_eq_false_2.
Qed.

Lemma fingerprint_nonempty u : generate_fingerprint u <> EmptyString.
Proof. apply md5_hexdigest_nonempty. Qed.

End Quiet_runs.

(** ** Claiming the next target *)

(** Runs the head of a [bind] whose outcome is known. *)
Tactic Notation "step" tactic3(tac) := erewrite bind_ok; [| tac]; cbv beta iota.

Section Claim.
Context `{E : Env}.

Lemma get_next_target_loop_unfold fuel self :
  get_next_target_loop (S fuel) self =
  (r <- fetchone ;;
   match r with
   | None => ret None
   | Some r =>
       u <- column0 r ;;
       target <- Target_init u ;;
       let fingerprint := generate_fingerprint u in
       mark_scanned u ;;
       found <- get_scanned fingerprint ;;
       if truthy found then
         logging DEBUG ("Skipping (matches fingerprint of previous scan): " +:+ url target) ;;
         get_next_target_loop fuel self
       else
         execute (InsertFingerprint (insert self) fingerprint) ;;
         ret (Some target)
   end).
Proof. reflexivity. Qed.

(** One candidate on the cursor: it is marked, looked up, and the loop ends
    either way. After a hit the next [fetchone] reads the cursor the lookup
    left behind, which is empty, so the rows that were still pending are
    never seen. *)
Lemma get_next_target_loop_quiet fuel self w u rest :
  faults w = [] -> cursor w = [Some u] :: rest ->
  let f := generate_fingerprint u in
  exists w', get_next_target_loop (S (S fuel)) self w =
      (Ok (if bool_decide (f ∈ fingerprints (db w)) then None else Some (target_of u)), w') /\
    db w' = db_claim u f (db w) /\ faults w' = [].
Proof.
  intros Hw Hc f. rewrite get_next_target_loop_unfold.
  step (unfold fetchone; rewrite Hc; reflexivity).
  step reflexivity.
  destruct (Target_init_quiet u (with_cursor rest w)) as (w1 & H1 & Hdb1 & Hf1 & _).
  step (exact H1). cbv zeta.
  assert (Hw1 : faults w1 = []) by (rewrite Hf1; exact Hw).
  destruct (mark_scanned_quiet u w1 Hw1) as (w2 & H2 & Hdb2 & Hf2 & _).
  step (exact H2).
  destruct (get_scanned_quiet (generate_fingerprint u) w2 Hf2) as (w3 & H3 & Hdb3 & Hf3 & Hc3).
  step (exact H3).
  rewrite truthy_found by apply fingerprint_nonempty.
  assert (Hfp : fingerprints (db w2) = fingerprints (db w)).
  { rewrite Hdb2, Hdb1. reflexivity. }
  rewrite Hfp. fold f. unfold db_claim.
  destruct (bool_decide (f ∈ fingerprints (db w))) eqn:Hin; cbv beta iota.
  - step reflexivity.
    rewrite get_next_target_loop_unfold.
    step (unfold fetchone; simpl; rewrite Hc3; reflexivity).
    eexists. split; [reflexivity |]. simpl. rewrite Hdb3, Hdb2, Hdb1. done.
  - assert (Hins : exists w4,
        execute (InsertFingerprint (insert self) f) w3 = (Ok tt, w4) /\
        db w4 = with_fingerprints ({[ f ]} ∪ fingerprints (db w)) (db_mark u (db w)) /\
        faults w4 = []).
    { rewrite execute_quiet by done. unfold run. simpl.
      rewrite Hdb3, Hfp, Hin.
      replace (insert_key_ok (insert self) false) with true by (by destruct (insert self)).
      eexists. split; [reflexivity |]. simpl. rewrite Hdb2, Hdb1. done. }
    destruct Hins as (w4 & H4 & Hdb4 & Hf4).
    step (exact H4). eexists. split; [reflexivity | done].
Qed.

Lemma get_next_target_quiet fuel self random w u rest :
  faults w = [] -> (2 <= fuel)%nat -> selected random w = [Some u] :: rest ->
  let f := generate_fingerprint u in
  exists w', get_next_target fuel self random w =
      (Ok (if bool_decide (f ∈ fingerprints (db w)) then None else Some (target_of u)), w') /\
    db w' = db_claim u f (db w) /\ faults w' = [].
Proof.
  intros Hw Hfuel Hsel f.
  destruct fuel as [|[|fuel]]; [lia | lia |].
  set (w1 := with_rng (if random then S (rng w) else rng w)
               (with_cursor (selected random w) (with_cursor [] w))).
  destruct (get_next_target_loop_quiet fuel self w1 u rest) as (w' & Hrun & Hdb & Hf);
    [done | subst w1; simpl; exact Hsel |].
  exists w'. split; [| split; [exact Hdb | exact Hf]].
  unfold get_next_target.
  assert (Hexec : execute (SelectUnscanned random) (with_cursor [] w) = (Ok tt, w1)).
  { rewrite execute_quiet by done. unfold run, selected, w1. simpl.
    destruct random; reflexivity. }
  apply except_db_ok.
  step reflexivity.
  step (exact Hexec).
  exact Hrun.
Qed.

(** With nothing left unscanned the result is none and the store is as it
    was. *)
Lemma get_next_target_none fuel self random w :
  faults w = [] -> (1 <= fuel)%nat -> selected random w = [] ->
  exists w', get_next_target fuel self random w = (Ok None, w') /\
    db w' = db w /\ faults w' = [].
Proof.
  intros Hw Hfuel Hsel. destruct fuel as [|fuel]; [lia |].
  set (w1 := with_rng (if random then S (rng w) else rng w)
               (with_cursor (selected random w) (with_cursor [] w))).
  assert (Hexec : execute (SelectUnscanned random) (with_cursor [] w) = (Ok tt, w1)).
  { rewrite execute_quiet by done. unfold run, selected, w1. simpl.
    destruct random; reflexivity. }
  exists w1. split; [| done].
  unfold get_next_target. apply except_db_ok.
  step reflexivity.
  step (exact Hexec).
  rewrite get_next_target_loop_unfold.
  step (unfold fetchone, w1; simpl; rewrite Hsel; reflexivity).
  unfold w1. rewrite Hsel. reflexivity.
Qed.

Lemma mark_row_other u r : row_url r <> u -> mark_row u r = r.
Proof.
  intros H. unfold mark_row, has_url. by rewrite bool_decide_eq_false_2.
Qed.

(** C2. With two rows unscanned, the first of them a duplicate of a
    recorded fingerprint, [get_next_target] marks the first, finds its
    fingerprint, and returns none: the second row is still unscanned in the
    table and was never examined. *)
Theorem get_next_target_stops_at_duplicate
    (self : TargetDatabase) (fuel : nat) (w : World) (r1 r2 : TargetRow)
    (rest : list TargetRow) :
  faults w = [] -> (2 <= fuel)%nat ->
  filter (fun r => unscanned r) (targets (db w)) = r1 :: r2 :: rest ->
  row_url r2 <> row_url r1 ->
  generate_fingerprint (row_url r1) ∈ fingerprints (db w) ->
  exists w', get_next_target fuel self false w = (Ok None, w') /\
    r2 ∈ targets (db w') /\ unscanned r2 = true.
Proof.
  intros Hw Hfuel Hsel Hne Hin.
  assert (Hr2 : r2 ∈ filter (fun r => unscanned r) (targets (db w))).
  { rewrite Hsel. set_solver. }
  apply list_elem_of_filter in Hr2 as [Hun Hr2].
  destruct (get_next_target_quiet fuel self false w (row_url r1)
              (select_row false <$> r2 :: rest)) as (w' & Hrun & Hdb & _);
    [done | done | unfold selected; rewrite Hsel; reflexivity |].
  rewrite bool_decide_eq_true_2 in Hrun by done.
  exists w'. split; [exact Hrun | split].
  - rewrite Hdb. unfold db_claim. rewrite bool_decide_eq_true_2 by done.
    simpl. apply list_elem_of_fmap. exists r2. split; [| done].
    symmetry. by apply mark_row_other.
  - by destruct (unscanned r2).
Qed.

End Claim.

(** ** The retry loops under connection loss *)

Section Retry.
Context `{E : Env}.

(** An error that is not a lost connection ends the lookup at once with a
    logged error and exit status 1. *)
Lemma get_scanned_fatal f w msg fs :
  faults w = Some msg :: fs -> connection_lost msg = false ->
  exists w', get_scanned f w = (Raise (SystemExit 1), w') /\
    log w' = log w ++ [(ERROR, "Failed to look up fingerprint - " +:+ msg)] /\
    connects w' = connects w.
Proof.
  intros Hw Hmsg. unfold get_scanned. simpl.
  unfold bind at 1. unfold bind at 1. unfold except_db, bind at 1, execute.
  rewrite Hw, Hmsg. eexists. split; [reflexivity | done].
Qed.

Lemma mark_scanned_fatal u w msg fs :
  faults w = Some msg :: fs -> connection_lost msg = false ->
  exists w', mark_scanned u w = (Raise (SystemExit 1), w') /\
    log w' = log w ++ [(ERROR, "Failed to mark target as scanned - " +:+ msg)] /\
    connects w' = connects w.
Proof.
  intros Hw Hmsg. unfold mark_scanned. simpl.
  unfold bind at 1. unfold except_db, execute.
  rewrite Hw, Hmsg. eexists. split; [reflexivity | done].
Qed.

(** One lost connection, then the lookup goes through: one warning, one
    reconnect, and the answer of the second attempt. *)
Lemma get_scanned_retry_once f w msg fs :
  faults w = Some msg :: fs -> head fs = Some None \/ fs = [] ->
  connection_lost msg = true ->
  exists w', get_scanned f w =
      (Ok (if bool_decide (f ∈ fingerprints (db w)) then Some f else None), w') /\
    log w' = log w ++ [lookup_retry_warning msg] /\
    connects w' = S (connects w) /\ db w' = db w.
Proof.
  intros Hw Hfs Hmsg. unfold get_scanned. simpl.
  unfold bind at 1. unfold bind at 1. unfold except_db at 1, bind at 1, execute at 1.
  rewrite Hw, Hmsg. simpl.
  unfold bind at 1. unfold except_db, bind at 1, execute. simpl.
  destruct Hfs as [Hfs | ->].
  - destruct fs as [|[m|] fs']; simpl in Hfs; try discriminate.
    unfold run. simpl.
    destruct (bool_decide (f ∈ fingerprints (db w))); simpl;
      eexists; (split; [reflexivity | done]).
  - unfold run. simpl.
    destruct (bool_decide (f ∈ fingerprints (db w))); simpl;
      eexists; (split; [reflexivity | done]).
Qed.

(** C5. Three lost connections in a row: the lookup reconnects three times,
    logs three warnings and then reads its local [row], which no attempt
    assigned, so it ends in [UnboundLocalError] instead of a logged exit;
    the flag write reconnects three times, logs three warnings and returns
    as if it had succeeded, the row not marked. *)
Theorem retries_exhausted (f u : string) (w : World) (m1 m2 m3 : string)
    (fs : list (option string)) :
  faults w = Some m1 :: Some m2 :: Some m3 :: fs ->
  connection_lost m1 = true -> connection_lost m2 = true -> connection_lost m3 = true ->
  (exists w', get_scanned f w = (Raise (UnboundLocalError "row"), w') /\
     log w' = log w ++ [lookup_retry_warning m1; lookup_retry_warning m2;
                        lookup_retry_warning m3] /\
     connects w' = (3 + connects w)%nat /\ db w' = db w) /\
  (exists w', mark_scanned u w = (Ok tt, w') /\
     log w' = log w ++ [mark_retry_warning m1; mark_retry_warning m2;
                        mark_retry_warning m3] /\
     connects w' = (3 + connects w)%nat /\ db w' = db w).
Proof.
  intros Hw H1 H2 H3. split.
  - unfold get_scanned. simpl.
    unfold bind at 1. unfold bind at 1. unfold except_db at 1, bind at 1, execute at 1.
    rewrite Hw, H1. simpl.
    unfold bind at 1. unfold except_db at 1, bind at 1, execute at 1. simpl.
    rewrite H2. simpl.
    unfold bind at 1. unfold except_db at 1, bind at 1, execute at 1. simpl.
    rewrite H3. simpl.
    eexists. split; [reflexivity |]. simpl.
    rewrite <- !app_assoc. done.
  - unfold mark_scanned. simpl.
    unfold bind at 1. unfold except_db at 1, execute at 1.
    rewrite Hw, H1. simpl.
    unfold bind at 1. unfold except_db at 1, execute at 1. simpl.
    rewrite H2. simpl.
    unfold bind at 1. unfold except_db at 1, execute at 1. simpl.
    rewrite H3. simpl.
    eexists. split; [reflexivity |]. simpl.
    rewrite <- !app_assoc. done.
Qed.

End Retry.

(** ** Matching a target against a blocklist *)

Section Matching.
Context `{E : Env}.

Lemma ip_loop_attr nets target o :
  ip target = Attr o ->
  ip_loop nets target =
  Ok (match o with Some a => existsb (ip_in_network a) nets | None => false end).
Proof.
  intros Hip. induction nets as [|n nets IH]; simpl.
  - by destruct o.
  - rewrite Hip. destruct o as [a|]; [| exact IH].
    destruct (ip_in_network a n); [done | exact IH].
Qed.

(** Where [__init__] assigned [self.ip] (an address, or [None] after
    [gaierror]), [match] is the disjunction of the three tests. *)
Lemma match_three_tests self target o :
  ip target = Attr o ->
  Blocklist_match self target =
  Ok (regex_test self target || host_test self target || ip_test self target).
Proof.
  intros Hip. unfold Blocklist_match, ip_test.
  destruct (regex_test self target); [done |].
  destruct (host_test self target); [done |].
  rewrite (ip_loop_attr _ _ o Hip), Hip. by destruct o.
Qed.

Lemma ip_loop_unset nets target :
  ip target = Unset -> nets <> [] -> ip_loop nets target = Raise (AttributeError "ip").
Proof. intros Hip Hne. destruct nets; [done |]. simpl. by rewrite Hip. Qed.

Lemma target_of_unset u :
  hostname (urlparse u) = None \/
  (exists name, hostname (urlparse u) = Some name /\ gethostbyname name = OtherFailure) ->
  ip (target_of u) = Unset.
Proof.
  unfold target_of. simpl. intros [-> | (name & -> & ->)]; reflexivity.
Qed.

(** C4. A URL whose host is missing, or whose resolution fails with
    anything but [gaierror], gives a target without an [ip] attribute; on
    that target [match] raises [AttributeError] as soon as the regex and host
    tests are false and [ip_set] has a network. *)
Theorem match_raises_without_ip (self : Blocklist) (u : string) (w : World) :
  hostname (urlparse u) = None \/
  (exists name, hostname (urlparse u) = Some name /\ gethostbyname name = OtherFailure) ->
  regex_test self (target_of u) = false ->
  host_test self (target_of u) = false ->
  ip_set self <> ∅ ->
  exists w', Target_init u w = (Ok (target_of u), w') /\
    Blocklist_match self (target_of u) = Raise (AttributeError "ip").
Proof.
  intros Hres Hre Hhost Hne.
  destruct (Target_init_quiet u w) as (w' & Hinit & _).
  exists w'. split; [exact Hinit |].
  unfold Blocklist_match. rewrite Hre, Hhost.
  apply ip_loop_unset; [by apply target_of_unset |].
  intros Hnil. apply Hne. by apply elements_empty_inv, leibniz_equiv in Hnil.
Qed.

End Matching.

(** ** Loading and extending a blocklist *)

Section Parsing.
Context `{E : Env}.

Lemma parse_items_unfold item rest ip_net self :
  parse_items (item :: rest) ip_net self =
  (if PyStr.startswith "ip:" item then
     a <- item_arg item ;;
     ip_net' <- match ip_network a with
                | Parsed n => ret (Some n)
                | ValueError msg =>
                    logging ERROR ("Could not parse blocklist item as ip - " +:+ msg) ;;
                    ret ip_net
                end ;;
     match ip_net' with
     | Some n => parse_items rest ip_net' (add_ip n self)
     | None => raise (UnboundLocalError "ip_net")
     end
   else if PyStr.startswith "host:" item then
     h <- item_arg item ;;
     parse_items rest ip_net (add_host h self)
   else if PyStr.startswith "regex:" item then
     p <- item_arg item ;;
     parse_items rest ip_net (add_regex p self)
   else
     logging WARNING ("Could not parse blocklist item - " +:+ item) ;;
     parse_items rest ip_net self).
Proof. reflexivity. Qed.

Lemma item_arg_eq item pre a more w :
  PyStr.split ":"%char item = pre :: a :: more -> item_arg item w = (Ok a, w).
Proof. intros H. unfold item_arg. by rewrite H. Qed.

(** An item with no known prefix: a warning, and the loop goes on with the
    sets as they were. *)
Lemma parse_items_unrecognised item rest ip_net self w :
  recognised item = false ->
  parse_items (item :: rest) ip_net self w =
  parse_items rest ip_net self
    (with_log (log w ++ [(WARNING, "Could not parse blocklist item - " +:+ item)]) w).
Proof.
  unfold recognised. intros H.
  apply orb_false_elim in H as [H Hregex]. apply orb_false_elim in H as [Hip Hhost].
  rewrite parse_items_unfold, Hip, Hhost, Hregex. reflexivity.
Qed.

(** The same item given to [add]: a logged error and exit status 1. *)
Lemma add_unrecognised self item w :
  recognised item = false ->
  exists w', Blocklist_add self item w = (Raise (SystemExit 1), w') /\
    log w' = log w ++ [(ERROR, "Could not parse blocklist item - " +:+ item)] /\
    db w' = db w.
Proof.
  unfold recognised. intros H.
  apply orb_false_elim in H as [H Hregex]. apply orb_false_elim in H as [Hip Hhost].
  unfold Blocklist_add. rewrite Hip, Hhost, Hregex.
  eexists. split; [reflexivity | done].
Qed.

(** A malformed address given to [add]: a logged error and exit status 1. *)
Lemma add_malformed_ip self item pre a more msg w :
  PyStr.startswith "ip:" item = true ->
  PyStr.split ":"%char item = pre :: a :: more ->
  ip_network a = ValueError msg ->
  exists w', Blocklist_add self item w = (Raise (SystemExit 1), w') /\
    log w' = log w ++ [(ERROR, "Could not parse blocklist item as ip - " +:+ msg)] /\
    db w' = db w.
Proof.
  intros Hip Hsplit Hnet.
  unfold Blocklist_add. rewrite Hip.
  step reflexivity.
  eexists. split.
  - apply bind_raise. step (eapply item_arg_eq; eassumption).
    rewrite Hnet. reflexivity.
  - done.
Qed.

(** A malformed address after one that parsed: no exception, the error is
    logged and the network of the earlier item is added once more. *)
Lemma parse_items_stale_ip item pre a more msg rest n self w :
  PyStr.startswith "ip:" item = true ->
  PyStr.split ":"%char item = pre :: a :: more ->
  ip_network a = ValueError msg ->
  parse_items (item :: rest) (Some n) self w =
  parse_items rest (Some n) (add_ip n self)
    (with_log (log w ++ [(ERROR, "Could not parse blocklist item as ip - " +:+ msg)]) w).
Proof.
  intros Hip Hsplit Hnet.
  rewrite parse_items_unfold, Hip. step (eapply item_arg_eq; eassumption).
  rewrite Hnet. reflexivity.
Qed.

(** C6. [parse_list] on a list whose first address item is malformed: the
    error is logged, and then the loop body reads the local [ip_net] that
    nothing assigned, so [UnboundLocalError] escapes from the bulk load. *)
Theorem parse_list_malformed_ip_raises (self : Blocklist) (item pre a : string)
    (more rest : list string) (msg : string) (w : World) :
  PyStr.startswith "ip:" item = true ->
  PyStr.split ":"%char item = pre :: a :: more ->
  ip_network a = ValueError msg ->
  parse_list self (item :: rest) w =
  (Raise (UnboundLocalError "ip_net"),
   with_log (log w ++ [(ERROR, "Could not parse blocklist item as ip - " +:+ msg)]) w).
Proof.
  intros Hip Hsplit Hnet. unfold parse_list.
  apply bind_raise.
  rewrite parse_items_unfold, Hip. step (eapply item_arg_eq; eassumption).
  rewrite Hnet. reflexivity.
Qed.

End Parsing.

(** ** Flushing *)

Section Flush.
Context `{E : Env}.

Lemma unscanned_reset r : unscanned (set_scanned 0 r) = true.
Proof. reflexivity. Qed.

(** C7. [flush_fingerprints] empties the fingerprint table and sets every
    target's flag to 0, so that every target is again among the rows
    [get_next_target] selects; [flush_targets] empties the target table and
    leaves the fingerprint table as it was. *)
Theorem flush_semantics (w : World) :
  faults w = [] ->
  (exists w', flush_fingerprints w = (Ok tt, w') /\
     fingerprints (db w') = ∅ /\
     targets (db w') = set_scanned 0 <$> targets (db w) /\
     filter (fun r => unscanned r) (targets (db w')) = targets (db w') /\
     row_url <$> targets (db w') = row_url <$> targets (db w)) /\
  (exists w', flush_targets w = (Ok tt, w') /\
     targets (db w') = [] /\
     fingerprints (db w') = fingerprints (db w)).
Proof.
  intros Hw. split.
  - unfold flush_fingerprints.
    step reflexivity.
    eexists. split; [| split; [| split; [| split]]].
    + apply except_db_ok.
      step reflexivity.
      step (rewrite execute_quiet by done; reflexivity).
      rewrite execute_quiet by done. reflexivity.
    + reflexivity.
    + reflexivity.
    + simpl. induction (targets (db w)) as [|r ts IH]; [done |].
      rewrite fmap_cons, filter_cons_True by (by rewrite unscanned_reset).
      by rewrite IH.
    + simpl. rewrite <- list_fmap_compose. by apply list_fmap_ext.
  - unfold flush_targets.
    step reflexivity.
    eexists. split.
    + apply except_db_ok.
      step reflexivity.
      rewrite execute_quiet by done. reflexivity.
    + done.
Qed.

End Flush.

(** ** Listing targets *)

Section Listing.
Context `{E : Env}.

Lemma join_rows_plain (rows : list TargetRow) :
  join_rows (select_row false <$> rows) = Ok (row_url <$> rows).
Proof.
  induction rows as [|r rows IH]; [done |].
  rewrite fmap_cons. simpl. rewrite IH. reflexivity.
Qed.

Lemma join_row_labelled (r : TargetRow) :
  is_Some (row_source r) -> join_row (select_row true r) = Ok (with_label r).
Proof. intros [s Hs]. unfold join_row, with_label. simpl. by rewrite Hs. Qed.

Lemma join_row_null (r : TargetRow) :
  row_source r = None -> join_row (select_row true r) = Raise TypeError.
Proof. intros Hs. unfold join_row. simpl. by rewrite Hs. Qed.

Lemma join_rows_labelled (rows : list TargetRow) :
  Forall (fun r => is_Some (row_source r)) rows ->
  join_rows (select_row true <$> rows) = Ok (with_label <$> rows).
Proof.
  induction 1 as [|r rows Hr _ IH]; [done |].
  rewrite fmap_cons. cbn [join_rows]. rewrite (join_row_labelled r Hr), IH. reflexivity.
Qed.

Lemma join_rows_null (rows : list TargetRow) :
  Exists (fun r => row_source r = None) rows ->
  join_rows (select_row true <$> rows) = Raise TypeError.
Proof.
  induction 1 as [r rows Hr | r rows _ IH]; rewrite fmap_cons; cbn [join_rows].
  - by rewrite (join_row_null r Hr).
  - rewrite IH. destruct (row_source r) as [s|] eqn:Hs.
    + rewrite join_row_labelled by (by rewrite Hs). reflexivity.
    + by rewrite join_row_null.
Qed.

Lemma get_urls_quiet uo source rz w :
  faults w = [] ->
  let rows := filter (fun r => select_where uo (source_filter source) r) (targets (db w)) in
  exists w', get_urls uo source rz w =
      (match join_rows (select_row (wants_source source) <$> rows) with
       | Ok l => Ok (if rz then shuffle string (rng w) l else l)
       | Raise e => Raise e
       | Diverge => Diverge
       end, w') /\
    db w' = db w /\ faults w' = [].
Proof.
  intros Hw rows. unfold get_urls.
  fold (wants_source source). fold (source_filter source).
  set (q := SelectTargets (wants_source source) uo (source_filter source)).
  set (w1 := with_rng (rng w)
               (with_cursor (select_row (wants_source source) <$> rows) (with_db (db w) (with_cursor [] w)))).
  assert (Hexec : execute q (with_cursor [] w) = (Ok tt, w1)).
  { rewrite execute_quiet by done. reflexivity. }
  destruct (join_rows (select_row (wants_source source) <$> rows)) as [l | e |] eqn:Hjoin.
  - step (apply except_db_ok; step reflexivity; step (exact Hexec);
          step reflexivity; unfold lift; simpl; rewrite Hjoin; reflexivity).
    destruct rz; eexists; (split; [reflexivity | done]).
  - eexists. split.
    + apply bind_raise.
      assert (Hbody : (new_cursor ;; execute q ;; rows0 <- fetchall ;; lift (join_rows rows0)) w
                      = (Raise e, with_cursor [] w1)).
      { step reflexivity. step (exact Hexec). step reflexivity.
        unfold lift. simpl. rewrite Hjoin. reflexivity. }
      unfold except_db. rewrite Hbody.
      assert (He : e = TypeError).
      { clear -Hjoin. revert Hjoin. generalize (select_row (wants_source source) <$> rows).
        intros rs. induction rs as [|r rs IH]; simpl; [done |].
        unfold join_row. destruct (all_text r); [| congruence].
        destruct (join_rows rs); [done | | done]. intros [= <-]. by apply IH. }
      subst e. reflexivity.
    + done.
  - exfalso. clear -Hjoin. revert Hjoin.
    generalize (select_row (wants_source source) <$> rows).
    intros rs. induction rs as [|r rs IH]; simpl; [done |].
    unfold join_row. destruct (all_text r); [| done].
    destruct (join_rows rs); [done | done |]. intros _. by apply IH.
Qed.

(** C10. With [source=True] every listed element is the URL and the label
    joined by [" | "], and one selected row without a label makes the call
    raise [TypeError] instead of returning; with [source=False] or a label
    to filter on, the elements are the bare URLs of the selected rows. *)
Theorem get_urls_source_flag (uo rz : bool) (w : World) :
  faults w = [] ->
  let order := fun l : list string => if rz then shuffle string (rng w) l else l in
  let rows := filter (fun r => select_where uo None r) (targets (db w)) in
  (Forall (fun r => is_Some (row_source r)) rows ->
     (get_urls uo (SrcBool true) rz w).1 = Ok (order (with_label <$> rows))) /\
  (Exists (fun r => row_source r = None) rows ->
     (get_urls uo (SrcBool true) rz w).1 = Raise TypeError) /\
  (get_urls uo (SrcBool false) rz w).1 = Ok (order (row_url <$> rows)) /\
  (forall s, s <> EmptyString ->
     (get_urls uo (SrcStr s) rz w).1 =
     Ok (order (row_url <$>
                  filter (fun r => select_where uo (Some s) r) (targets (db w))))).
Proof.
  intros Hw order rows. repeat split.
  - intros Hall.
    destruct (get_urls_quiet uo (SrcBool true) rz w Hw) as (w' & -> & _).
    cbn [wants_source source_filter fst]. fold rows.
    by rewrite (join_rows_labelled rows Hall).
  - intros Hnull.
    destruct (get_urls_quiet uo (SrcBool true) rz w Hw) as (w' & -> & _).
    cbn [wants_source source_filter fst]. fold rows.
    by rewrite (join_rows_null rows Hnull).
  - destruct (get_urls_quiet uo (SrcBool false) rz w Hw) as (w' & -> & _).
    cbn [wants_source source_filter fst]. fold rows.
    by rewrite join_rows_plain.
  - intros s Hs.
    destruct (get_urls_quiet uo (SrcStr s) rz w Hw) as (w' & -> & _).
    cbn [wants_source source_filter fst]. rewrite decide_False by done.
    by rewrite join_rows_plain.
Qed.

End Listing.

(** ** Adding targets *)

Section Adding.
Context `{E : Env}.

Lemma init_driver_syntax d :
  driver_syntax (insert (TargetDatabase_init d)) (conflict (TargetDatabase_init d)).
Proof.
  unfold TargetDatabase_init, driver_syntax.
  destruct (PyStr.startswith "postgresql://" d); [done |].
  destruct (PyStr.startswith "phoenixdb://" d); simpl; discriminate.
Qed.

Lemma lookup_url_nil u : lookup_url u [] = None.
Proof. reflexivity. Qed.

Lemma lookup_url_cons u r ts :
  lookup_url u (r :: ts) = if has_url u r then Some r else lookup_url u ts.
Proof. reflexivity. Qed.

Lemma has_url_true u r : has_url u r = true <-> row_url r = u.
Proof. unfold has_url. apply bool_decide_eq_true. Qed.

Lemma has_url_false u r : has_url u r = false <-> row_url r <> u.
Proof. unfold has_url. apply bool_decide_eq_false. Qed.

Lemma lookup_url_Some u ts r :
  lookup_url u ts = Some r -> r ∈ ts /\ row_url r = u.
Proof.
  induction ts as [|r0 ts IH]; [done |].
  rewrite lookup_url_cons. destruct (has_url u r0) eqn:H.
  - intros [= <-]. split; [left | by apply has_url_true].
  - intros Hl. destruct (IH Hl). split; [by right | done].
Qed.

Lemma lookup_url_None u ts :
  lookup_url u ts = None <-> u ∉ (row_url <$> ts).
Proof.
  induction ts as [|r ts IH]; [split; [intros _; apply not_elem_of_nil | done] |].
  rewrite lookup_url_cons, fmap_cons, not_elem_of_cons.
  destruct (has_url u r) eqn:H.
  - apply has_url_true in H. split; [done | intros [? _]; congruence].
  - apply has_url_false in H. rewrite IH. split; [intros ?; split; congruence | tauto].
Qed.

Lemma existsb_has_url u ts :
  existsb (has_url u) ts = match lookup_url u ts with Some _ => true | None => false end.
Proof.
  induction ts as [|r ts IH]; [done |].
  rewrite lookup_url_cons. simpl. destruct (has_url u r); [done | exact IH].
Qed.

Lemma lookup_url_app u ts1 ts2 :
  lookup_url u (ts1 ++ ts2) =
  match lookup_url u ts1 with Some r => Some r | None => lookup_url u ts2 end.
Proof.
  induction ts1 as [|r ts1 IH]; [done |].
  rewrite <- app_comm_cons, !lookup_url_cons. destruct (has_url u r); [done | exact IH].
Qed.

(** A rewriting of the rows that leaves the keys alone commutes with the
    lookup. *)
Lemma lookup_url_fmap (f : TargetRow -> TargetRow) u ts :
  (forall r, row_url (f r) = row_url r) ->
  lookup_url u (f <$> ts) = f <$> lookup_url u ts.
Proof.
  intros Hf. induction ts as [|r ts IH]; [done |].
  rewrite fmap_cons, !lookup_url_cons.
  assert (Hh : has_url u (f r) = has_url u r) by (unfold has_url; by rewrite Hf).
  rewrite Hh. destruct (has_url u r); [done | exact IH].
Qed.

Lemma lookup_url_filter_ne u v ts :
  v <> u -> lookup_url v (filter (fun r => row_url r <> u) ts) = lookup_url v ts.
Proof.
  intros Hne. induction ts as [|r ts IH]; [done |].
  rewrite lookup_url_cons. destruct (decide (row_url r = u)) as [Hr | Hr].
  - rewrite filter_cons_False by tauto.
    replace (has_url v r) with false; [exact IH |].
    symmetry. apply has_url_false. congruence.
  - rewrite filter_cons_True by done. rewrite lookup_url_cons.
    destruct (has_url v r); [done | exact IH].
Qed.

Lemma lookup_url_filter_eq u ts :
  lookup_url u (filter (fun r => row_url r <> u) ts) = None.
Proof.
  apply lookup_url_None. intros Hin.
  apply list_elem_of_fmap in Hin as (r & Hu & Hr).
  apply list_elem_of_filter in Hr as [Hne _]. congruence.
Qed.

Lemma NoDup_urls_filter (P : TargetRow -> Prop) `{!forall r, Decision (P r)} ts :
  NoDup (row_url <$> ts) -> NoDup (row_url <$> filter P ts).
Proof.
  intros Hnd. eapply sublist_NoDup; [exact Hnd |].
  apply fmap_sublist, sublist_filter.
Qed.

Lemma NoDup_urls_snoc ts r :
  NoDup (row_url <$> ts) -> row_url r ∉ (row_url <$> ts) ->
  NoDup (row_url <$> (ts ++ [r])).
Proof.
  intros Hnd Hr. rewrite fmap_app. apply NoDup_app. split; [done |]. split.
  - intros x Hx Hx'. apply list_elem_of_singleton in Hx'. by subst.
  - apply NoDup_singleton.
Qed.

Lemma lookup_url_new u s : lookup_url u [new_row u s] = Some (new_row u s).
Proof.
  rewrite lookup_url_cons.
  replace (has_url u (new_row u s)) with true; [done |].
  symmetry. by apply has_url_true.
Qed.

Lemma lookup_url_new_ne u v s : v <> u -> lookup_url v [new_row u s] = None.
Proof.
  intros Hne. rewrite lookup_url_cons.
  replace (has_url v (new_row u s)) with false; [done |].
  symmetry. apply has_url_false. simpl. congruence.
Qed.

(** What the insert statement does to the row of its key, to the other
    rows, and to the uniqueness of keys. *)
Lemma insert_target_spec ins conf u s ts :
  driver_syntax ins conf ->
  insert_target ins conf u s ts = Some (upsert ins conf s ts u) /\
  lookup_url u (upsert ins conf s ts u) = Some (after_insert ins u s (lookup_url u ts)) /\
  (forall v, v <> u -> lookup_url v (upsert ins conf s ts u) = lookup_url v ts) /\
  (NoDup (row_url <$> ts) -> NoDup (row_url <$> upsert ins conf s ts u)).
Proof.
  intros Hsyn. unfold upsert, insert_target. rewrite existsb_has_url.
  destruct (lookup_url u ts) as [r|] eqn:Hl.
  - destruct (lookup_url_Some _ _ _ Hl) as [Hin Hu].
    destruct ins.
    + simpl. repeat split.
      * by rewrite lookup_url_app, lookup_url_filter_eq, lookup_url_new.
      * intros v Hv. rewrite lookup_url_app, lookup_url_filter_ne by done.
        rewrite lookup_url_new_ne by done. by destruct (lookup_url v ts).
      * intros Hnd. apply NoDup_urls_snoc; [by apply NoDup_urls_filter |].
        simpl. apply lookup_url_None, lookup_url_filter_eq.
    + rewrite (Hsyn eq_refl). simpl. by rewrite Hl.
    + simpl. repeat split.
      * rewrite lookup_url_fmap by (intros r0; by destruct (has_url u r0)).
        rewrite Hl. simpl. replace (has_url u r) with true; [done |].
        symmetry. by apply has_url_true.
      * intros v Hv.
        rewrite lookup_url_fmap by (intros r0; by destruct (has_url u r0)).
        destruct (lookup_url v ts) as [r0|] eqn:Hl0; [| done]. simpl.
        destruct (lookup_url_Some _ _ _ Hl0) as [_ Hv0].
        replace (has_url u r0) with false; [done |].
        symmetry. apply has_url_false. congruence.
      * intros Hnd. rewrite <- list_fmap_compose.
        erewrite list_fmap_ext; [exact Hnd |].
        intros _ r0 _. simpl. by destruct (has_url u r0).
  - simpl. repeat split.
    + by rewrite lookup_url_app, Hl, lookup_url_new.
    + intros v Hv. rewrite lookup_url_app, lookup_url_new_ne by done.
      by destruct (lookup_url v ts).
    + intros Hnd. apply NoDup_urls_snoc; [done |]. by apply lookup_url_None.
Qed.

Lemma after_insert_idemp ins u s o :
  after_insert ins u s (Some (after_insert ins u s o)) = after_insert ins u s o.
Proof. destruct o as [r|], ins; reflexivity. Qed.



(** [add_target] on a database that answers. *)
Lemma add_target_quiet self u s w :
  faults w = [] -> driver_syntax (insert self) (conflict self) ->
  exists w', add_target self u s w = (Ok tt, w') /\
    db w' = with_targets (upsert (insert self) (conflict self) s (targets (db w)) u) (db w) /\
    faults w' = [].
Proof.
  intros Hw Hsyn.
  destruct (insert_target_spec (insert self) (conflict self) u s (targets (db w)) Hsyn)
    as (Hins & _).
  eexists. split.
  - unfold add_target. apply except_db_ok.
    step reflexivity.
    rewrite execute_quiet by done. unfold run. simpl. rewrite Hins. reflexivity.
  - done.
Qed.

Lemma executemany_quiet ins conf s urls w :
  faults w = [] -> driver_syntax ins conf ->
  exists w', executemany ((fun u => InsertTarget ins conf u s) <$> urls) w = (Ok tt, w') /\
    targets (db w') = foldl (upsert ins conf s) (targets (db w)) urls /\
    fingerprints (db w') = fingerprints (db w) /\
    faults w' = [].
Proof.
  intros Hw Hsyn. revert w Hw. induction urls as [|u urls IH]; intros w Hw.
  - eexists. split; [reflexivity | done].
  - destruct (insert_target_spec ins conf u s (targets (db w)) Hsyn) as (Hins & _).
    set (w1 := with_rng (rng w)
                 (with_cursor [] (with_db (with_targets (upsert ins conf s (targets (db w)) u) (db w)) w))).
    destruct (IH w1 Hw) as (w' & Hrun & Hts & Hfp & Hf).
    exists w'. split; [| done].
    rewrite fmap_cons. cbn [executemany].
    step (rewrite execute_quiet by done; unfold run; simpl; rewrite Hins; reflexivity).
    exact Hrun.
Qed.

Lemma add_targets_quiet self urls s w :
  faults w = [] -> driver_syntax (insert self) (conflict self) ->
  exists w', add_targets self urls s w = (Ok tt, w') /\
    targets (db w') = foldl (upsert (insert self) (conflict self) s) (targets (db w)) urls /\
    fingerprints (db w') = fingerprints (db w) /\
    faults w' = [].
Proof.
  intros Hw Hsyn.
  destruct (executemany_quiet (insert self) (conflict self) s urls (with_cursor [] w) Hw Hsyn)
    as (w' & Hrun & Hrest).
  exists w'. split; [| exact Hrest].
  unfold add_targets. apply except_db_ok. step reflexivity. exact Hrun.
Qed.

(** A batch: every URL of the batch ends with the row one insert gives it,
    the other rows are as before, and keys stay unique. *)
Lemma foldl_upsert_spec ins conf s urls ts :
  driver_syntax ins conf -> NoDup (row_url <$> ts) ->
  NoDup (row_url <$> foldl (upsert ins conf s) ts urls) /\
  (forall v, v ∈ urls ->
     lookup_url v (foldl (upsert ins conf s) ts urls) =
     Some (after_insert ins v s (lookup_url v ts))) /\
  (forall v, v ∉ urls ->
     lookup_url v (foldl (upsert ins conf s) ts urls) = lookup_url v ts).
Proof.
  intros Hsyn. revert ts. induction urls as [|u urls IH]; intros ts Hnd.
  - simpl. split; [done |]. split; [intros v Hv; by apply elem_of_nil in Hv | done].
  - destruct (insert_target_spec ins conf u s ts Hsyn) as (_ & Hu & Hother & Hnd1).
    destruct (IH (upsert ins conf s ts u) (Hnd1 Hnd)) as (Hnd' & Hin & Hout).
    simpl. split; [exact Hnd' |]. split.
    + intros v Hv. destruct (decide (v = u)) as [-> | Hne].
      * destruct (decide (u ∈ urls)) as [Hu' | Hu'].
        -- rewrite (Hin u Hu'), Hu. by rewrite after_insert_idemp.
        -- by rewrite (Hout u Hu'), Hu.
      * apply elem_of_cons in Hv as [? | Hv]; [done |].
        by rewrite (Hin v Hv), (Hother v Hne).
    + intros v Hv. apply not_elem_of_cons in Hv as [Hne Hv].
      by rewrite (Hout v Hv), (Hother v Hne).
Qed.


(** Under [INSERT OR REPLACE] re-adding a scanned target makes a new row,
    with the flag back at 0. *)
Lemma add_target_replace_resets_scanned self u s w r :
  faults w = [] -> insert self = INSERT_OR_REPLACE ->
  lookup_url u (targets (db w)) = Some r ->
  exists w', add_target self u s w = (Ok tt, w') /\
    lookup_url u (targets (db w')) = Some (new_row u s).
Proof.
  intros Hw Hins Hl.
  assert (Hsyn : driver_syntax (insert self) (conflict self))
    by (unfold driver_syntax; rewrite Hins; discriminate).
  destruct (add_target_quiet self u s w Hw Hsyn) as (w' & Hrun & Hdb & _).
  exists w'. split; [exact Hrun |].
  destruct (insert_target_spec (insert self) (conflict self) u s (targets (db w)) Hsyn)
    as (_ & Hl' & _).
  rewrite Hdb. simpl. rewrite Hl', Hl, Hins. reflexivity.
Qed.

End Adding.

(** ** The shape a fingerprint depends on *)

Section Shape.
Context `{E : Env}.

Lemma free_of_cons c a s : free_of c (String a s) <-> a <> c /\ free_of c s.
Proof.
  unfold free_of. simpl. destruct (decide (a = c)); split; intros H.
  - discriminate.
  - by destruct H.
  - done.
  - by destruct H.
Qed.

Lemma free_of_app c s t : free_of c (s +:+ t) <-> free_of c s /\ free_of c t.
Proof.
  induction s as [|a s IH].
  - change (EmptyString +:+ t) with t. split; [by split | by intros []].
  - change (String a s +:+ t) with (String a (s +:+ t)).
    rewrite !free_of_cons, IH. tauto.
Qed.

Lemma split_free c s : free_of c s -> PyStr.split c s = [s].
Proof.
  induction s as [|a s IH]; [done |].
  intros [Ha Hs]%free_of_cons. simpl. rewrite decide_False by done. by rewrite IH.
Qed.

Lemma split_app_sep c s t :
  free_of c s -> PyStr.split c (s +:+ String c t) = s :: PyStr.split c t.
Proof.
  induction s as [|a s IH]; simpl.
  - intros _. by rewrite decide_True.
  - intros [Ha Hs]%free_of_cons. rewrite decide_False by done. by rewrite IH.
Qed.

Lemma split1_app_sep c s t :
  free_of c s -> PyStr.split1 c (s +:+ String c t) = [s; t].
Proof.
  induction s as [|a s IH]; simpl.
  - intros _. by rewrite decide_True.
  - intros [Ha Hs]%free_of_cons. rewrite decide_False by done. by rewrite IH.
Qed.

(** Splitting undoes joining when no part holds the separator. *)
Lemma split_join c l :
  l <> [] -> Forall (free_of c) l ->
  PyStr.split c (PyStr.join (String c EmptyString) l) = l.
Proof.
  intros Hne Hall. induction Hall as [|x l Hx Hl IH]; [done |].
  destruct l as [|y l].
  - simpl. by apply split_free.
  - change (PyStr.join (String c EmptyString) (x :: y :: l))
      with (x +:+ String c (PyStr.join (String c EmptyString) (y :: l))).
    rewrite split_app_sep by done. f_equal. by apply IH.
Qed.

Lemma kept_name_pair n v :
  free_of "="%char n ->
  kept_name (n +:+ "=" +:+ v) = if decide (v = EmptyString) then [] else [n].
Proof.
  intros Hn. unfold kept_name.
  change (n +:+ "=" +:+ v) with (n +:+ String "="%char v).
  by rewrite split1_app_sep.
Qed.

(** The names the fingerprint keeps from a written query: those with a
    value that is not empty. *)
Lemma query_params_encode ps :
  Forall plain_pair ps -> query_params (encode_query ps) = names_with_value ps.
Proof.
  intros Hall. unfold query_params, encode_query.
  destruct ps as [|p ps]; [done |].
  rewrite split_join.
  - clear -Hall. induction Hall as [|q qs [Hq _] _ IH]; [done |].
    rewrite fmap_cons. simpl. rewrite kept_name_pair by done.
    unfold names_with_value in *. rewrite IH.
    destruct (decide (q.2 = EmptyString)) as [Hv | Hv].
    + by rewrite filter_cons_False by (intros ?; done).
    + by rewrite filter_cons_True by done.
  - done.
  - apply Forall_fmap. eapply Forall_impl; [exact Hall |].
    intros q (Hq1 & Hq2 & Hq3). simpl.
    apply free_of_app. split; [done |].
    change ("=" +:+ q.2) with (String "="%char q.2).
    apply free_of_cons. split; [done | done].
Qed.

(** Sorting forgets the order of its input. *)
Lemma sorted_permutation l1 l2 : l1 ≡ₚ l2 -> PyStr.sorted l1 = PyStr.sorted l2.
Proof.
  intros Hp. unfold PyStr.sorted.
  apply (Sorted_unique String.le); try apply Sorted_merge_sort; try apply _.
  by rewrite !merge_sort_Permutation.
Qed.

(** Two strings cut at the first separator: equal wholes have equal
    parts. *)
Lemma app_sep_inj c s1 t1 s2 t2 :
  free_of c s1 -> free_of c s2 ->
  s1 +:+ String c t1 = s2 +:+ String c t2 -> s1 = s2 /\ t1 = t2.
Proof.
  revert s2. induction s1 as [|a s1 IH]; intros [|b s2] H1 H2; simpl.
  - by intros [= ->].
  - intros [= <- _]. by apply free_of_cons in H2 as [? _].
  - intros [= -> _]. by apply free_of_cons in H1 as [? _].
  - intros [= -> H]. apply free_of_cons in H1 as [_ H1]. apply free_of_cons in H2 as [_ H2].
    by destruct (IH s2 H1 H2 H) as [-> ->].
Qed.

Lemma free_of_pretty_N_go c x s :
  (forall d, pretty_N_char d <> c) -> free_of c s -> free_of c (pretty_N_go x s).
Proof.
  intros Hc. revert s. induction (N.lt_wf_0 x) as [x _ IH]; intros s Hs.
  assert (x = 0 \/ 0 < x)%N as [-> | Hx] by lia.
  - by rewrite pretty_N_go_0.
  - rewrite pretty_N_go_step by done. apply IH; [by apply N.div_lt |].
    apply free_of_cons. by split.
Qed.

(** [str(n)] holds digits only. *)
Lemma free_of_str n : free_of "|"%char (PyStr.str n).
Proof.
  unfold PyStr.str, pretty, pretty_nat, pretty, pretty_N.
  case_decide; [reflexivity |].
  apply free_of_pretty_N_go; [| reflexivity].
  intros d. unfold pretty_N_char. by repeat case_match.
Qed.

Lemma join_bar4 a b c d :
  PyStr.join "|" [a; b; c; d] = a +:+ String "|"%char (b +:+ String "|"%char (c +:+ String "|"%char d)).
Proof. reflexivity. Qed.

Lemma join_cons2 c x y l :
  PyStr.join (String c EmptyString) (x :: y :: l) =
  x +:+ String c (PyStr.join (String c EmptyString) (y :: l)).
Proof. reflexivity. Qed.

Lemma join_cons_nonempty c x l :
  x <> EmptyString -> PyStr.join (String c EmptyString) (x :: l) <> EmptyString.
Proof.
  intros Hx. destruct l as [|y l]; [done |].
  rewrite join_cons2. by destruct x.
Qed.

(** Joining with a separator that no part holds loses nothing, as long as
    no part is empty. *)
Lemma join_inj c l1 : forall l2,
  Forall (fun n => n <> EmptyString /\ free_of c n) l1 ->
  Forall (fun n => n <> EmptyString /\ free_of c n) l2 ->
  PyStr.join (String c EmptyString) l1 = PyStr.join (String c EmptyString) l2 -> l1 = l2.
Proof.
  induction l1 as [|x1 l1 IH]; intros [|x2 l2] H1 H2 Heq.
  - done.
  - apply Forall_cons in H2 as [[Hx _] _].
    symmetry in Heq. by apply join_cons_nonempty in Heq.
  - apply Forall_cons in H1 as [[Hx _] _]. by apply join_cons_nonempty in Heq.
  - apply Forall_cons in H1 as [[Hx1 Hf1] H1]. apply Forall_cons in H2 as [[Hx2 Hf2] H2].
    destruct l1 as [|y1 l1], l2 as [|y2 l2].
    + simpl in Heq. by subst.
    + rewrite join_cons2 in Heq. simpl in Heq. subst x1.
      apply free_of_app in Hf1 as [_ Hf1]. by apply free_of_cons in Hf1 as [? _].
    + rewrite join_cons2 in Heq. simpl in Heq. subst x2.
      apply free_of_app in Hf2 as [_ Hf2]. by apply free_of_cons in Hf2 as [? _].
    + rewrite !join_cons2 in Heq.
      apply app_sep_inj in Heq as [-> Heq]; [| done | done].
      f_equal. by apply IH.
Qed.

(** C3 (amended). What is hashed is the netloc, the number of slashes in
    the path, the last path segment and the comma-joined sorted names of the
    parameters with a value, joined with [|]. Two URLs with the same four
    components have the same fingerprint; and where the components can be
    read back from the joined string and the hash does not collide on the
    two strings, URLs with the same fingerprint have the same four
    components. So the fingerprint is the same for two URLs that differ only
    in the order of their parameters or in their values, as long as the same
    names keep a value, and a parameter with an empty value adds nothing. *)
Theorem fingerprint_shape (u1 u2 : string) :
  let p1 := urlparse u1 in
  let p2 := urlparse u2 in
  (forall ps, Forall plain_pair ps -> query p1 = encode_query ps ->
     generate_fingerprint u1 =
     generate_hash
       (PyStr.join "|" [netloc p1;
                        PyStr.str (PyStr.count "/"%char (path p1));
                        PyStr.last (PyStr.split "/"%char (path p1));
                        PyStr.join "," (PyStr.sorted (names_with_value ps))])) /\
  (shape p1 = shape p2 -> generate_fingerprint u1 = generate_fingerprint u2) /\
  (separable p1 -> separable p2 ->
   no_collision (fingerprint_string p1) (fingerprint_string p2) ->
   generate_fingerprint u1 = generate_fingerprint u2 -> shape p1 = shape p2) /\
  (forall ps1 ps2,
     Forall plain_pair ps1 -> Forall plain_pair ps2 ->
     query p1 = encode_query ps1 -> query p2 = encode_query ps2 ->
     netloc p1 = netloc p2 -> path p1 = path p2 ->
     names_with_value ps1 ≡ₚ names_with_value ps2 ->
     generate_fingerprint u1 = generate_fingerprint u2) /\
  (forall ps, Forall plain_pair ps ->
     query_params (encode_query ps) = names_with_value ps).
Proof.
  intros p1 p2.
  assert (Hshape : shape p1 = shape p2 -> generate_fingerprint u1 = generate_fingerprint u2).
  { intros [= Hn Hd Hp Hq]. unfold generate_fingerprint, fingerprint_string.
    fold p1 p2. by rewrite Hn, Hd, Hp, Hq. }
  split; [| split; [exact Hshape | split; [| split]]].
  - intros ps Hps Hq. unfold generate_fingerprint, fingerprint_string. fold p1.
    by rewrite Hq, query_params_encode.
  - intros (Hn1 & Hg1 & Hq1) (Hn2 & Hg2 & Hq2) Hcol Heq.
    unfold generate_fingerprint in Heq. fold p1 p2 in Heq. apply Hcol in Heq.
    unfold fingerprint_string in Heq. rewrite !join_bar4 in Heq.
    apply app_sep_inj in Heq as [Hn Heq]; [| done | done].
    apply app_sep_inj in Heq as [Hd Heq]; [| apply free_of_str | apply free_of_str].
    apply app_sep_inj in Heq as [Hp Hc]; [| done | done].
    apply (inj pretty) in Hd.
    apply (join_inj ","%char) in Hc.
    + unfold shape. by rewrite Hn, Hd, Hp, Hc.
    + unfold PyStr.sorted. by rewrite merge_sort_Permutation.
    + unfold PyStr.sorted. by rewrite merge_sort_Permutation.
  - intros ps1 ps2 H1 H2 Hq1 Hq2 Hn Hp Hperm.
    apply Hshape. unfold shape. rewrite Hn, Hp. f_equal.
    rewrite Hq1, Hq2, !query_params_encode by done.
    by apply sorted_permutation.
  - apply query_params_encode.
Qed.

End Shape.

(** ** Pruning twice *)

Section Pruning.
Context `{E : Env}.

Lemma prune_loop_unfold bs u rest seen :
  prune_loop bs (u :: rest) seen =
  (target <- Target_init u ;;
   let fingerprint := generate_fingerprint u in
   new_cursor ;;
   dup <- (if bool_decide (fingerprint ∈ seen) then ret true
           else found <- get_scanned fingerprint ;; ret (truthy found)) ;;
   if (dup : bool) then
     logging DEBUG ("Marking scanned (matches fingerprint of another target): " +:+ url target) ;;
     mark_scanned (url target) ;;
     prune_loop bs rest seen
   else
     blocked <- match_any bs target ;;
     if (blocked : bool) then
       logging DEBUG ("Deleting (matches blocklist pattern): " +:+ url target) ;;
       delete_target (url target) ;;
       prune_loop bs rest seen
     else
       prune_loop bs rest ({[ fingerprint ]} ∪ seen)).
Proof. reflexivity. Qed.

Lemma row_url_mark_row u r : row_url (mark_row u r) = row_url r.
Proof. unfold mark_row. by destruct (has_url u r). Qed.

Lemma mark_rows_absent u (l : list TargetRow) :
  u ∉ (row_url <$> l) -> mark_row u <$> l = l.
Proof.
  induction l as [|r l IH]; [done |].
  rewrite !fmap_cons, not_elem_of_cons. intros [Hr Hl].
  rewrite mark_row_other by congruence. by rewrite IH.
Qed.

Lemma delete_rows_absent u (l : list TargetRow) :
  u ∉ (row_url <$> l) -> filter (fun r => row_url r <> u) l = l.
Proof.
  induction l as [|r l IH]; [done |].
  rewrite fmap_cons, not_elem_of_cons. intros [Hr Hl].
  rewrite filter_cons_True by congruence. by rewrite IH.
Qed.

(** With unique keys a statement on one URL touches one row. *)
Lemma NoDup_urls_middle (l1 : list TargetRow) r l2 :
  NoDup (row_url <$> (l1 ++ r :: l2)) ->
  (row_url r ∉ row_url <$> l1) /\ (row_url r ∉ row_url <$> l2).
Proof.
  rewrite fmap_app, fmap_cons. intros Hnd.
  apply NoDup_app in Hnd as (_ & Hdis & Hnd2). apply NoDup_cons in Hnd2 as [Hr2 _].
  split; [| exact Hr2]. intros Hin. apply (Hdis _ Hin). left.
Qed.

Lemma mark_one_row l1 r l2 :
  NoDup (row_url <$> (l1 ++ r :: l2)) ->
  mark_row (row_url r) <$> (l1 ++ r :: l2) = l1 ++ mark_row (row_url r) r :: l2.
Proof.
  intros [H1 H2]%NoDup_urls_middle.
  by rewrite fmap_app, fmap_cons, !mark_rows_absent.
Qed.

Lemma delete_one_row l1 r l2 :
  NoDup (row_url <$> (l1 ++ r :: l2)) ->
  filter (fun x => row_url x <> row_url r) (l1 ++ r :: l2) = l1 ++ l2.
Proof.
  intros [H1 H2]%NoDup_urls_middle.
  rewrite filter_app, filter_cons_False by (intros H; by apply H).
  by rewrite !delete_rows_absent.
Qed.

(** The test [fingerprint in fingerprints or self.get_scanned(...)]. *)
Lemma duplicate_test f (seen : gset string) w :
  faults w = [] -> f <> EmptyString ->
  exists w',
    (if bool_decide (f ∈ seen) then ret true
     else found <- get_scanned f ;; ret (truthy found)) w =
    (Ok (bool_decide (f ∈ seen) || bool_decide (f ∈ fingerprints (db w))), w') /\
    db w' = db w /\ faults w' = [].
Proof.
  intros Hw Hf. destruct (bool_decide (f ∈ seen)); simpl.
  - eexists. split; [reflexivity | done].
  - destruct (get_scanned_quiet f w Hw) as (w' & Hrun & Hdb & Hf' & _).
    exists w'. split; [| done].
    step (exact Hrun). by rewrite truthy_found.
Qed.

Lemma match_any_eq bs t w :
  match_any bs t w =
  (match match_each bs t with
   | Ok l => Ok (bool_decide (true ∈ l))
   | Raise e => Raise e
   | Diverge => Diverge
   end, w).
Proof. unfold match_any, bind, lift. by destruct (match_each bs t). Qed.

(** One pass of the loop over the rows still to visit, the rows before them
    being done with: the loop ends as [prune_rows] does, and where that is a
    list of rows, they replace the visited ones in the table. *)
Lemma prune_loop_quiet bs rows : forall seen done w,
  faults w = [] ->
  targets (db w) = done ++ rows ->
  NoDup (row_url <$> (done ++ rows)) ->
  exists w',
    prune_loop bs (row_url <$> rows) seen w =
      (outcome (prune_rows bs (fingerprints (db w)) seen rows), w') /\
    (forall rows1, prune_rows bs (fingerprints (db w)) seen rows = Ok rows1 ->
       db w' = with_targets (done ++ rows1) (db w) /\ faults w' = []).
Proof.
  induction rows as [|r rest IH]; intros seen done w Hw Hts Hnd.
  - exists w. split; [reflexivity |].
    intros rows1 [= <-]. split; [| done].
    rewrite <- Hts. by destruct w as [[]].
  - rewrite fmap_cons, prune_loop_unfold. cbn [prune_rows].
    set (u := row_url r). set (f := generate_fingerprint u).
    destruct (Target_init_quiet u w) as (w1 & H1 & Hdb1 & Hf1 & _).
    step (exact H1). cbv zeta.
    step reflexivity.
    destruct (duplicate_test f seen (with_cursor [] w1)) as (w2 & H2 & Hdb2 & Hf2);
      [simpl; congruence | apply fingerprint_nonempty |].
    change (db (with_cursor [] w1)) with (db w1) in H2, Hdb2.
    rewrite Hdb1 in H2. step (exact H2).
    destruct (bool_decide (f ∈ seen) || bool_decide (f ∈ fingerprints (db w))) eqn:Hdup.
    + step reflexivity.
      destruct (mark_scanned_quiet u (with_log
                  (log w2 ++ [(DEBUG, "Marking scanned (matches fingerprint of another target): " +:+ u)]) w2))
        as (w3 & H3 & Hdb3 & Hf3 & _); [done |].
      cbn [db with_log] in Hdb3.
      step (exact H3).
      assert (Hts3 : targets (db w3) = (done ++ [mark_row u r]) ++ rest).
      { rewrite Hdb3. unfold db_mark, u. cbn [targets with_targets].
        rewrite Hdb2, Hdb1, Hts, mark_one_row by done. by rewrite <- app_assoc. }
      assert (Hfp3 : fingerprints (db w3) = fingerprints (db w)).
      { rewrite Hdb3. unfold db_mark. cbn [fingerprints with_targets]. by rewrite Hdb2, Hdb1. }
      destruct (IH seen (done ++ [mark_row u r]) w3 Hf3 Hts3) as (w' & Hrun & Hok).
      { rewrite <- app_assoc. simpl. rewrite fmap_app, fmap_cons, row_url_mark_row.
        by rewrite fmap_app, fmap_cons in Hnd. }
      rewrite Hfp3 in Hrun, Hok.
      exists w'. split.
      * rewrite Hrun. by destruct (prune_rows bs (fingerprints (db w)) seen rest).
      * intros rows1 Hrows.
        destruct (prune_rows bs (fingerprints (db w)) seen rest) as [l | |]; try discriminate.
        injection Hrows as <-. destruct (Hok l eq_refl) as [Hdb' Hf'].
        split; [| exact Hf']. rewrite Hdb', Hdb3, Hdb2, Hdb1.
        unfold db_mark, with_targets. cbn [targets fingerprints blocklist].
        by rewrite <- app_assoc.
    + destruct (match_each bs (target_of u)) as [l | e |] eqn:Hmatch.
      * step (rewrite match_any_eq, Hmatch; reflexivity).
        destruct (bool_decide (true ∈ l)) eqn:Hblocked.
        -- step reflexivity.
           destruct (delete_target_quiet u (with_log
                       (log w2 ++ [(DEBUG, "Deleting (matches blocklist pattern): " +:+ u)]) w2))
             as (w3 & H3 & Hdb3 & Hf3); [done |].
           cbn [db with_log] in Hdb3.
           step (exact H3).
           assert (Hts3 : targets (db w3) = done ++ rest).
           { rewrite Hdb3. unfold db_delete, u. cbn [targets with_targets].
             rewrite Hdb2, Hdb1, Hts. by apply delete_one_row. }
           assert (Hfp3 : fingerprints (db w3) = fingerprints (db w)).
           { rewrite Hdb3. unfold db_delete. cbn [fingerprints with_targets].
             by rewrite Hdb2, Hdb1. }
           destruct (IH seen done w3 Hf3 Hts3) as (w' & Hrun & Hok).
           { rewrite fmap_app. rewrite fmap_app, fmap_cons in Hnd.
             apply NoDup_app in Hnd as (Hd1 & Hd2 & Hd3).
             apply NoDup_app. split; [done |]. split.
             - intros x Hx Hx'. apply (Hd2 x Hx). by right.
             - by apply NoDup_cons in Hd3 as [_ ?]. }
           rewrite Hfp3 in Hrun, Hok.
           exists w'. split; [exact Hrun |].
           intros rows1 Hrows. destruct (Hok rows1 Hrows) as [Hdb' Hf'].
           split; [| exact Hf']. rewrite Hdb', Hdb3, Hdb2, Hdb1. reflexivity.
        -- assert (Hts2 : targets (db w2) = (done ++ [r]) ++ rest).
           { rewrite Hdb2, Hdb1, Hts. by rewrite <- app_assoc. }
           assert (Hfp2 : fingerprints (db w2) = fingerprints (db w)).
           { by rewrite Hdb2, Hdb1. }
           destruct (IH ({[ f ]} ∪ seen) (done ++ [r]) w2 Hf2 Hts2) as (w' & Hrun & Hok).
           { by rewrite <- app_assoc. }
           rewrite Hfp2 in Hrun, Hok.
           exists w'. split.
           ++ rewrite Hrun.
              by destruct (prune_rows bs (fingerprints (db w)) ({[ f ]} ∪ seen) rest).
           ++ intros rows1 Hrows.
              destruct (prune_rows bs (fingerprints (db w)) ({[ f ]} ∪ seen) rest)
                as [l' | |]; try discriminate.
              injection Hrows as <-. destruct (Hok l' eq_refl) as [Hdb' Hf'].
              split; [| exact Hf']. rewrite Hdb', Hdb2, Hdb1.
              by rewrite <- app_assoc.
      * eexists. split; [| discriminate].
        apply bind_raise. rewrite match_any_eq, Hmatch. reflexivity.
      * eexists. split; [| discriminate].
        unfold bind at 1. rewrite match_any_eq, Hmatch. reflexivity.
Qed.

(** A second pass over the rows a pass left changes none of them. *)
Lemma prune_rows_idemp bs known rows : forall seen rows1,
  prune_rows bs known seen rows = Ok rows1 ->
  prune_rows bs known seen rows1 = Ok rows1.
Proof.
  induction rows as [|r rest IH]; intros seen rows1; cbn [prune_rows].
  - by intros [= <-].
  - set (f := generate_fingerprint (row_url r)).
    destruct (bool_decide (f ∈ seen) || bool_decide (f ∈ known)) eqn:Hdup.
    + destruct (prune_rows bs known seen rest) as [l | |] eqn:Hrest; try discriminate.
      intros [= <-]. cbn [prune_rows].
      rewrite row_url_mark_row. fold f. rewrite Hdup, mark_row_idemp.
      by rewrite (IH seen l Hrest).
    + destruct (match_each bs (target_of (row_url r))) as [l | |] eqn:Hmatch;
        try discriminate.
      destruct (bool_decide (true ∈ l)) eqn:Hblocked.
      * apply IH.
      * destruct (prune_rows bs known ({[ f ]} ∪ seen) rest) as [l' | |] eqn:Hrest;
          try discriminate.
        intros [= <-]. cbn [prune_rows]. fold f.
        rewrite Hdup, Hmatch, Hblocked. by rewrite (IH _ l' Hrest).
Qed.

Lemma prune_rows_urls bs known rows : forall seen rows1,
  prune_rows bs known seen rows = Ok rows1 ->
  row_url <$> rows1 `sublist_of` row_url <$> rows.
Proof.
  induction rows as [|r rest IH]; intros seen rows1; cbn [prune_rows].
  - by intros [= <-].
  - destruct (bool_decide _ || bool_decide _).
    + destruct (prune_rows bs known seen rest) as [l | |] eqn:Hrest; try discriminate.
      intros [= <-]. rewrite !fmap_cons, row_url_mark_row.
      apply sublist_skip. by eapply IH.
    + destruct (match_each bs (target_of (row_url r))) as [l | |]; try discriminate.
      destruct (bool_decide (true ∈ l)).
      * intros H. rewrite fmap_cons. apply sublist_cons. by eapply IH.
      * destruct (prune_rows bs known _ rest) as [l' | |] eqn:Hrest; try discriminate.
        intros [= <-]. rewrite !fmap_cons. apply sublist_skip. by eapply IH.
Qed.

Lemma select_all (ts : list TargetRow) :
  filter (fun r => select_where false None r) ts = ts.
Proof.
  induction ts as [|r ts IH]; [done |].
  rewrite filter_cons_True by done. by rewrite IH.
Qed.

(** [prune] in table order on a database that answers. *)
Lemma prune_quiet bs w :
  faults w = [] -> NoDup (row_url <$> targets (db w)) ->
  exists w',
    prune bs false w = (outcome (prune_rows bs (fingerprints (db w)) ∅ (targets (db w))), w') /\
    (forall rows1, prune_rows bs (fingerprints (db w)) ∅ (targets (db w)) = Ok rows1 ->
       db w' = with_targets rows1 (db w) /\ faults w' = []).
Proof.
  intros Hw Hnd.
  destruct (get_urls_quiet false (SrcBool false) false w Hw) as (w1 & H1 & Hdb1 & Hf1).
  cbn [wants_source source_filter] in H1.
  rewrite select_all, join_rows_plain in H1.
  destruct (prune_loop_quiet bs (targets (db w)) ∅ [] w1 Hf1) as (w' & Hrun & Hok);
    [by rewrite Hdb1 | done |].
  rewrite Hdb1 in Hrun, Hok.
  exists w'. split; [| exact Hok].
  unfold prune. step (exact H1). step reflexivity. exact Hrun.
Qed.

(** C8 (amended). Without [randomize], on a database that answers and a
    target table with unique URLs: when a run of [prune] has completed, a
    second run with the same blocklists completes too and leaves the store
    exactly as the first run left it: nothing more is deleted and no flag
    changes. *)
Theorem prune_idempotent (bs : list Blocklist) (w w1 : World) :
  faults w = [] -> NoDup (row_url <$> targets (db w)) ->
  prune bs false w = (Ok tt, w1) ->
  exists w2, prune bs false w1 = (Ok tt, w2) /\ db w2 = db w1.
Proof.
  intros Hw Hnd Hrun.
  destruct (prune_quiet bs w Hw Hnd) as (w1' & Hrun1 & Hok1).
  rewrite Hrun in Hrun1.
  destruct (prune_rows bs (fingerprints (db w)) ∅ (targets (db w))) as [rows1 | |] eqn:Hrows;
    try discriminate.
  injection Hrun1 as <-. destruct (Hok1 rows1 eq_refl) as [Hdb1 Hw1].
  assert (Hnd1 : NoDup (row_url <$> targets (db w1))).
  { rewrite Hdb1. simpl. eapply sublist_NoDup; [exact Hnd |].
    by eapply prune_rows_urls. }
  destruct (prune_quiet bs w1 Hw1 Hnd1) as (w2 & Hrun2 & Hok2).
  assert (Hrows2 : prune_rows bs (fingerprints (db w1)) ∅ (targets (db w1)) = Ok rows1).
  { rewrite Hdb1. simpl. eapply prune_rows_idemp. exact Hrows. }
  rewrite Hrows2 in Hrun2. exists w2. split; [exact Hrun2 |].
  destruct (Hok2 rows1 Hrows2) as [Hdb2 _]. rewrite Hdb2, Hdb1. reflexivity.
Qed.

End Pruning.

(** ** What a claim returns *)

Section Claimed.
Context `{E : Env}.

Lemma store_eta (s : Store) : with_targets (targets s) s = s.
Proof. by destruct s. Qed.

(** The loop on a cursor whose first row starts with a URL, whatever else
    the row holds. *)
Lemma get_next_target_loop_head fuel self w u cols rest :
  faults w = [] -> cursor w = (Some u :: cols) :: rest ->
  let f := generate_fingerprint u in
  exists w', get_next_target_loop (S (S fuel)) self w =
      (Ok (if bool_decide (f ∈ fingerprints (db w)) then None else Some (target_of u)), w') /\
    db w' = db_claim u f (db w) /\ faults w' = [].
Proof.
  intros Hw Hc f. rewrite get_next_target_loop_unfold.
  step (unfold fetchone; rewrite Hc; reflexivity).
  step reflexivity.
  destruct (Target_init_quiet u (with_cursor rest w)) as (w1 & H1 & Hdb1 & Hf1 & _).
  step (exact H1). cbv zeta.
  assert (Hw1 : faults w1 = []) by (rewrite Hf1; exact Hw).
  destruct (mark_scanned_quiet u w1 Hw1) as (w2 & H2 & Hdb2 & Hf2 & _).
  step (exact H2).
  destruct (get_scanned_quiet (generate_fingerprint u) w2 Hf2) as (w3 & H3 & Hdb3 & Hf3 & Hc3).
  step (exact H3).
  rewrite truthy_found by apply fingerprint_nonempty.
  assert (Hfp : fingerprints (db w2) = fingerprints (db w)).
  { rewrite Hdb2, Hdb1. reflexivity. }
  rewrite Hfp. fold f. unfold db_claim.
  destruct (bool_decide (f ∈ fingerprints (db w))) eqn:Hin; cbv beta iota.
  - step reflexivity.
    rewrite get_next_target_loop_unfold.
    step (unfold fetchone; simpl; rewrite Hc3; reflexivity).
    eexists. split; [reflexivity |]. simpl. rewrite Hdb3, Hdb2, Hdb1. done.
  - assert (Hins : exists w4,
        execute (InsertFingerprint (insert self) f) w3 = (Ok tt, w4) /\
        db w4 = with_fingerprints ({[ f ]} ∪ fingerprints (db w)) (db_mark u (db w)) /\
        faults w4 = []).
    { rewrite execute_quiet by done. unfold run. simpl.
      rewrite Hdb3, Hfp, Hin.
      replace (insert_key_ok (insert self) false) with true by (by destruct (insert self)).
      eexists. split; [reflexivity |]. simpl. rewrite Hdb2, Hdb1. done. }
    destruct Hins as (w4 & H4 & Hdb4 & Hf4).
    step (exact H4). eexists. split; [reflexivity | done].
Qed.

(** A first row that does not start with a URL ends the call with an
    exception and the store untouched. *)
Lemma get_next_target_loop_bad_row fuel self w r rest :
  cursor w = r :: rest -> head r = None \/ head r = Some None ->
  exists e w', get_next_target_loop (S fuel) self w = (Raise e, w') /\
    (e = IndexError \/ e = TypeError) /\ db w' = db w /\ faults w' = faults w.
Proof.
  intros Hc Hr. rewrite get_next_target_loop_unfold.
  step (unfold fetchone; rewrite Hc; reflexivity).
  destruct r as [|[v|] cols]; simpl in Hr.
  - eexists _, _. split; [apply bind_raise; reflexivity |]. split; [by left | done].
  - destruct Hr; discriminate.
  - eexists _, _. split; [apply bind_raise; reflexivity |]. split; [by right | done].
Qed.

(** Every way a call of [get_next_target] can end on a database that
    answers: nothing selected; a duplicate, marked; a new target, marked and
    its fingerprint recorded; or a malformed row. *)
Lemma get_next_target_cases fuel self random w :
  faults w = [] -> (2 <= fuel)%nat ->
  exists r w', get_next_target fuel self random w = (r, w') /\ faults w' = [] /\
    ((r = Ok None /\ db w' = db w) \/
     (exists u cols rest, selected random w = (Some u :: cols) :: rest /\
        generate_fingerprint u ∈ fingerprints (db w) /\
        r = Ok None /\ db w' = db_mark u (db w)) \/
     (exists u cols rest, selected random w = (Some u :: cols) :: rest /\
        (generate_fingerprint u ∉ fingerprints (db w)) /\
        r = Ok (Some (target_of u)) /\
        db w' = with_fingerprints ({[ generate_fingerprint u ]} ∪ fingerprints (db w))
                  (db_mark u (db w))) \/
     (exists e, r = Raise e /\ db w' = db w)).
Proof.
  intros Hw Hfuel.
  destruct (selected random w) as [|row rest] eqn:Hsel.
  - destruct (get_next_target_none fuel self random w Hw) as (w' & Hrun & Hdb & Hf);
      [lia | done |].
    exists (Ok None), w'. split; [done |]. split; [done |]. by left.
  - destruct fuel as [|[|fuel]]; [lia | lia |].
    set (w1 := with_rng (if random then S (rng w) else rng w)
                 (with_cursor (selected random w) (with_cursor [] w))).
    assert (Hexec : execute (SelectUnscanned random) (with_cursor [] w) = (Ok tt, w1)).
    { rewrite execute_quiet by done. unfold run, selected, w1. simpl.
      destruct random; reflexivity. }
    assert (Hc1 : cursor w1 = row :: rest) by (unfold w1; simpl; exact Hsel).
    assert (Hbody : forall r w',
      get_next_target_loop (S (S fuel)) self w1 = (r, w') ->
      (forall msg, r <> Raise (DbError msg)) ->
      get_next_target (S (S fuel)) self random w = (r, w')).
    { intros r w' Hrun Hr. unfold get_next_target, except_db.
      erewrite bind_ok by reflexivity. erewrite bind_ok by exact Hexec.
      rewrite Hrun. destruct r as [a | [] |]; try reflexivity. by destruct (Hr msg). }
    destruct row as [|[u|] cols].
    + destruct (get_next_target_loop_bad_row (S fuel) self w1 [] rest Hc1)
        as (e & w' & Hrun & He & Hdb & Hf); [by left |].
      exists (Raise e), w'. split; [| split; [by rewrite Hf |]].
      * apply Hbody; [exact Hrun |]. intros msg [= ->]. by destruct He.
      * right. right. right. exists e. by rewrite Hdb.
    + destruct (get_next_target_loop_head fuel self w1 u cols rest) as (w' & Hrun & Hdb & Hf);
        [done | done |].
      change (db w1) with (db w) in Hrun, Hdb. unfold db_claim in Hdb.
      destruct (bool_decide (generate_fingerprint u ∈ fingerprints (db w))) eqn:Hin.
      * exists (Ok None), w'. split; [by apply Hbody |]. split; [done |].
        right. left. exists u, cols, rest.
        apply bool_decide_eq_true in Hin. done.
      * exists (Ok (Some (target_of u))), w'. split; [by apply Hbody |]. split; [done |].
        right. right. left. exists u, cols, rest.
        apply bool_decide_eq_false in Hin. done.
    + destruct (get_next_target_loop_bad_row (S fuel) self w1 (None :: cols) rest Hc1)
        as (e & w' & Hrun & He & Hdb & Hf); [by right |].
      exists (Raise e), w'. split; [| split; [by rewrite Hf |]].
      * apply Hbody; [exact Hrun |]. intros msg [= ->]. by destruct He.
      * right. right. right. exists e. by rewrite Hdb.
Qed.

(** The rows selected in table order are the unscanned rows, each as its
    URL. *)
Lemma selected_in_order w u cols rest :
  selected false w = (Some u :: cols) :: rest ->
  exists r rs, filter (fun r => unscanned r) (targets (db w)) = r :: rs /\
    row_url r = u.
Proof.
  unfold selected.
  destruct (filter (fun r => unscanned r) (targets (db w))) as [|r rs]; [done |].
  intros [= <- _ _]. by exists r, rs.
Qed.

(** What is known when [get_next_target] has returned a target. *)
Lemma claimed_facts fuel self random w w' t :
  faults w = [] -> (2 <= fuel)%nat ->
  get_next_target fuel self random w = (Ok (Some t), w') ->
  t = target_of (url t) /\
  (generate_fingerprint (url t) ∉ fingerprints (db w)) /\
  fingerprints (db w') = {[ generate_fingerprint (url t) ]} ∪ fingerprints (db w) /\
  targets (db w') = mark_row (url t) <$> targets (db w) /\
  (random = false ->
   exists r rs, filter (fun r => unscanned r) (targets (db w)) = r :: rs /\
     row_url r = url t) /\
  faults w' = [].
Proof.
  intros Hw Hfuel Hrun.
  destruct (get_next_target_cases fuel self random w Hw Hfuel)
    as (r & w1 & Hrun1 & Hf & Hcases).
  rewrite Hrun in Hrun1. injection Hrun1 as <- <-.
  destruct Hcases as [[? _] | [(u & cols & rest & _ & _ & ? & _) |
                     [(u & cols & rest & Hsel & Hnew & Hr & Hdb) | (e & ? & _)]]];
    try discriminate.
  injection Hr as ->. simpl.
  split; [done |]. split; [exact Hnew |].
  rewrite Hdb. split; [done |]. split; [done |]. split; [| done].
  intros ->. by eapply selected_in_order.
Qed.

(** X1. When [get_next_target] returns a target on a database that
    answers, the target's fingerprint was not recorded before the call and
    is recorded after it, the rows of its URL are marked scanned and no other
    row changes; in table order the target is the first unscanned row. *)
Theorem claimed_target_is_new (fuel : nat) (self : TargetDatabase) (random : bool)
    (w w' : World) (t : Target) :
  faults w = [] -> (2 <= fuel)%nat ->
  get_next_target fuel self random w = (Ok (Some t), w') ->
  t = target_of (url t) /\
  (generate_fingerprint (url t) ∉ fingerprints (db w)) /\
  fingerprints (db w') = {[ generate_fingerprint (url t) ]} ∪ fingerprints (db w) /\
  targets (db w') = mark_row (url t) <$> targets (db w) /\
  (random = false ->
   exists r rs, filter (fun r => unscanned r) (targets (db w)) = r :: rs /\
     row_url r = url t) /\
  faults w' = [].
Proof. apply claimed_facts. Qed.

End Claimed.

(** ** Single statements on the target table *)

Section Rows.
Context `{E : Env}.

Lemma flush_fingerprints_quiet w :
  faults w = [] ->
  exists w', flush_fingerprints w = (Ok tt, w') /\
    db w' = db_flush_fingerprints (db w) /\ faults w' = [].
Proof.
  intros Hw. unfold flush_fingerprints. step reflexivity.
  eexists. split.
  - apply except_db_ok. step reflexivity.
    step (rewrite execute_quiet by done; reflexivity).
    rewrite execute_quiet by done. reflexivity.
  - done.
Qed.

Lemma filter_unscanned_reset (ts : list TargetRow) :
  filter (fun r => unscanned r) (set_scanned 0 <$> ts) = set_scanned 0 <$> ts.
Proof.
  induction ts as [|r ts IH]; [done |].
  rewrite fmap_cons, filter_cons_True by done. by rewrite IH.
Qed.

(** A flush and then a claim, on a table with a first row [r]. *)
Lemma flush_then_claim fuel self w r rest :
  faults w = [] -> (2 <= fuel)%nat -> targets (db w) = r :: rest ->
  exists w', (flush_fingerprints ;; get_next_target fuel self false) w =
             (Ok (Some (target_of (row_url r))), w') /\
    fingerprints (db w') = {[ generate_fingerprint (row_url r) ]}.
Proof.
  intros Hw Hfuel Hts.
  destruct (flush_fingerprints_quiet w Hw) as (w1 & H1 & Hdb1 & Hf1).
  destruct (get_next_target_quiet fuel self false w1 (row_url r)
              (select_row false <$> (set_scanned 0 <$> rest)) Hf1 Hfuel)
    as (w' & Hrun & Hdb & _).
  { unfold selected. rewrite Hdb1. unfold db_flush_fingerprints.
    cbn [targets with_targets]. rewrite filter_unscanned_reset, Hts. reflexivity. }
  assert (Hfp : fingerprints (db w1) = ∅) by (by rewrite Hdb1).
  rewrite Hfp in Hrun. unfold db_claim in Hdb. rewrite Hfp in Hdb.
  rewrite bool_decide_eq_false_2 in Hrun, Hdb by apply not_elem_of_empty.
  exists w'. split; [step (exact H1); exact Hrun |].
  rewrite Hdb. cbn [fingerprints with_fingerprints]. by rewrite union_empty_r_L.
Qed.

(** X2. On a database that answers and has a target, whenever
    [flush_fingerprints] followed by [get_next_target] in table order
    returns, what it returns is the first target of the table, never
    [None], whether or not that target had been scanned or its fingerprint
    recorded before; and its fingerprint is then the only one recorded. *)
Theorem flush_fingerprints_reopens (fuel : nat) (self : TargetDatabase) (w w' : World)
    (r : TargetRow) (rest : list TargetRow) (t : option Target) :
  faults w = [] -> (2 <= fuel)%nat -> targets (db w) = r :: rest ->
  (flush_fingerprints ;; get_next_target fuel self false) w = (Ok t, w') ->
  t = Some (target_of (row_url r)) /\
  fingerprints (db w') = {[ generate_fingerprint (row_url r) ]}.
Proof.
  intros Hw Hfuel Hts Hrun.
  destruct (flush_then_claim fuel self w r rest Hw Hfuel Hts) as (w1 & Hrun1 & Hfp).
  rewrite Hrun1 in Hrun. by injection Hrun as <- <-.
Qed.

(** X3. [delete_target] removes the row of its URL and nothing else: the
    other rows and the fingerprints stay, and for a URL that has no row the
    store is unchanged and no error is raised. *)
Theorem delete_target_removes (u : string) (w : World) :
  faults w = [] ->
  exists w', delete_target u w = (Ok tt, w') /\
    lookup_url u (targets (db w')) = None /\
    (forall v, v <> u -> lookup_url v (targets (db w')) = lookup_url v (targets (db w))) /\
    fingerprints (db w') = fingerprints (db w) /\
    (lookup_url u (targets (db w)) = None -> db w' = db w).
Proof.
  intros Hw. destruct (delete_target_quiet u w Hw) as (w' & Hrun & Hdb & _).
  exists w'. split; [exact Hrun |]. rewrite Hdb. unfold db_delete.
  cbn [targets fingerprints with_targets].
  split; [apply lookup_url_filter_eq |].
  split; [intros v Hv; by apply lookup_url_filter_ne |].
  split; [done |].
  intros Habsent. apply lookup_url_None in Habsent.
  by rewrite delete_rows_absent, store_eta.
Qed.

(** X4. On each driver, adding a URL that has no row and deleting it again
    gives back the store as it was; in between, the URL has a row with its
    label and [scanned = 0]. *)
Theorem add_then_delete (d u : string) (s : option string) (w : World) :
  let self := TargetDatabase_init d in
  faults w = [] -> lookup_url u (targets (db w)) = None ->
  exists w1 w2,
    add_target self u s w = (Ok tt, w1) /\
    lookup_url u (targets (db w1)) = Some (new_row u s) /\
    delete_target u w1 = (Ok tt, w2) /\
    db w2 = db w.
Proof.
  intros self Hw Habsent.
  pose proof (init_driver_syntax d) as Hsyn. fold self in Hsyn.
  destruct (add_target_quiet self u s w Hw Hsyn) as (w1 & H1 & Hdb1 & Hw1).
  destruct (delete_target_quiet u w1 Hw1) as (w2 & H2 & Hdb2 & _).
  destruct (insert_target_spec (insert self) (conflict self) u s (targets (db w)) Hsyn)
    as (Hins & Hl & _).
  exists w1, w2. split; [exact H1 |]. split.
  - rewrite Hdb1. cbn [targets with_targets]. by rewrite Hl, Habsent.
  - split; [exact H2 |].
    assert (Hup : upsert (insert self) (conflict self) s (targets (db w)) u =
                  targets (db w) ++ [new_row u s]).
    { unfold upsert, insert_target. by rewrite existsb_has_url, Habsent. }
    rewrite Hdb2, Hdb1. unfold db_delete. cbn [targets with_targets]. rewrite Hup.
    apply lookup_url_None in Habsent.
    rewrite filter_app, delete_rows_absent by done.
    rewrite filter_cons_False by (cbv beta; intros H; apply H; reflexivity).
    rewrite filter_nil, app_nil_r. by destruct (db w).
Qed.

End Rows.

(** ** The retry loops when some attempts go through *)

Section Retry_more.
Context `{E : Env}.

(** X5. [mark_scanned] sends its [UPDATE] three times when nothing fails,
    and an error other than a lost connection at the second statement ends
    the process with a logged error although the first statement has already
    marked the row. *)
Theorem mark_scanned_repeats (u : string) (w : World) (fs : list (option string)) :
  (faults w = None :: None :: None :: fs ->
   exists w', mark_scanned u w = (Ok tt, w') /\
     faults w' = fs /\ db w' = db_mark u (db w) /\ log w' = log w) /\
  (forall msg, faults w = None :: Some msg :: fs -> connection_lost msg = false ->
   exists w', mark_scanned u w = (Raise (SystemExit 1), w') /\
     db w' = db_mark u (db w) /\
     log w' = log w ++ [(ERROR, "Failed to mark target as scanned - " +:+ msg)]).
Proof.
  split.
  - intros Hw. unfold mark_scanned. simpl.
    unfold bind at 1. unfold except_db at 1, execute at 1. rewrite Hw. simpl.
    unfold bind at 1. unfold except_db at 1, execute at 1. simpl.
    unfold bind at 1. unfold except_db at 1, execute at 1. simpl.
    eexists. split; [reflexivity |]. simpl.
    split; [done |]. split; [| done].
    unfold db_mark, with_targets. simpl. f_equal.
    rewrite <- !list_fmap_compose. apply list_fmap_ext. intros _ r _.
    unfold mark_row, has_url. simpl.
    destruct (bool_decide (row_url r = u)) eqn:H; simpl; rewrite ?H; simpl; rewrite ?H; done.
  - intros msg Hw Hmsg. unfold mark_scanned. simpl.
    unfold bind at 1. unfold except_db at 1, execute at 1. rewrite Hw. simpl.
    unfold bind at 1. unfold except_db at 1, execute at 1. simpl.
    rewrite Hmsg. simpl.
    eexists. split; [reflexivity | done].
Qed.

(** X6. [get_scanned] after one or two lost connections and a statement
    that goes through: the answer is the one an undisturbed lookup gives,
    with one warning and one reconnect per loss, and the store unchanged. *)
Theorem get_scanned_recovers (f : string) (w : World) (ms : list string)
    (fs : list (option string)) :
  (length ms <= 2)%nat -> Forall (fun m => connection_lost m = true) ms ->
  faults w = (Some <$> ms) ++ fs -> head fs = Some None \/ fs = [] ->
  exists w', get_scanned f w =
      (Ok (if bool_decide (f ∈ fingerprints (db w)) then Some f else None), w') /\
    log w' = log w ++ (lookup_retry_warning <$> ms) /\
    connects w' = (length ms + connects w)%nat /\ db w' = db w.
Proof.
  intros Hlen Hlost Hw Hfs.
  assert (Hlast : forall w0, faults w0 = fs ->
    execute (SelectFingerprint f) w0 = run (SelectFingerprint f) (with_faults (tail fs) w0)
    \/ execute (SelectFingerprint f) w0 = run (SelectFingerprint f) w0).
  { intros w0 Hw0. unfold execute. rewrite Hw0.
    destruct Hfs as [Hfs | ->]; [| by right].
    destruct fs as [|[m|] fs']; simpl in Hfs; try discriminate. by left. }
  destruct ms as [|m1 [|m2 [|m3 ms]]]; simpl in Hlen; try lia.
  - simpl in Hw. unfold get_scanned. simpl.
    unfold bind at 1. unfold bind at 1. unfold except_db at 1, bind at 1.
    destruct (Hlast w Hw) as [-> | ->]; unfold run; simpl;
      destruct (bool_decide (f ∈ fingerprints (db w))); simpl;
      eexists; (split; [reflexivity |]); simpl; rewrite ?app_nil_r; done.
  - apply Forall_cons in Hlost as [H1 _]. simpl in Hw.
    unfold get_scanned. simpl.
    unfold bind at 1. unfold bind at 1. unfold except_db at 1, bind at 1, execute at 1.
    rewrite Hw, H1. simpl.
    unfold bind at 1. unfold except_db at 1, bind at 1.
    match goal with |- context [execute _ ?w0] =>
      destruct (Hlast w0 eq_refl) as [-> | ->] end;
      unfold run; simpl;
      destruct (bool_decide (f ∈ fingerprints (db w))); simpl;
      eexists; (split; [reflexivity |]); simpl; done.
  - apply Forall_cons in Hlost as [H1 Hlost]. apply Forall_cons in Hlost as [H2 _].
    simpl in Hw. unfold get_scanned. simpl.
    unfold bind at 1. unfold bind at 1. unfold except_db at 1, bind at 1, execute at 1.
    rewrite Hw, H1. simpl.
    unfold bind at 1. unfold except_db at 1, bind at 1, execute at 1. simpl.
    rewrite H2. simpl.
    unfold bind at 1. unfold except_db at 1, bind at 1.
    match goal with |- context [execute _ ?w0] =>
      destruct (Hlast w0 eq_refl) as [-> | ->] end;
      unfold run; simpl;
      destruct (bool_decide (f ∈ fingerprints (db w))); simpl;
      eexists; (split; [reflexivity |]); simpl; rewrite <- ?app_assoc; done.
Qed.

End Retry_more.

(** ** When matching raises *)

Section Matching_more.
Context `{E : Env}.

(** X7. [match] raises in one situation only: the target has no [ip]
    attribute, the regex and host tests are false and [ip_set] is not empty;
    the exception is then [AttributeError]. In every other case it returns a
    truth value. *)
Theorem match_raises_iff (self : Blocklist) (target : Target) (e : exn) :
  Blocklist_match self target = Raise e <->
  e = AttributeError "ip" /\ ip target = Unset /\
  regex_test self target = false /\ host_test self target = false /\
  ip_set self <> ∅.
Proof.
  unfold Blocklist_match.
  destruct (regex_test self target); [split; [done | by intros (_ & _ & ? & _)] |].
  destruct (host_test self target); [split; [done | by intros (_ & _ & _ & ? & _)] |].
  destruct (ip target) as [|o] eqn:Hip.
  - destruct (elements (ip_set self)) as [|n nets] eqn:Hel.
    + apply elements_empty_inv, leibniz_equiv in Hel.
      split; [done | by intros (_ & _ & _ & _ & ?)].
    + simpl. rewrite Hip. split.
      * intros [= <-]. repeat split; try done.
        intros Hempty. rewrite Hempty, elements_empty in Hel. discriminate.
      * by intros (-> & _).
  - rewrite (ip_loop_attr _ _ o Hip). split; [done | by intros (_ & ? & _)].
Qed.

End Matching_more.

(** ** What a pass of [prune] leaves *)

Section Pruned.
Context `{E : Env}.

Lemma unscanned_marked r : unscanned (mark_row (row_url r) r) = false.
Proof.
  unfold mark_row. rewrite (proj2 (has_url_true (row_url r) r)) by done. reflexivity.
Qed.

(** The unscanned rows of the result: new to the pass, to the table and to
    each other, and not blocked. *)
Lemma prune_rows_unscanned bs known rows : forall seen rows1,
  prune_rows bs known seen rows = Ok rows1 ->
  (forall r, r ∈ rows1 -> unscanned r = true ->
     (row_fingerprint r ∉ seen) /\ (row_fingerprint r ∉ known) /\
     allowed bs (row_url r)) /\
  NoDup (row_fingerprint <$> filter (fun r => unscanned r) rows1).
Proof.
  induction rows as [|r rest IH]; intros seen rows1; cbn [prune_rows].
  - intros [= <-]. split; [intros r Hr; by apply elem_of_nil in Hr | constructor].
  - set (f := generate_fingerprint (row_url r)).
    destruct (bool_decide (f ∈ seen) || bool_decide (f ∈ known)) eqn:Hdup.
    + destruct (prune_rows bs known seen rest) as [l | |] eqn:Hrest; try discriminate.
      intros [= <-]. destruct (IH seen l Hrest) as [Hall Hnd]. split.
      * intros r' [-> | Hr']%elem_of_cons Hun; [| by apply Hall].
        by rewrite unscanned_marked in Hun.
      * rewrite filter_cons_False; [exact Hnd |].
        rewrite unscanned_marked. exact id.
    + apply orb_false_elim in Hdup as [Hseen Hknown].
      apply bool_decide_eq_false in Hseen, Hknown.
      destruct (match_each bs (target_of (row_url r))) as [l | |] eqn:Hmatch;
        try discriminate.
      destruct (bool_decide (true ∈ l)) eqn:Hblocked.
      * intros Hrest. apply (IH seen rows1 Hrest).
      * destruct (prune_rows bs known ({[ f ]} ∪ seen) rest) as [l' | |] eqn:Hrest;
          try discriminate.
        intros [= <-]. destruct (IH _ l' Hrest) as [Hall Hnd].
        apply bool_decide_eq_false in Hblocked. split.
        -- intros r' [-> | Hr']%elem_of_cons Hun.
           ++ split; [exact Hseen |]. split; [exact Hknown |]. by exists l.
           ++ destruct (Hall r' Hr' Hun) as (Hs & Hk & Ha).
              split; [| split; [exact Hk | exact Ha]].
              intros Hin. apply Hs. apply elem_of_union. by right.
        -- destruct (unscanned r) eqn:Hun.
           ++ rewrite filter_cons_True by (cbv beta; by rewrite Hun).
              rewrite fmap_cons. apply NoDup_cons. split; [| exact Hnd].
              intros Hin. apply list_elem_of_fmap in Hin as (r' & Hf & Hr').
              apply list_elem_of_filter in Hr' as [Hun' Hr'].
              destruct (Hall r' Hr') as (Hs & _); [by destruct (unscanned r') |].
              apply Hs. rewrite <- Hf. unfold row_fingerprint. fold f.
              apply elem_of_union. left. by apply elem_of_singleton.
           ++ rewrite filter_cons_False by (cbv beta; rewrite Hun; exact id). exact Hnd.
Qed.

(** A row whose URL is gone after the pass was blocked. *)
Lemma prune_rows_removed bs known rows : forall seen rows1,
  prune_rows bs known seen rows = Ok rows1 ->
  forall r, r ∈ rows -> row_url r ∉ (row_url <$> rows1) -> blocked bs (row_url r).
Proof.
  induction rows as [|r0 rest IH]; intros seen rows1; cbn [prune_rows].
  - intros _ r Hr. by apply elem_of_nil in Hr.
  - destruct (bool_decide _ || bool_decide _).
    + destruct (prune_rows bs known seen rest) as [l | |] eqn:Hrest; try discriminate.
      intros [= <-] r Hr Hgone.
      rewrite fmap_cons, row_url_mark_row, not_elem_of_cons in Hgone.
      destruct Hgone as [Hne Hgone].
      apply elem_of_cons in Hr as [-> | Hr]; [done |].
      by apply (IH seen l Hrest).
    + destruct (match_each bs (target_of (row_url r0))) as [l | |] eqn:Hmatch;
        try discriminate.
      destruct (bool_decide (true ∈ l)) eqn:Hblocked.
      * intros Hrest r Hr Hgone. apply elem_of_cons in Hr as [-> | Hr].
        -- exists l. split; [exact Hmatch | by apply bool_decide_eq_true in Hblocked].
        -- by apply (IH seen rows1 Hrest).
      * destruct (prune_rows bs known _ rest) as [l' | |] eqn:Hrest; try discriminate.
        intros [= <-] r Hr Hgone.
        rewrite fmap_cons, not_elem_of_cons in Hgone. destruct Hgone as [Hne Hgone].
        apply elem_of_cons in Hr as [-> | Hr]; [done |].
        by apply (IH _ l' Hrest).
Qed.

(** X8. After a completed [prune] in table order on a database that
    answers: the fingerprint table is as before; every target still
    unscanned matches no blocklist and has a fingerprint that is not
    recorded and that no other unscanned target shares; and every target
    that was removed matched a blocklist. *)
Theorem prune_leaves_novel_targets (bs : list Blocklist) (w w1 : World) :
  faults w = [] -> NoDup (row_url <$> targets (db w)) ->
  prune bs false w = (Ok tt, w1) ->
  fingerprints (db w1) = fingerprints (db w) /\
  (forall r, r ∈ targets (db w1) -> unscanned r = true ->
     (row_fingerprint r ∉ fingerprints (db w1)) /\ allowed bs (row_url r)) /\
  NoDup (row_fingerprint <$> filter (fun r => unscanned r) (targets (db w1))) /\
  (forall r, r ∈ targets (db w) -> row_url r ∉ (row_url <$> targets (db w1)) ->
     blocked bs (row_url r)).
Proof.
  intros Hw Hnd Hrun.
  destruct (prune_quiet bs w Hw Hnd) as (w1' & Hrun1 & Hok).
  rewrite Hrun in Hrun1.
  destruct (prune_rows bs (fingerprints (db w)) ∅ (targets (db w))) as [rows1 | |] eqn:Hrows;
    try discriminate.
  injection Hrun1 as <-. destruct (Hok rows1 eq_refl) as [Hdb _].
  destruct (prune_rows_unscanned _ _ _ _ _ Hrows) as [Hall Hdistinct].
  rewrite Hdb. cbn [targets fingerprints with_targets].
  split; [done |]. split; [| split; [exact Hdistinct |]].
  - intros r Hr Hun. destruct (Hall r Hr Hun) as (_ & Hk & Ha). done.
  - intros r Hr Hgone. by eapply prune_rows_removed.
Qed.

End Pruned.

(** ** Adding and deleting blocklist rules *)

Section Rules.
Context `{E : Env}.

Lemma split_host_item h : free_of ":"%char h ->
  PyStr.split ":"%char ("host:" +:+ h) = ["host"; h].
Proof.
  intros Hh. change ("host:" +:+ h) with ("host" +:+ String ":"%char h).
  rewrite split_app_sep by reflexivity. by rewrite split_free.
Qed.

Lemma split_regex_item a b : free_of ":"%char a ->
  PyStr.split ":"%char ("regex:" +:+ a +:+ ":" +:+ b) = "regex" :: a :: PyStr.split ":"%char b.
Proof.
  intros Ha.
  change ("regex:" +:+ a +:+ ":" +:+ b) with ("regex" +:+ String ":"%char (a +:+ String ":"%char b)).
  rewrite split_app_sep by reflexivity. by rewrite split_app_sep.
Qed.

(** The statement [add] sends, on a database that answers and accepts
    it. *)
Lemma add_insert_quiet ins item w :
  faults w = [] -> insert_key_ok ins (bool_decide (item ∈ blocklist (db w))) = true ->
  exists w',
    except_db (new_cursor ;; execute (InsertBlocklist ins item))
      (fun msg => logging ERROR ("Failed to add blocklist item - " +:+ msg) ;; sys_exit 1) w =
    (Ok tt, w') /\
    blocklist (db w') = table_with item (blocklist (db w)) /\
    targets (db w') = targets (db w) /\ fingerprints (db w') = fingerprints (db w) /\
    faults w' = [].
Proof.
  intros Hw Hok. unfold table_with.
  assert (Hrun : exists w', execute (InsertBlocklist ins item) (with_cursor [] w) = (Ok tt, w') /\
    blocklist (db w') =
      (if bool_decide (item ∈ blocklist (db w)) then blocklist (db w)
       else blocklist (db w) ++ [item]) /\
    targets (db w') = targets (db w) /\ fingerprints (db w') = fingerprints (db w) /\
    faults w' = []).
  { rewrite execute_quiet by done. unfold run. simpl.
    destruct (bool_decide (item ∈ blocklist (db w))).
    - replace (insert_key_ok ins true) with true. eexists. split; [reflexivity | done].
    - eexists. split; [reflexivity | done]. }
  destruct Hrun as (w' & Hrun & Hrest).
  exists w'. split; [| exact Hrest].
  apply except_db_ok. step reflexivity. exact Hrun.
Qed.

(** X9. [add] of [regex:a:b] where [a] has no colon: the pattern kept is
    [a], the text from the second colon on is dropped; the compiled
    [self.regex] is left as it was, so [match] in this object does not see
    the new pattern; the table receives the item in full. *)
Theorem add_regex_keeps_first_field (self : Blocklist) (a b : string) (w : World) :
  let item := "regex:" +:+ a +:+ ":" +:+ b in
  free_of ":"%char a -> faults w = [] -> bl_database self = true ->
  insert_key_ok (bl_insert self) (bool_decide (item ∈ blocklist (db w))) = true ->
  exists self' w', Blocklist_add self item w = (Ok self', w') /\
    regex_set self' = {[ a ]} ∪ regex_set self /\
    regex self' = regex self /\
    (forall target, regex_test self' target = regex_test self target) /\
    blocklist (db w') = table_with item (blocklist (db w)).
Proof.
  intros item Ha Hw Hdb Hok.
  destruct (add_insert_quiet (bl_insert self) item (with_connects (S (connects w)) w))
    as (w' & Hrun & Htable & _); [done | exact Hok |].
  exists (add_regex a self), w'. split; [| done].
  unfold Blocklist_add. step reflexivity.
  change (PyStr.startswith "ip:" item) with false.
  change (PyStr.startswith "host:" item) with false.
  change (PyStr.startswith "regex:" item) with true. cbv beta iota.
  erewrite bind_ok; [| step (eapply item_arg_eq; by apply split_regex_item); reflexivity].
  cbv beta iota. rewrite Hdb. step (exact Hrun). reflexivity.
Qed.

(** X10. On a table-backed blocklist, [add] of a host rule that is not in
    the table followed by [delete] of the same item leaves the table as it
    was before, while the object goes on matching every target with that
    host: [delete] does not touch the sets in memory. *)
Theorem add_then_delete_rule (self : Blocklist) (h : string) (w : World) :
  let item := "host:" +:+ h in
  free_of ":"%char h -> faults w = [] -> bl_database self = true ->
  item ∉ blocklist (db w) ->
  exists self' w1 w2,
    Blocklist_add self item w = (Ok self', w1) /\
    blocklist (db w1) = blocklist (db w) ++ [item] /\
    Blocklist_delete self' item w1 = (Ok tt, w2) /\
    blocklist (db w2) = blocklist (db w) /\
    (forall target, host target = Some h -> Blocklist_match self' target = Ok true).
Proof.
  intros item Hh Hw Hdb Hnew.
  destruct (add_insert_quiet (bl_insert self) item (with_connects (S (connects w)) w))
    as (w1 & Hrun & Htable & _ & _ & Hw1);
    [done | rewrite bool_decide_eq_false_2 by done; by destruct (bl_insert self) |].
  unfold table_with in Htable. rewrite bool_decide_eq_false_2 in Htable by done.
  exists (add_host h self), w1. eexists. split; [| split; [exact Htable | split; [| split]]].
  - unfold Blocklist_add. step reflexivity.
    change (PyStr.startswith "ip:" item) with false.
    change (PyStr.startswith "host:" item) with true. cbv beta iota.
    erewrite bind_ok; [| step (eapply item_arg_eq; by apply split_host_item); reflexivity].
    cbv beta iota. rewrite Hdb. step (exact Hrun). reflexivity.
  - unfold Blocklist_delete. step reflexivity. cbn [bl_database add_host]. rewrite Hdb.
    apply except_db_ok. step reflexivity.
    rewrite execute_quiet by done. reflexivity.
  - simpl. rewrite Htable. cbn [db with_connects] in *.
    rewrite filter_app, filter_cons_False by (cbv beta; intros H; by apply H).
    rewrite filter_nil, app_nil_r.
    clear -Hnew. induction (blocklist (db w)) as [|i l IH]; [done |].
    apply not_elem_of_cons in Hnew as [Hne Hl].
    rewrite filter_cons_True by (cbv beta; congruence). by rewrite IH.
  - intros target Hhost. unfold Blocklist_match.
    destruct (regex_test (add_host h self) target); [done |].
    unfold host_test. rewrite Hhost. cbn [host_set add_host].
    rewrite bool_decide_eq_true_2; [done |].
    apply elem_of_union. left. by apply elem_of_singleton.
Qed.

(** X11. Adding an item that is already in the table: the driver whose
    insert is a bare [INSERT] rejects the statement, which [add] turns into a
    logged error and exit status 1; the drivers with [INSERT OR REPLACE] and
    [UPSERT] accept it and the table is unchanged. *)
Theorem add_rule_twice (self : Blocklist) (h : string) (w : World) :
  let item := "host:" +:+ h in
  free_of ":"%char h -> faults w = [] -> bl_database self = true ->
  item ∈ blocklist (db w) ->
  (bl_insert self = INSERT ->
   exists w', Blocklist_add self item w = (Raise (SystemExit 1), w') /\
     log w' = log w ++ [(ERROR, "Failed to add blocklist item - " +:+ unique_violation)] /\
     db w' = db w) /\
  (bl_insert self <> INSERT ->
   exists w', Blocklist_add self item w = (Ok (add_host h self), w') /\
     blocklist (db w') = blocklist (db w)).
Proof.
  intros item Hh Hw Hdb Hin. split.
  - intros Hins. eexists. split.
    + unfold Blocklist_add. step reflexivity.
      change (PyStr.startswith "ip:" item) with false.
      change (PyStr.startswith "host:" item) with true. cbv beta iota.
      erewrite bind_ok; [| step (eapply item_arg_eq; by apply split_host_item); reflexivity].
      cbv beta iota. rewrite Hdb, Hins.
      apply bind_raise. unfold except_db.
      erewrite bind_ok by reflexivity.
      rewrite execute_quiet by done. unfold run. simpl.
      rewrite bool_decide_eq_true_2 by done. reflexivity.
    + done.
  - intros Hins.
    destruct (add_insert_quiet (bl_insert self) item (with_connects (S (connects w)) w))
      as (w' & Hrun & Htable & _);
      [done | rewrite bool_decide_eq_true_2 by done; by destruct (bl_insert self) |].
    unfold table_with in Htable. rewrite bool_decide_eq_true_2 in Htable by done.
    exists w'. split; [| exact Htable].
    unfold Blocklist_add. step reflexivity.
    change (PyStr.startswith "ip:" item) with false.
    change (PyStr.startswith "host:" item) with true. cbv beta iota.
    erewrite bind_ok; [| step (eapply item_arg_eq; by apply split_host_item); reflexivity].
    cbv beta iota. rewrite Hdb. step (exact Hrun). reflexivity.
Qed.

End Rules.

(** ** Listing the rules and loading the list *)

Section Listed.
Context `{E : Env}.

Lemma split_ip_item s : free_of ":"%char s ->
  PyStr.split ":"%char ("ip:" +:+ s) = ["ip"; s].
Proof.
  intros Hs. change ("ip:" +:+ s) with ("ip" +:+ String ":"%char s).
  rewrite split_app_sep by reflexivity. by rewrite split_free.
Qed.

Lemma split_plain_regex_item p : free_of ":"%char p ->
  PyStr.split ":"%char ("regex:" +:+ p) = ["regex"; p].
Proof.
  intros Hp. change ("regex:" +:+ p) with ("regex" +:+ String ":"%char p).
  rewrite split_app_sep by reflexivity. by rewrite split_free.
Qed.

Lemma parse_items_hosts hs : forall rest ip_net self w,
  Forall (free_of ":"%char) hs ->
  parse_items (((fun i => "host:" +:+ i) <$> hs) ++ rest) ip_net self w =
  parse_items rest ip_net (foldl (fun b h => add_host h b) self hs) w.
Proof.
  induction hs as [|h hs IH]; intros rest ip_net self w Hall; [done |].
  apply Forall_cons in Hall as [Hh Hall].
  rewrite fmap_cons, <- app_comm_cons, parse_items_unfold.
  change (PyStr.startswith "ip:" ("host:" +:+ h)) with false.
  change (PyStr.startswith "host:" ("host:" +:+ h)) with true. cbv beta iota.
  step (eapply item_arg_eq; by apply split_host_item).
  by rewrite IH.
Qed.

Lemma parse_items_regexes ps : forall rest ip_net self w,
  Forall (free_of ":"%char) ps ->
  parse_items (((fun i => "regex:" +:+ i) <$> ps) ++ rest) ip_net self w =
  parse_items rest ip_net (foldl (fun b p => add_regex p b) self ps) w.
Proof.
  induction ps as [|p ps IH]; intros rest ip_net self w Hall; [done |].
  apply Forall_cons in Hall as [Hp Hall].
  rewrite fmap_cons, <- app_comm_cons, parse_items_unfold.
  change (PyStr.startswith "ip:" ("regex:" +:+ p)) with false.
  change (PyStr.startswith "host:" ("regex:" +:+ p)) with false.
  change (PyStr.startswith "regex:" ("regex:" +:+ p)) with true. cbv beta iota.
  step (eapply item_arg_eq; by apply split_plain_regex_item).
  by rewrite IH.
Qed.

Lemma parse_items_ips ss : forall rest ip_net self w,
  Forall (fun s => free_of ":"%char s /\ exists n, ip_network s = Parsed n) ss ->
  exists ip_net' self',
    parse_items (((fun i => "ip:" +:+ i) <$> ss) ++ rest) ip_net self w =
    parse_items rest ip_net' self' w /\
    host_set self' = host_set self /\ regex_set self' = regex_set self /\
    regex self' = regex self /\
    (forall n, n ∈ ip_set self' <->
       n ∈ ip_set self \/ exists s, s ∈ ss /\ ip_network s = Parsed n).
Proof.
  induction ss as [|s ss IH]; intros rest ip_net self w Hall.
  - exists ip_net, self. split; [done |]. repeat split; try done.
    + by left.
    + intros [? | (s & Hs & _)]; [done | by apply elem_of_nil in Hs].
  - apply Forall_cons in Hall as [[Hs [n Hn]] Hall].
    destruct (IH rest (Some n) (add_ip n self) w Hall)
      as (ip_net' & self' & Hrun & Hh & Hr & Hre & Hip).
    exists ip_net', self'. split; [| split; [done | split; [done | split; [done |]]]].
    + rewrite fmap_cons, <- app_comm_cons, parse_items_unfold.
      change (PyStr.startswith "ip:" ("ip:" +:+ s)) with true. cbv beta iota.
      step (eapply item_arg_eq; by apply split_ip_item).
      rewrite Hn. step reflexivity. exact Hrun.
    + intros m. rewrite Hip. cbn [ip_set add_ip]. rewrite elem_of_union, elem_of_singleton.
      split.
      * intros [[-> | Hm] | (s' & Hs' & Hm)].
        -- right. exists s. split; [left | done].
        -- by left.
        -- right. exists s'. split; [by right | done].
      * intros [Hm | (s' & [-> | Hs']%elem_of_cons & Hm)].
        -- left. by right.
        -- left. left. congruence.
        -- right. by exists s'.
Qed.

Lemma fold_add_host hs : forall b,
  host_set (foldl (fun b h => add_host h b) b hs) = list_to_set hs ∪ host_set b /\
  ip_set (foldl (fun b h => add_host h b) b hs) = ip_set b /\
  regex_set (foldl (fun b h => add_host h b) b hs) = regex_set b /\
  regex (foldl (fun b h => add_host h b) b hs) = regex b.
Proof.
  induction hs as [|h hs IH]; intros b; simpl.
  - split; [by rewrite union_empty_l_L | done].
  - destruct (IH (add_host h b)) as (H1 & H2 & H3 & H4).
    rewrite H1, H2, H3, H4. split; [| done].
    cbn [host_set add_host]. apply set_eq. intros x.
    rewrite !elem_of_union. tauto.
Qed.

Lemma fold_add_regex ps : forall b,
  regex_set (foldl (fun b p => add_regex p b) b ps) = list_to_set ps ∪ regex_set b /\
  ip_set (foldl (fun b p => add_regex p b) b ps) = ip_set b /\
  host_set (foldl (fun b p => add_regex p b) b ps) = host_set b /\
  regex (foldl (fun b p => add_regex p b) b ps) = regex b.
Proof.
  induction ps as [|p ps IH]; intros b; simpl.
  - split; [by rewrite union_empty_l_L | done].
  - destruct (IH (add_regex p b)) as (H1 & H2 & H3 & H4).
    rewrite H1, H2, H3, H4. split; [| done].
    cbn [regex_set add_regex]. apply set_eq. intros x.
    rewrite !elem_of_union. tauto.
Qed.

(** X12. The list [get_parsed_items] gives loads back into the same rules:
    when no host or pattern holds a colon, every network is written without
    a colon and in a form [ip_network] reads back, and the joined pattern
    compiles, [parse_list] on that list in an object without rules ends with
    the three sets of the listed object, logs nothing and raises nothing. *)
Theorem listed_items_load_back (str_address : ipver -> Z -> string)
    (str_network : IPNetwork -> string) (b self0 : Blocklist) (w : World) :
  let pattern := PyStr.join "|" (elements (regex_set b)) in
  ip_set self0 = ∅ -> host_set self0 = ∅ -> regex_set self0 = ∅ ->
  (forall n, n ∈ ip_set b ->
     free_of ":"%char (listed_network str_address str_network n) /\
     ip_network (listed_network str_address str_network n) = Parsed n) ->
  (forall h, h ∈ host_set b -> free_of ":"%char h) ->
  (forall p, p ∈ regex_set b -> free_of ":"%char p) ->
  pattern = EmptyString \/ re_valid pattern = true ->
  exists b',
    parse_list self0 (get_parsed_items str_address str_network b) w = (Ok b', w) /\
    ip_set b' = ip_set b /\ host_set b' = host_set b /\ regex_set b' = regex_set b /\
    regex b' = if decide (pattern = EmptyString) then None else Some pattern.
Proof.
  intros pattern Hip0 Hhost0 Hre0 Hnets Hhosts Hpats Hvalid.
  unfold get_parsed_items.
  fold (listed_network str_address str_network).
  set (ss := elements (list_to_set (listed_network str_address str_network <$>
                                      elements (ip_set b)) : gset string)).
  assert (Hss : forall s, s ∈ ss <-> exists n, n ∈ ip_set b /\
                  s = listed_network str_address str_network n).
  { intros s. unfold ss. rewrite elem_of_elements, elem_of_list_to_set, list_elem_of_fmap.
    split; intros (n & H1 & H2); exists n; [by apply elem_of_elements in H2 |].
    split; [done | by apply elem_of_elements]. }
  destruct (parse_items_ips ss
              (((fun i => "host:" +:+ i) <$> elements (host_set b)) ++
               ((fun i => "regex:" +:+ i) <$> elements (regex_set b))) None self0 w)
    as (ip_net' & self1 & Hrun1 & Hh1 & Hr1 & Hre1 & Hip1).
  { apply Forall_forall. intros s (n & Hn & ->)%Hss.
    destruct (Hnets n Hn) as [Hfree Hparse]. split; [done | by exists n]. }
  set (self2 := foldl (fun b h => add_host h b) self1 (elements (host_set b))).
  set (self3 := foldl (fun b p => add_regex p b) self2 (elements (regex_set b))).
  destruct (fold_add_host (elements (host_set b)) self1) as (Hh2 & Hip2 & Hr2 & Hre2).
  destruct (fold_add_regex (elements (regex_set b)) self2) as (Hr3 & Hip3 & Hh3 & Hre3).
  fold self2 in Hh2, Hip2, Hr2, Hre2. fold self3 in Hr3, Hip3, Hh3, Hre3.
  assert (Hitems : parse_items
            (((fun i => "ip:" +:+ i) <$> ss) ++
             ((fun i => "host:" +:+ i) <$> elements (host_set b)) ++
             ((fun i => "regex:" +:+ i) <$> elements (regex_set b))) None self0 w =
          (Ok self3, w)).
  { rewrite Hrun1, parse_items_hosts
      by (apply Forall_forall; intros h Hh; apply Hhosts; by apply elem_of_elements).
    rewrite <- (app_nil_r (_ <$> elements (regex_set b))).
    rewrite parse_items_regexes
      by (apply Forall_forall; intros p Hp; apply Hpats; by apply elem_of_elements).
    reflexivity. }
  assert (Hset_ip : ip_set self3 = ip_set b).
  { rewrite Hip3, Hip2. apply set_eq. intros n. rewrite Hip1, Hip0. split.
    - intros [Hn | (s & (n0 & Hn0 & ->)%Hss & Hparse)]; [by apply elem_of_empty in Hn |].
      destruct (Hnets n0 Hn0) as [_ Hp0]. rewrite Hp0 in Hparse. by injection Hparse as <-.
    - intros Hn. right. exists (listed_network str_address str_network n).
      split; [apply Hss; by exists n | by apply Hnets]. }
  assert (Hset_host : host_set self3 = host_set b).
  { rewrite Hh3, Hh2, Hh1, Hhost0. apply set_eq. intros h.
    rewrite elem_of_union, elem_of_list_to_set, elem_of_elements.
    split; [intros [? | []%elem_of_empty]; done | by left]. }
  assert (Hset_re : regex_set self3 = regex_set b).
  { rewrite Hr3, Hr2, Hr1, Hre0. apply set_eq. intros p.
    rewrite elem_of_union, elem_of_list_to_set, elem_of_elements.
    split; [intros [? | []%elem_of_empty]; done | by left]. }
  unfold parse_list. step (exact Hitems). rewrite Hset_re. fold pattern.
  destruct (decide (pattern = EmptyString)) as [Hempty | Hne].
  - eexists. split; [reflexivity | done].
  - destruct Hvalid as [? | ->]; [done |].
    eexists. split; [reflexivity | done].
Qed.

End Listed.

(** ** Module arguments *)

Section Arguments.
Context `{E : Env}.

Lemma format_args_loop_spec l : forall acc,
  (Forall (fun a => PyStr.startswith "--" a = false) l ->
   format_args_loop l acc = Ok (acc ++ ((fun a => "--" +:+ a) <$> l))) /\
  (Exists (fun a => PyStr.startswith "--" a = true) l ->
   format_args_loop l acc = Raise (AttributeError "add")).
Proof.
  induction l as [|a l IH]; intros acc; cbn [format_args_loop].
  - split; [intros _; by rewrite app_nil_r | by intros H%Exists_nil].
  - destruct (PyStr.startswith "--" a) eqn:Ha.
    + split; [intros [H _]%Forall_cons; cbv beta in H; congruence | done].
    + destruct (IH (acc ++ ["--" +:+ a])) as [IH1 IH2]. split.
      * intros [_ Hl]%Forall_cons. rewrite (IH1 Hl). by rewrite <- app_assoc.
      * intros [H | Hl]%Exists_cons; [cbv beta in H; congruence | by apply IH2].
Qed.

(** X13. [format_module_args] puts ["--"] in front of every argument when
    none of them starts with it already; as soon as one argument does start
    with ["--"], the call raises [AttributeError] instead of keeping that
    argument; an absent list gives the empty list. *)
Theorem format_module_args_spec (l : list string) :
  (Forall (fun a => PyStr.startswith "--" a = false) l ->
   format_module_args (Some l) = Ok ((fun a => "--" +:+ a) <$> l)) /\
  (Exists (fun a => PyStr.startswith "--" a = true) l ->
   format_module_args (Some l) = Raise (AttributeError "add")) /\
  format_module_args None = Ok [].
Proof.
  destruct (format_args_loop_spec l []) as [H1 H2].
  split; [exact H1 |]. split; [exact H2 | reflexivity].
Qed.

End Arguments.

(** ** Indexing *)

Section Indexing.
Context `{E : Env}.

Lemma match_each_fresh_eq bs u : forall w,
  exists w', match_each_fresh bs u w = (match_each bs (target_of u), w') /\
    db w' = db w /\ faults w' = faults w.
Proof.
  induction bs as [|b bs IH]; intros w.
  - exists w. done.
  - destruct (Target_init_quiet u w) as (w1 & H1 & Hdb1 & Hf1 & _).
    destruct (IH w1) as (w2 & H2 & Hdb2 & Hf2).
    cbn [match_each_fresh match_each]. step (exact H1).
    destruct (Blocklist_match b (target_of u)) as [x | e |] eqn:Hb.
    + step reflexivity.
      destruct (match_each bs (target_of u)) as [xs | e |] eqn:Hbs.
      * step (exact H2). exists w2. split; [reflexivity |]. split; congruence.
      * exists w2. split; [by apply bind_raise |]. split; congruence.
      * exists w2. split; [unfold bind; by rewrite H2 |]. split; congruence.
    + exists w1. split; [by apply bind_raise | done].
    + exists w1. split; [reflexivity | done].
Qed.

Lemma allowedb_true bs u : allowedb bs u = true <-> allowed bs u.
Proof.
  unfold allowedb, allowed. destruct (match_each bs (target_of u)) as [l | e |].
  - rewrite negb_true_iff, bool_decide_eq_false. split.
    + intros Hl. by exists l.
    + by intros (l' & [= <-] & Hl).
  - split; [done | by intros (l & ? & _)].
  - split; [done | by intros (l & ? & _)].
Qed.

Lemma allowedb_false bs u : blocked bs u -> allowedb bs u = false.
Proof.
  unfold allowedb. intros (l & -> & Hl). by rewrite bool_decide_eq_true_2.
Qed.

(** The loop keeps, in order, the URLs that no blocklist matches. *)
Lemma index_loop_quiet bs urls : forall acc w,
  Forall (fun u => allowed bs u \/ blocked bs u) urls ->
  exists w', index_loop bs urls acc w =
             (Ok (acc ++ filter (fun u => allowedb bs u) urls), w') /\
    db w' = db w /\ faults w' = faults w.
Proof.
  induction urls as [|u urls IH]; intros acc w Hall.
  - exists w. split; [by rewrite app_nil_r | done].
  - apply Forall_cons in Hall as [Hu Hall].
    destruct (match_each_fresh_eq bs u w) as (w1 & H1 & Hdb1 & Hf1).
    cbn [index_loop]. destruct Hu as [Hu | Hu].
    + pose proof (proj2 (allowedb_true bs u) Hu) as Hb.
      destruct Hu as (l & Hl & Hnot). rewrite Hl in H1. step (exact H1).
      rewrite bool_decide_eq_false_2 by done.
      destruct (IH (acc ++ [u]) w1 Hall) as (w' & Hrun & Hdb & Hf).
      exists w'. split; [| split; congruence].
      rewrite Hrun, filter_cons_True by (cbv beta; by rewrite Hb).
      by rewrite <- app_assoc.
    + pose proof (allowedb_false bs u Hu) as Hb.
      destruct Hu as (l & Hl & Hin). rewrite Hl in H1. step (exact H1).
      rewrite bool_decide_eq_true_2 by done. step reflexivity.
      destruct (IH acc (with_log (log w1 ++
                  [(DEBUG, "Ignoring (matches blocklist pattern): " +:+ u)]) w1) Hall)
        as (w' & Hrun & Hdb & Hf).
      exists w'. split; [| split; [by rewrite Hdb | by rewrite Hf]].
      rewrite Hrun, filter_cons_False by (cbv beta; rewrite Hb; exact id). reflexivity.
Qed.

(** [index] on a database that answers, when no blocklist raises. *)
Lemma index_quiet d about bs urls module_source args_source true_label w :
  let self := TargetDatabase_init d in
  let source := index_source module_source args_source true_label in
  faults w = [] -> NoDup (row_url <$> targets (db w)) ->
  Forall (fun u => allowed bs u \/ blocked bs u) urls ->
  exists w', index self bs about urls module_source args_source true_label w = (Ok tt, w') /\
    (forall u, u ∈ urls -> allowed bs u ->
       lookup_url u (targets (db w')) =
       Some (after_insert (insert self) u (Some source) (lookup_url u (targets (db w))))) /\
    (forall u, blocked bs u \/ u ∉ urls ->
       lookup_url u (targets (db w')) = lookup_url u (targets (db w))) /\
    fingerprints (db w') = fingerprints (db w) /\
    NoDup (row_url <$> targets (db w')).
Proof.
  intros self source Hw Hnd Hall.
  pose proof (init_driver_syntax d) as Hsyn. fold self in Hsyn.
  destruct (index_loop_quiet bs urls [] (with_log (log w ++ [(INFO, "Indexing: " +:+ about)]) w)
              Hall) as (w1 & H1 & Hdb1 & Hf1).
  set (kept := filter (fun u => allowedb bs u) urls) in *.
  destruct (add_targets_quiet self kept (Some source) (with_connects (S (connects w1)) w1))
    as (w' & Hrun & Hts & Hfp & _); [simpl; by rewrite Hf1 | exact Hsyn |].
  cbn [db with_connects] in Hts, Hfp. rewrite Hdb1 in Hts, Hfp. cbn [db with_log] in Hts, Hfp.
  destruct (foldl_upsert_spec (insert self) (conflict self) (Some source) kept
              (targets (db w)) Hsyn Hnd) as (Hnd' & Hin & Hout).
  rewrite <- Hts in Hnd', Hin, Hout.
  exists w'. split; [| split; [| split; [| split; [exact Hfp | exact Hnd']]]].
  - unfold index. step reflexivity. cbv zeta. fold source.
    step (exact H1). step reflexivity. exact Hrun.
  - intros u Hu Hallowed. apply Hin. apply list_elem_of_filter.
    split; [| exact Hu]. apply Is_true_true. by apply allowedb_true.
  - intros u Hu. apply Hout. intros Hkept. apply list_elem_of_filter in Hkept as [Hb Hk].
    destruct Hu as [Hblocked | Hout']; [| done].
    rewrite (allowedb_false bs u Hblocked) in Hb. exact Hb.
Qed.

(** When the loop returns, no blocklist has raised on a URL of the
    batch. *)
Lemma index_loop_decided bs urls : forall acc w l w',
  index_loop bs urls acc w = (Ok l, w') ->
  Forall (fun u => allowed bs u \/ blocked bs u) urls.
Proof.
  induction urls as [|u urls IH]; intros acc w l w' Hrun; [constructor |].
  cbn [index_loop] in Hrun.
  apply bind_Ok_inv in Hrun as (x & w1 & Hmatch & Hrun).
  destruct (match_each_fresh_eq bs u w) as (w2 & Hm & _).
  rewrite Hm in Hmatch. injection Hmatch as Hx <-.
  constructor.
  - unfold allowed, blocked. destruct (decide (true ∈ x)); [right | left]; by exists x.
  - destruct (bool_decide (true ∈ x)).
    + apply bind_Ok_inv in Hrun as ([] & w3 & _ & Hrun). by eapply IH.
    + by eapply IH.
Qed.

(** X14. Whenever [index] returns on a database that answers: no
    blocklist has raised on a URL of the batch; every URL of the batch that
    no blocklist matches has the row the driver's insert gives it, with the
    label from [--source] (for the bare flag, what the driver makes of
    [True]) or else the indexer's; the row of a URL that a blocklist
    matches, and of any URL outside the batch, is as before (a blocked URL
    without a row does not get one); the fingerprints are untouched and URLs
    stay unique. *)
Theorem index_adds_allowed_only (d about : string) (bs : list Blocklist)
    (urls : list string) (module_source : string) (args_source : source_arg)
    (true_label : string) (w w' : World) :
  let self := TargetDatabase_init d in
  let source := index_source module_source args_source true_label in
  faults w = [] -> NoDup (row_url <$> targets (db w)) ->
  index self bs about urls module_source args_source true_label w = (Ok tt, w') ->
  Forall (fun u => allowed bs u \/ blocked bs u) urls /\
  (forall u, u ∈ urls -> allowed bs u ->
     lookup_url u (targets (db w')) =
     Some (after_insert (insert self) u (Some source) (lookup_url u (targets (db w))))) /\
  (forall u, blocked bs u \/ u ∉ urls ->
     lookup_url u (targets (db w')) = lookup_url u (targets (db w))) /\
  fingerprints (db w') = fingerprints (db w) /\
  NoDup (row_url <$> targets (db w')).
Proof.
  intros self source Hw Hnd Hrun.
  assert (Hall : Forall (fun u => allowed bs u \/ blocked bs u) urls).
  { unfold index in Hrun.
    apply bind_Ok_inv in Hrun as ([] & w1 & _ & Hrun). cbv zeta in Hrun.
    apply bind_Ok_inv in Hrun as (l & w2 & Hloop & _).
    by eapply index_loop_decided. }
  destruct (index_quiet d about bs urls module_source args_source true_label w Hw Hnd Hall)
    as (w1 & Hrun1 & Hrest).
  fold self in Hrun1. rewrite Hrun1 in Hrun. injection Hrun as <-.
  split; [exact Hall | exact Hrest].
Qed.

End Indexing.

(** ** Scanning *)

Section Scanning.
Context `{E : Env}.

Hint Resolve keeps_Target_init keeps_mark_scanned keeps_get_scanned
  keeps_delete_target keeps_match_any keeps_get_next_target : keeps.

Lemma scan_loop_unfold fuel gfuel self bs run count random scanned :
  scan_loop (S fuel) gfuel self bs run count random scanned =
  (if (scanned <? count) || (count =? -1) then
     connect ;;
     target <- get_next_target gfuel self random ;;
     match target with
     | None => ret []
     | Some target =>
         blocked <- match_any bs target ;;
         if (blocked : bool) then
           logging DEBUG ("Deleting (matches blocklist pattern): " +:+ url target) ;;
           delete_target (url target) ;;
           scan_loop fuel gfuel self bs run count random scanned
         else
           logging INFO ("Scanning: " +:+ url target) ;;
           let results := run target in
           match results with
           | None =>
               logging ERROR ("Scan failed: " +:+ url target) ;;
               rest <- scan_loop fuel gfuel self bs run count random (scanned + 1) ;;
               ret ((target, results) :: rest)
           | Some _ =>
               rest <- scan_loop fuel gfuel self bs run count random (scanned + 1) ;;
               ret ((target, results) :: rest)
           end
     end
   else ret []).
Proof. reflexivity. Qed.

Lemma keeps_scan_loop fuel gfuel self bs run count random : forall scanned,
  keeps_fingerprints (scan_loop fuel gfuel self bs run count random scanned).
Proof.
  induction fuel as [|fuel IH]; intros scanned; [apply keeps_diverge |].
  rewrite scan_loop_unfold. keeps. cbv zeta. keeps.
Qed.

(** The steps of one iteration that has claimed a target and goes on. *)
Lemma scan_step_inv fuel gfuel self bs run count random scanned w trace w' :
  scan_loop (S fuel) gfuel self bs run count random scanned w = (Ok trace, w') ->
  trace = [] \/
  exists t w2 l w3,
    ((scanned <? count) || (count =? -1)) = true /\
    get_next_target gfuel self random (with_connects (S (connects w)) w) = (Ok (Some t), w2) /\
    match_each bs t = Ok l /\
    ((true ∈ l /\
      delete_target (url t)
        (with_log (log w2 ++ [(DEBUG, "Deleting (matches blocklist pattern): " +:+ url t)]) w2)
        = (Ok tt, w3) /\
      scan_loop fuel gfuel self bs run count random scanned w3 = (Ok trace, w')) \/
     ((true ∉ l) /\ db w3 = db w2 /\ faults w3 = faults w2 /\
      exists rest, trace = (t, run t) :: rest /\
        scan_loop fuel gfuel self bs run count random (scanned + 1) w3 = (Ok rest, w'))).
Proof.
  rewrite scan_loop_unfold.
  destruct ((scanned <? count) || (count =? -1)) eqn:Hc; [| intros [= <- _]; by left].
  intros H. apply bind_Ok_inv in H as ([] & w1 & [= <-] & H).
  apply bind_Ok_inv in H as ([t|] & w2 & Hget & H); [| injection H as <- _; by left].
  apply bind_Ok_inv in H as (b & w2' & Hm & H).
  rewrite match_any_eq in Hm.
  destruct (match_each bs t) as [l | |] eqn:Hl; try discriminate.
  injection Hm as <- <-.
  destruct (bool_decide (true ∈ l)) eqn:Hb.
  - apply bool_decide_eq_true in Hb.
    apply bind_Ok_inv in H as ([] & w2' & [= <-] & H).
    apply bind_Ok_inv in H as ([] & w3 & Hdel & H).
    right. exists t, w2, l, w3. split; [done |]. split; [exact Hget |]. split; [done |].
    left. done.
  - apply bool_decide_eq_false in Hb.
    apply bind_Ok_inv in H as ([] & w3 & [= <-] & H). cbv zeta in H.
    destruct (run t) as [res|] eqn:Hres.
    + apply bind_Ok_inv in H as (rest & w4 & Hrest & [= <- <-]).
      right. eexists t, w2, l, _. split; [done |]. split; [exact Hget |]. split; [done |].
      right. split; [done |].
      split; [| split; [| exists rest; split; [by rewrite Hres | exact Hrest]]];
        reflexivity.
    + apply bind_Ok_inv in H as ([] & w4 & [= <-] & H).
      apply bind_Ok_inv in H as (rest & w5 & Hrest & [= <- <-]).
      right. eexists t, w2, l, _. split; [done |]. split; [exact Hget |]. split; [done |].
      right. split; [done |].
      split; [| split; [| exists rest; split; [by rewrite Hres | exact Hrest]]];
        reflexivity.
Qed.

Lemma scan_loop_bounded fuel gfuel self bs run count random : forall scanned w trace w',
  scan_loop fuel gfuel self bs run count random scanned w = (Ok trace, w') ->
  (count <> -1 -> Z.of_nat (length trace) <= Z.max 0 (count - scanned)) /\
  Forall (fun x => unmatched bs x.1 /\ x.2 = run x.1) trace.
Proof.
  induction fuel as [|fuel IH]; intros scanned w trace w' Hrun; [discriminate |].
  apply scan_step_inv in Hrun as [-> | (t & w2 & l & w3 & Hc & _ & Hl & Hcase)].
  - split; [simpl; lia | constructor].
  - destruct Hcase as [(_ & _ & Hrest) | (Hnot & _ & _ & rest & -> & Hrest)].
    + by apply IH in Hrest.
    + apply IH in Hrest as [Hlen Hall]. split.
      * intros Hcount. specialize (Hlen Hcount).
        apply orb_true_iff in Hc as [Hc | Hc]; [| lia].
        apply Z.ltb_lt in Hc. simpl length. lia.
      * constructor; [| exact Hall]. split; [by exists l | done].
Qed.

(** X15. Whatever the database does, when [scan] returns, the scanner was
    run at most [count] times (for a [count] other than -1), and only on
    targets that none of the blocklists matches; each entry of the record is
    the scanner's own result for that target. *)
Theorem scan_bounded (fuel gfuel : nat) (self : TargetDatabase) (bs : list Blocklist)
    (run : Target -> option string) (count : Z) (random : bool)
    (w w' : World) (trace : list (Target * option string)) :
  scan fuel gfuel self bs run count random w = (Ok trace, w') ->
  (count <> -1 -> Z.of_nat (length trace) <= Z.max 0 count) /\
  Forall (fun x => unmatched bs x.1 /\ x.2 = run x.1) trace.
Proof.
  intros Hrun. apply scan_loop_bounded in Hrun as [Hlen Hall].
  split; [| exact Hall]. intros Hc. specialize (Hlen Hc). lia.
Qed.

Lemma scan_loop_distinct fuel gfuel self bs run count random :
  (2 <= gfuel)%nat -> forall scanned w trace w',
  faults w = [] ->
  scan_loop fuel gfuel self bs run count random scanned w = (Ok trace, w') ->
  NoDup (scanned_fingerprint <$> trace) /\
  (forall x, x ∈ trace ->
     (scanned_fingerprint x ∉ fingerprints (db w)) /\
     scanned_fingerprint x ∈ fingerprints (db w')).
Proof.
  intros Hg. induction fuel as [|fuel IH]; intros scanned w trace w' Hw Hrun; [discriminate |].
  apply scan_step_inv in Hrun as [-> | (t & w2 & l & w3 & Hc & Hget & Hl & Hcase)].
  - split; [constructor | intros x Hx; by apply elem_of_nil in Hx].
  - destruct (claimed_facts gfuel self random
                (with_connects (S (connects w)) w) w2 t Hw Hg Hget)
      as (_ & Hnew & Hfp2 & _ & _ & Hw2).
    cbn [db with_connects] in Hnew, Hfp2.
    destruct Hcase as [(_ & Hdel & Hrest) | (Hnot & Hdb3 & Hf3 & rest & -> & Hrest)].
    + destruct (delete_target_quiet (url t)
                  (with_log (log w2 ++ [(DEBUG, "Deleting (matches blocklist pattern): " +:+ url t)]) w2))
        as (w3' & Hdel' & Hdb3 & Hw3); [done |].
      rewrite Hdel in Hdel'. injection Hdel' as <-.
      destruct (IH scanned w3 trace w' Hw3 Hrest) as [Hnd Hall].
      split; [exact Hnd |]. intros x Hx. destruct (Hall x Hx) as [Hout Hin].
      split; [| exact Hin]. intros Hold. apply Hout.
      rewrite Hdb3. unfold db_delete. cbn [fingerprints with_targets db with_log].
      rewrite Hfp2. apply elem_of_union. by right.
    + assert (Hw3 : faults w3 = []) by congruence.
      destruct (IH (scanned + 1) w3 rest w' Hw3 Hrest) as [Hnd Hall].
      assert (Hin3 : generate_fingerprint (url t) ∈ fingerprints (db w3)).
      { rewrite Hdb3, Hfp2. apply elem_of_union. left. by apply elem_of_singleton. }
      split.
      * rewrite fmap_cons. apply NoDup_cons. split; [| exact Hnd].
        intros Hdup. apply list_elem_of_fmap in Hdup as (x & Hx & Hxin).
        destruct (Hall x Hxin) as [Hout _]. apply Hout. rewrite <- Hx. exact Hin3.
      * intros x [-> | Hx]%elem_of_cons.
        -- split; [exact Hnew |].
           pose proof (keeps_scan_loop fuel gfuel self bs run count random (scanned + 1) w3)
             as Hkeep.
           rewrite Hrest in Hkeep. apply Hkeep. exact Hin3.
        -- destruct (Hall x Hx) as [Hout Hin]. split; [| exact Hin].
           intros Hold. apply Hout. rewrite Hdb3, Hfp2. apply elem_of_union. by right.
Qed.

(** X16. On a database that answers, the targets one run of [scan] gives
    to the scanner have pairwise different fingerprints, none of them was
    recorded before the run and all of them are recorded after it. *)
Theorem scan_never_repeats_a_fingerprint (fuel gfuel : nat) (self : TargetDatabase)
    (bs : list Blocklist) (run : Target -> option string) (count : Z) (random : bool)
    (w w' : World) (trace : list (Target * option string)) :
  faults w = [] -> (2 <= gfuel)%nat ->
  scan fuel gfuel self bs run count random w = (Ok trace, w') ->
  NoDup (scanned_fingerprint <$> trace) /\
  (forall x, x ∈ trace ->
     (scanned_fingerprint x ∉ fingerprints (db w)) /\
     scanned_fingerprint x ∈ fingerprints (db w')).
Proof. intros Hw Hg Hrun. by eapply scan_loop_distinct. Qed.

End Scanning.

(** ** The scan loop ends *)

Section Termination.
Context `{E : Env}.

Lemma unscanned_mark_row u r :
  unscanned (mark_row u r) = unscanned r && negb (has_url u r).
Proof.
  unfold mark_row. destruct (has_url u r); simpl.
  - by rewrite andb_false_r.
  - by rewrite andb_true_r.
Qed.

Lemma pending_mark_le u ts :
  (length (filter (fun r => unscanned r) (mark_row u <$> ts)) <=
   length (filter (fun r => unscanned r) ts))%nat.
Proof.
  induction ts as [|r ts IH]; [done |].
  rewrite fmap_cons, !filter_cons, unscanned_mark_row.
  destruct (unscanned r), (has_url u r); simpl; repeat case_decide;
    simpl in *; try tauto; lia.
Qed.

Lemma pending_mark_lt u r0 ts :
  r0 ∈ ts -> unscanned r0 = true -> row_url r0 = u ->
  (length (filter (fun r => unscanned r) (mark_row u <$> ts)) <
   length (filter (fun r => unscanned r) ts))%nat.
Proof.
  intros Hin Hun Hu. induction ts as [|r ts IH]; [by apply elem_of_nil in Hin |].
  rewrite fmap_cons, !filter_cons, unscanned_mark_row.
  apply elem_of_cons in Hin as [<- | Hin].
  - pose proof (pending_mark_le u ts) as Hle.
    assert (Hhas : has_url u r0 = true) by (by apply bool_decide_eq_true).
    rewrite Hun, Hhas. simpl. repeat case_decide; simpl in *; try tauto; lia.
  - specialize (IH Hin).
    destruct (unscanned r), (has_url u r); simpl; repeat case_decide;
      simpl in *; try tauto; lia.
Qed.

Lemma pending_delete_le u s : (pending (db_delete u s) <= pending s)%nat.
Proof.
  unfold pending, db_delete. destruct s as [ts fps bl]. simpl.
  induction ts as [|r ts IH]; [done |].
  rewrite !filter_cons. repeat case_decide; rewrite ?filter_cons;
    repeat case_decide; simpl; try tauto; lia.
Qed.

Lemma ip_loop_returns nets t : ip_loop nets t <> Diverge.
Proof.
  induction nets as [|n nets IH]; simpl; [done |].
  destruct (ip t) as [| [a|]]; [done | | done].
  by destruct (ip_in_network a n).
Qed.

Lemma match_each_returns bs t : match_each bs t <> Diverge.
Proof.
  induction bs as [|b bs IH]; simpl; [done |].
  pose proof (ip_loop_returns (elements (ip_set b)) t) as Hip.
  unfold Blocklist_match.
  destruct (regex_test b t); [| destruct (host_test b t)].
  - by destruct (match_each bs t).
  - by destruct (match_each bs t).
  - destruct (ip_loop (elements (ip_set b)) t); [| done | done].
    by destruct (match_each bs t).
Qed.

Lemma scan_loop_ends gfuel self bs run count :
  (2 <= gfuel)%nat -> forall fuel scanned w,
  faults w = [] -> (pending (db w) < fuel)%nat ->
  exists r w', scan_loop fuel gfuel self bs run count false scanned w = (r, w') /\
    r <> Diverge.
Proof.
  intros Hg. induction fuel as [|fuel IH]; intros scanned w Hw Hp; [lia |].
  rewrite scan_loop_unfold.
  destruct ((scanned <? count) || (count =? -1));
    [| eexists _, _; split; [reflexivity | done]].
  step reflexivity.
  destruct (get_next_target_cases gfuel self false (with_connects (S (connects w)) w) Hw Hg)
    as (r & w2 & Hget & Hw2 & Hcases).
  destruct Hcases as [[-> _] | [(u & cols & rest & _ & _ & -> & _) |
                     [(u & cols & rest & Hsel & _ & -> & Hdb) | (e & -> & _)]]].
  - step (exact Hget). eexists _, _. split; [reflexivity | done].
  - step (exact Hget). eexists _, _. split; [reflexivity | done].
  - step (exact Hget).
    assert (Hp2 : (pending (db w2) < fuel)%nat).
    { apply selected_in_order in Hsel as (r0 & rs & Hfil & Hr0).
      cbn [db with_connects] in Hfil, Hdb.
      assert (Hin : r0 ∈ filter (fun r => unscanned r) (targets (db w)))
        by (rewrite Hfil; apply elem_of_cons; by left).
      apply list_elem_of_filter in Hin as [Hun Hin].
      apply Is_true_eq_true in Hun.
      pose proof (pending_mark_lt u r0 (targets (db w)) Hin Hun Hr0) as Hlt.
      rewrite Hdb. unfold pending in *. unfold db_mark.
      destruct (db w) as [ts fps bl]. simpl in *. lia. }
    unfold bind at 1. rewrite match_any_eq.
    pose proof (match_each_returns bs (target_of u)) as Hret.
    destruct (match_each bs (target_of u)) as [l | e |]; [| | done].
    + destruct (bool_decide (true ∈ l)).
      * step reflexivity.
        match goal with |- context [bind (delete_target ?x) _ ?y] =>
          destruct (delete_target_quiet x y) as (w3 & Hdel & Hdb3 & Hw3); [exact Hw2 |]
        end.
        step (exact Hdel).
        apply IH; [exact Hw3 |]. rewrite Hdb3.
        pose proof (pending_delete_le (url (target_of u)) (db w2)) as Hle.
        cbn [db with_log] in *. lia.
      * step reflexivity. cbv zeta.
        destruct (run (target_of u)) as [res|].
        -- match goal with |- context [bind (scan_loop fuel gfuel self bs run count false ?s) _ ?y] =>
             destruct (IH s y) as ([tr | e |] & w' & Hrest & Hr); [exact Hw2 | exact Hp2 | | |]
           end.
           ++ step (exact Hrest). eexists _, _. split; [reflexivity | done].
           ++ rewrite (bind_raise _ _ _ _ _ Hrest). eexists _, _. split; [reflexivity | done].
           ++ done.
        -- step reflexivity.
           match goal with |- context [bind (scan_loop fuel gfuel self bs run count false ?s) _ ?y] =>
             destruct (IH s y) as ([tr | e |] & w' & Hrest & Hr); [exact Hw2 | exact Hp2 | | |]
           end.
           ++ step (exact Hrest). eexists _, _. split; [reflexivity | done].
           ++ rewrite (bind_raise _ _ _ _ _ Hrest). eexists _, _. split; [reflexivity | done].
           ++ done.
    + eexists _, _. split; [reflexivity | done].
  - rewrite (bind_raise _ _ _ _ _ Hget). eexists _, _. split; [reflexivity | done].
Qed.

(** X17. In table order, on a database that answers, [scan] comes to an
    end (with its record or with an exception) within one more iteration
    than the table has unscanned rows: each iteration that goes on has
    marked at least one of them. *)
Theorem scan_terminates (fuel gfuel : nat) (self : TargetDatabase) (bs : list Blocklist)
    (run : Target -> option string) (count : Z) (w : World) :
  faults w = [] -> (2 <= gfuel)%nat -> (pending (db w) < fuel)%nat ->
  exists r w', scan fuel gfuel self bs run count false w = (r, w') /\ r <> Diverge.
Proof. intros Hw Hg Hp. by apply scan_loop_ends. Qed.

End Termination.

(** ** Loading and flushing the rules *)

Section Loading.
Context `{E : Env}.

Lemma first_columns_text l w :
  first_columns ((fun i => [Some i]) <$> l) w = (Ok l, w).
Proof.
  induction l as [|i l IH]; [done |].
  rewrite fmap_cons. cbn [first_columns]. step reflexivity. step (exact IH). reflexivity.
Qed.

Lemma read_items_quiet file_lines self w :
  faults w = [] -> bl_database self = true ->
  exists w', read_items file_lines self w = (Ok (blocklist (db w)), w') /\
    db w' = db w /\ faults w' = [] /\ log w' = log w.
Proof.
  intros Hw Hdb. unfold read_items. rewrite Hdb.
  eexists. split; [| split; [| split]].
  - apply except_db_ok. step reflexivity.
    step (rewrite execute_quiet by done; reflexivity).
    step reflexivity. apply first_columns_text.
  - reflexivity.
  - exact Hw.
  - reflexivity.
Qed.

Lemma item_arg_inv item x w w' :
  item_arg item w = (Ok x, w') -> second_field item = Some x /\ w' = w.
Proof.
  unfold item_arg, second_field.
  destruct (PyStr.split ":"%char item) as [|a [|b l]]; try discriminate.
  by intros [= <- <-].
Qed.

Lemma prefixes_apart item :
  (PyStr.startswith "host:" item = true -> PyStr.startswith "ip:" item = false) /\
  (PyStr.startswith "regex:" item = true ->
   PyStr.startswith "ip:" item = false /\ PyStr.startswith "host:" item = false).
Proof.
  destruct item as [|a item]; [split; discriminate |].
  cbn [PyStr.startswith].
  split.
  - destruct (decide ("h"%char = a)) as [<- |]; [| discriminate]. intros _.
    by rewrite decide_False.
  - destruct (decide ("r"%char = a)) as [<- |]; [| discriminate]. intros _.
    by rewrite !decide_False.
Qed.

(** One round of the loop of [parse_list] that goes on. *)
Lemma parse_items_step item rest ip_net self w self' w' :
  parse_items (item :: rest) ip_net self w = (Ok self', w') ->
  exists ip_net1 self1 w1,
    parse_items rest ip_net1 self1 w1 = (Ok self', w') /\ db w1 = db w /\
    (host_set self ⊆ host_set self1 /\ regex_set self ⊆ regex_set self1 /\
     ip_set self ⊆ ip_set self1) /\
    (forall x, second_field item = Some x ->
       (PyStr.startswith "host:" item = true -> x ∈ host_set self1) /\
       (PyStr.startswith "regex:" item = true -> x ∈ regex_set self1) /\
       (PyStr.startswith "ip:" item = true ->
        forall n, ip_network x = Parsed n -> n ∈ ip_set self1)).
Proof.
  rewrite parse_items_unfold.
  destruct (prefixes_apart item) as [Hhost_ip Hregex].
  destruct (PyStr.startswith "ip:" item) eqn:Hip.
  - intros H. apply bind_Ok_inv in H as (a & w1 & Harg & H).
    apply item_arg_inv in Harg as [Hfield ->].
    apply bind_Ok_inv in H as (ip_net' & w2 & Hnet & H).
    destruct ip_net' as [n|]; [| discriminate].
    exists (Some n), (add_ip n self), w2. split; [exact H |].
    assert (Hw2 : db w2 = db w /\ (forall m, ip_network a = Parsed m -> m = n)).
    { destruct (ip_network a) as [m | msg].
      - injection Hnet as <- <-. split; [done |]. by intros ? [= <-].
      - apply bind_Ok_inv in Hnet as ([] & w3 & [= <-] & [= _ <-]). by split. }
    destruct Hw2 as [Hw2 Hn]. split; [exact Hw2 |]. split.
    + simpl. split; [done |]. split; [done |]. apply union_subseteq_r.
    + intros x Hx. rewrite Hfield in Hx. injection Hx as <-.
      split; [intros Hh; apply Hhost_ip in Hh; discriminate |].
      split; [intros Hr; apply Hregex in Hr as [Hr _]; discriminate |].
      intros _ m Hm. apply Hn in Hm as ->. simpl. apply elem_of_union. left.
      by apply elem_of_singleton.
  - destruct (PyStr.startswith "host:" item) eqn:Hhost.
    + intros H. apply bind_Ok_inv in H as (h & w1 & Harg & H).
      apply item_arg_inv in Harg as [Hfield ->].
      exists ip_net, (add_host h self), w. split; [exact H |]. split; [done |]. split.
      * simpl. split; [apply union_subseteq_r |]. done.
      * intros x Hx. rewrite Hfield in Hx. injection Hx as <-.
        split; [| split; [intros Hr; apply Hregex in Hr as [_ Hr]; discriminate | discriminate]].
        intros _. simpl. apply elem_of_union. left. by apply elem_of_singleton.
    + destruct (PyStr.startswith "regex:" item) eqn:Hre.
      * intros H. apply bind_Ok_inv in H as (p & w1 & Harg & H).
        apply item_arg_inv in Harg as [Hfield ->].
        exists ip_net, (add_regex p self), w. split; [exact H |]. split; [done |]. split.
        -- simpl. split; [done |]. split; [apply union_subseteq_r | done].
        -- intros x Hx. rewrite Hfield in Hx. injection Hx as <-.
           split; [discriminate |]. split; [| discriminate].
           intros _. simpl. apply elem_of_union. left. by apply elem_of_singleton.
      * intros H. apply bind_Ok_inv in H as ([] & w1 & [= <-] & H).
        eexists ip_net, self, _. split; [exact H |]. split; [done |]. split; [done |].
        intros x _. split; [discriminate |]. split; discriminate.
Qed.

Lemma parse_items_collects items : forall ip_net self w self' w',
  parse_items items ip_net self w = (Ok self', w') ->
  db w' = db w /\
  (host_set self ⊆ host_set self' /\ regex_set self ⊆ regex_set self' /\
   ip_set self ⊆ ip_set self') /\
  (forall item x, item ∈ items -> second_field item = Some x ->
     (PyStr.startswith "host:" item = true -> x ∈ host_set self') /\
     (PyStr.startswith "regex:" item = true -> x ∈ regex_set self') /\
     (PyStr.startswith "ip:" item = true ->
      forall n, ip_network x = Parsed n -> n ∈ ip_set self')).
Proof.
  induction items as [|item rest IH]; intros ip_net self w self' w' H.
  - injection H as <- <-. split; [done |]. split; [done |].
    intros item x Hin. by apply elem_of_nil in Hin.
  - apply parse_items_step in H
      as (ip_net1 & self1 & w1 & Hrest & Hdb1 & (Hh1 & Hr1 & Hi1) & Hitem).
    apply IH in Hrest as (Hdb & (Hh & Hr & Hi) & Hall).
    split; [congruence |]. split.
    + split; [by etrans |]. split; by etrans.
    + intros it x [-> | Hin]%elem_of_cons Hx; [| by apply Hall].
      destruct (Hitem x Hx) as (Hhost & Hregex & Hip).
      split; [intros Hs; apply Hh, Hhost, Hs |].
      split; [intros Hs; apply Hr, Hregex, Hs |].
      intros Hs n Hn. by apply Hi, Hip.
Qed.

(** X18. When [parse_list] returns, no rule the object had is lost, and
    every item of the list with a known prefix has left its second
    colon-separated field in the set of its kind: hosts in [host_set],
    patterns in [regex_set], and addresses that [ip_network] reads in
    [ip_set]; the compiled pattern is the alternation of the whole
    [regex_set]; the database is not touched. *)
Theorem parse_list_collects (self self' : Blocklist) (items : list string) (w w' : World) :
  parse_list self items w = (Ok self', w') ->
  db w' = db w /\
  (host_set self ⊆ host_set self' /\ regex_set self ⊆ regex_set self' /\
   ip_set self ⊆ ip_set self') /\
  (forall item x, item ∈ items -> second_field item = Some x ->
     (PyStr.startswith "host:" item = true -> x ∈ host_set self') /\
     (PyStr.startswith "regex:" item = true -> x ∈ regex_set self') /\
     (PyStr.startswith "ip:" item = true ->
      forall n, ip_network x = Parsed n -> n ∈ ip_set self')) /\
  regex self' =
    (if decide (PyStr.join "|" (elements (regex_set self')) = EmptyString) then None
     else Some (PyStr.join "|" (elements (regex_set self')))).
Proof.
  unfold parse_list. intros H.
  apply bind_Ok_inv in H as (b & w1 & Hitems & H).
  apply parse_items_collects in Hitems as (Hdb & Hsets & Hall).
  cbv zeta in H.
  destruct (decide (PyStr.join "|" (elements (regex_set b)) = EmptyString)) as [Hp | Hp].
  - injection H as <- <-. simpl. rewrite decide_True by done. done.
  - destruct (re_valid (PyStr.join "|" (elements (regex_set b)))); [| discriminate].
    injection H as <- <-. simpl. rewrite decide_False by done. done.
Qed.

(** X19. A host rule stored with [add] on a table-backed blocklist is
    there for the next object: [read_items] on the same database lists it,
    and whenever loading that list ends without an exception, the loaded
    object holds the host and matches every target with that host. *)
Theorem added_rule_is_loaded (self : Blocklist) (h : string) (w : World) :
  let item := "host:" +:+ h in
  free_of ":"%char h -> faults w = [] -> bl_database self = true ->
  insert_key_ok (bl_insert self) (bool_decide (item ∈ blocklist (db w))) = true ->
  exists self1 w1,
    Blocklist_add self item w = (Ok self1, w1) /\
    (forall file_lines self0, bl_database self0 = true ->
       exists w2, read_items file_lines self0 w1 = (Ok (blocklist (db w1)), w2) /\
         item ∈ blocklist (db w1)) /\
    (forall file_lines self0 b w3, bl_database self0 = true ->
       Blocklist_load file_lines self0 w1 = (Ok b, w3) ->
       h ∈ host_set b /\
       (forall target, host target = Some h -> Blocklist_match b target = Ok true)).
Proof.
  intros item Hh Hw Hdb Hok.
  destruct (add_insert_quiet (bl_insert self) item (with_connects (S (connects w)) w) Hw Hok)
    as (w1 & Hins & Htable & _ & _ & Hw1).
  assert (Hitem : item ∈ blocklist (db w1)).
  { rewrite Htable. unfold table_with. cbn [db with_connects].
    destruct (bool_decide (item ∈ blocklist (db w))) eqn:Hb.
    - by apply bool_decide_eq_true in Hb.
    - apply elem_of_app. right. by apply list_elem_of_singleton. }
  exists (add_host h self), w1. split; [| split].
  - unfold Blocklist_add. step reflexivity.
    change (PyStr.startswith "ip:" item) with false.
    change (PyStr.startswith "host:" item) with true. cbv beta iota.
    step (step (eapply item_arg_eq; by apply split_host_item); reflexivity).
    rewrite Hdb. step (exact Hins). reflexivity.
  - intros file_lines self0 Hdb0.
    destruct (read_items_quiet file_lines self0 w1 Hw1 Hdb0) as (w2 & Hread & _).
    exists w2. by split.
  - intros file_lines self0 b w3 Hdb0 Hload.
    destruct (read_items_quiet file_lines self0 w1 Hw1 Hdb0) as (w2 & Hread & _).
    unfold Blocklist_load in Hload. rewrite (bind_ok _ _ _ _ _ Hread) in Hload.
    apply bind_Ok_inv in Hload as (b0 & w4 & Hitems & Hload).
    apply parse_items_collects in Hitems as (_ & _ & Hall).
    assert (Hfield : second_field item = Some h).
    { unfold second_field, item. by rewrite split_host_item. }
    destruct (Hall item h Hitem Hfield) as (Hhost & _).
    assert (Hin : h ∈ host_set b).
    { specialize (Hhost eq_refl). cbv zeta in Hload.
      destruct (decide _) in Hload; [by injection Hload as <- _ |].
      destruct (re_valid _) in Hload; [by injection Hload as <- _ | discriminate]. }
    split; [exact Hin |].
    intros target Htarget. unfold Blocklist_match.
    destruct (regex_test b target); [done |].
    unfold host_test. rewrite Htarget. by rewrite bool_decide_eq_true_2.
Qed.

(** X20. [flush] of a table-backed blocklist on a database that answers
    empties the blocklist table and nothing else, and the object it leaves
    matches no target and raises on none; when the statement fails, the
    process exits with status 1 after the error is logged, with the table as
    it was. *)
Theorem flush_clears_rules (unlink_error : option string) (self : Blocklist) (w : World) :
  bl_database self = true ->
  (faults w = [] ->
   exists self' w', Blocklist_flush unlink_error self w = (Ok self', w') /\
     blocklist (db w') = [] /\ targets (db w') = targets (db w) /\
     fingerprints (db w') = fingerprints (db w) /\
     (forall target, Blocklist_match self' target = Ok false)) /\
  (forall msg fs, faults w = Some msg :: fs ->
   exists w', Blocklist_flush unlink_error self w = (Raise (SystemExit 1), w') /\
     db w' = db w /\
     log w' = log w ++ [(INFO, "Flushing blocklist");
                        (ERROR, "Failed to flush blocklist - " +:+ msg)]).
Proof.
  intros Hdb. unfold Blocklist_flush. rewrite Hdb. split.
  - intros Hw. eexists _, _. split; [| split; [| split; [| split]]].
    + step reflexivity.
      step (apply except_db_ok; step reflexivity;
            rewrite execute_quiet by done; reflexivity).
      reflexivity.
    + reflexivity.
    + reflexivity.
    + reflexivity.
    + intros target. unfold Blocklist_match, regex_test, host_test. simpl.
      destruct (host target) as [h0|]; [| by rewrite elements_empty].
      rewrite bool_decide_eq_false_2 by apply not_elem_of_empty.
      by rewrite elements_empty.
  - intros msg fs Hw. eexists. split; [| split].
    + step reflexivity. unfold bind at 1, except_db, bind at 1, bind at 1.
      cbn [new_cursor]. unfold execute. cbn [faults with_cursor with_log]. rewrite Hw.
      reflexivity.
    + reflexivity.
    + cbn [log with_log with_faults with_cursor]. by rewrite <- app_assoc.
Qed.

End Loading.

(** ** Targets whose host resolves *)

Section Resolved.
Context `{E : Env}.

Lemma ip_loop_decided nets t a : ip t = Attr a -> exists b, ip_loop nets t = Ok b.
Proof.
  intros Hip. induction nets as [|n nets IH]; simpl; [by exists false |].
  rewrite Hip. destruct a as [a|]; [| exact IH].
  destruct (ip_in_network a n); [by exists true | exact IH].
Qed.

Lemma match_each_decided bs t a : ip t = Attr a -> exists l, match_each bs t = Ok l.
Proof.
  intros Hip. induction bs as [|b bs [l IH]]; simpl; [by exists [] |].
  assert (Hb : exists x, Blocklist_match b t = Ok x).
  { unfold Blocklist_match. destruct (regex_test b t); [by exists true |].
    destruct (host_test b t); [by exists true |]. by eapply ip_loop_decided. }
  destruct Hb as [x ->]. rewrite IH. by exists (x :: l).
Qed.

(** X21. For a URL whose host name resolves, or fails to resolve with
    [gaierror], [Target(url)] logs nothing and sets [ip], and then no
    blocklist raises on the target: every list of blocklists either matches
    it or does not. *)
Theorem resolved_target_is_decided (u name : string) (bs : list Blocklist) (w : World) :
  hostname (urlparse u) = Some name -> gethostbyname name <> OtherFailure ->
  Target_init u w = (Ok (target_of u), w) /\ (allowed bs u \/ blocked bs u).
Proof.
  intros Hname Hres.
  assert (Hip : exists a, ip (target_of u) = Attr a).
  { unfold target_of. simpl. rewrite Hname.
    destruct (gethostbyname name); [by eexists | by eexists | done]. }
  split.
  - unfold Target_init, target_of. rewrite Hname.
    by destruct (gethostbyname name).
  - destruct Hip as [a Hip].
    destruct (match_each_decided bs (target_of u) a Hip) as [l Hl].
    unfold allowed, blocked.
    destruct (decide (true ∈ l)); [right | left]; by exists l.
Qed.

End Resolved.

(** * Worked examples in the sample environment *)
Module Examples.
Import Sample.

(** The stop at a duplicate, on [duplicate_first] with the file driver. *)
Lemma get_next_target_stops_at_duplicate_witness :
  faults duplicate_first = [] /\
  (2 <= 2)%nat /\
  filter (fun r => unscanned r) (targets (db duplicate_first)) =
    [new_row "http://h/p?x=2" None; new_row "http://h/q" None] /\
  generate_fingerprint "http://h/p?x=2" ∈ fingerprints (db duplicate_first) /\
  exists w', get_next_target 2 sqlite false duplicate_first = (Ok None, w') /\
    new_row "http://h/q" None ∈ targets (db w') /\
    unscanned (new_row "http://h/q" None) = true.
Proof.
  assert (Hsel : filter (fun r => unscanned r) (targets (db duplicate_first)) =
                 [new_row "http://h/p?x=2" None; new_row "http://h/q" None])
    by reflexivity.
  assert (Hin : generate_fingerprint "http://h/p?x=2" ∈ fingerprints (db duplicate_first))
    by (change (generate_fingerprint "http://h/p?x=1" ∈
                  fingerprints (db duplicate_first)); simpl; set_solver).
  split; [reflexivity |]. split; [lia |]. split; [exact Hsel |]. split; [exact Hin |].
  apply (get_next_target_stops_at_duplicate sqlite 2 duplicate_first
           (new_row "http://h/p?x=2" None) (new_row "http://h/q" None) []);
    [reflexivity | lia | exact Hsel | discriminate | exact Hin].
Defined.

(** Both retry loops on [connection_gone]. *)
Lemma retries_exhausted_witness :
  (exists w', get_scanned "0123" connection_gone = (Raise (UnboundLocalError "row"), w') /\
     log w' = log connection_gone ++
              [lookup_retry_warning "connection already closed";
               lookup_retry_warning "server closed the connection unexpectedly";
               lookup_retry_warning "connection already closed"] /\
     connects w' = (3 + connects connection_gone)%nat /\ db w' = db connection_gone) /\
  (exists w', mark_scanned "http://h/q" connection_gone = (Ok tt, w') /\
     log w' = log connection_gone ++
              [mark_retry_warning "connection already closed";
               mark_retry_warning "server closed the connection unexpectedly";
               mark_retry_warning "connection already closed"] /\
     connects w' = (3 + connects connection_gone)%nat /\ db w' = db connection_gone).
Proof.
  apply (retries_exhausted "0123" "http://h/q" connection_gone
           "connection already closed" "server closed the connection unexpectedly"
           "connection already closed" []); reflexivity.
Defined.

(** A URL without a scheme against [block_ten]. *)
Lemma match_raises_without_ip_witness :
  hostname (urlparse "example.com/login") = None /\
  regex_test block_ten (target_of "example.com/login") = false /\
  host_test block_ten (target_of "example.com/login") = false /\
  exists w', Target_init "example.com/login" (world (store [] [])) =
             (Ok (target_of "example.com/login"), w') /\
    Blocklist_match block_ten (target_of "example.com/login") = Raise (AttributeError "ip").
Proof.
  split; [reflexivity |]. split; [reflexivity |]. split; [reflexivity |].
  apply (match_raises_without_ip block_ten "example.com/login" (world (store [] [])));
    [left; reflexivity | reflexivity | reflexivity |].
  unfold block_ten, add_ip. simpl. set_solver.
Defined.

(** A bulk load that starts with an address out of range. *)
Lemma parse_list_malformed_ip_raises_witness :
  PyStr.startswith "ip:" "ip:10.0.0.300" = true /\
  PyStr.split ":"%char "ip:10.0.0.300" = ["ip"; "10.0.0.300"] /\
  ip_network "10.0.0.300" =
    ValueError "10.0.0.300 does not appear to be an IPv4 or IPv6 network" /\
  parse_list empty_blocklist ["ip:10.0.0.300"; "host:example.com"] (world (store [] [])) =
  (Raise (UnboundLocalError "ip_net"),
   with_log [(ERROR, "Could not parse blocklist item as ip - 10.0.0.300 does not appear to be an IPv4 or IPv6 network")]
     (world (store [] []))).
Proof.
  split; [reflexivity |]. split; [reflexivity |]. split; [reflexivity |].
  apply (parse_list_malformed_ip_raises empty_blocklist "ip:10.0.0.300" "ip" "10.0.0.300"
           [] ["host:example.com"]
           "10.0.0.300 does not appear to be an IPv4 or IPv6 network"
           (world (store [] []))); reflexivity.
Defined.

(** Both flushes on [after_scan]. *)
Lemma flush_semantics_witness :
  faults after_scan = [] /\
  (exists w', flush_fingerprints after_scan = (Ok tt, w') /\
     fingerprints (db w') = ∅ /\
     targets (db w') = set_scanned 0 <$> targets (db after_scan) /\
     filter (fun r => unscanned r) (targets (db w')) = targets (db w') /\
     row_url <$> targets (db w') = row_url <$> targets (db after_scan)) /\
  (exists w', flush_targets after_scan = (Ok tt, w') /\
     targets (db w') = [] /\
     fingerprints (db w') = fingerprints (db after_scan)).
Proof.
  split; [reflexivity |]. apply (flush_semantics after_scan). reflexivity.
Defined.

(** The three ways to list [after_scan], whose second row has no label. *)
Lemma get_urls_source_flag_witness :
  faults after_scan = [] /\
  (get_urls false (SrcBool true) false after_scan).1 = Raise TypeError /\
  (get_urls false (SrcBool false) false after_scan).1 =
    Ok ["http://h/p?x=1"; "http://h/p?x=2"] /\
  (get_urls false (SrcStr "google") false after_scan).1 = Ok ["http://h/p?x=1"].
Proof.
  split; [reflexivity |].
  destruct (get_urls_source_flag false false after_scan eq_refl) as (_ & Hnull & Hplain & Hstr).
  split; [| split].
  - apply Hnull. right. left. reflexivity.
  - exact Hplain.
  - exact (Hstr "google" ltac:(discriminate)).
Defined.



(** Reordered parameters, other values and one empty value; and two hosts
    with the same page, which the fingerprint tells apart. *)
Lemma fingerprint_shape_witness :
  (Forall plain_pair [("x", "1"); ("y", "2")] /\
   Forall plain_pair [("y", "3"); ("z", ""); ("x", "4")] /\
   query (urlparse "http://h/a?x=1&y=2") = encode_query [("x", "1"); ("y", "2")] /\
   query (urlparse "http://h/a?y=3&z=&x=4") = encode_query [("y", "3"); ("z", ""); ("x", "4")] /\
   names_with_value [("x", "1"); ("y", "2")] ≡ₚ
     names_with_value [("y", "3"); ("z", ""); ("x", "4")] /\
   generate_fingerprint "http://h/a?x=1&y=2" = generate_fingerprint "http://h/a?y=3&z=&x=4" /\
   generate_fingerprint "http://h/a?x=1&y=2" = generate_hash "h|1|a|x,y") /\
  (separable (urlparse "http://h/a?x=1") /\ separable (urlparse "http://g/a?x=1") /\
   no_collision (fingerprint_string (urlparse "http://h/a?x=1"))
                (fingerprint_string (urlparse "http://g/a?x=1")) /\
   generate_fingerprint "http://h/a?x=1" <> generate_fingerprint "http://g/a?x=1").
Proof.
  assert (H1 : Forall plain_pair [("x", "1"); ("y", "2")])
    by (repeat constructor).
  assert (H2 : Forall plain_pair [("y", "3"); ("z", ""); ("x", "4")])
    by (repeat constructor).
  assert (Hp : names_with_value [("x", "1"); ("y", "2")] ≡ₚ
               names_with_value [("y", "3"); ("z", ""); ("x", "4")])
    by (vm_compute; apply perm_swap).
  assert (Hs1 : separable (urlparse "http://h/a?x=1")).
  { split; [reflexivity |]. split; [reflexivity |].
    constructor; [split; [discriminate | reflexivity] | constructor]. }
  assert (Hs2 : separable (urlparse "http://g/a?x=1")).
  { split; [reflexivity |]. split; [reflexivity |].
    constructor; [split; [discriminate | reflexivity] | constructor]. }
  assert (Hc : no_collision (fingerprint_string (urlparse "http://h/a?x=1"))
                            (fingerprint_string (urlparse "http://g/a?x=1")))
    by (intros H; vm_compute in H; discriminate H).
  destruct (fingerprint_shape "http://h/a?x=1&y=2" "http://h/a?y=3&z=&x=4")
    as (Hhashed & _ & _ & Horder & _).
  destruct (fingerprint_shape "http://h/a?x=1" "http://g/a?x=1") as (_ & _ & Hback & _).
  split.
  - split; [exact H1 |]. split; [exact H2 |]. split; [reflexivity |]. split; [reflexivity |].
    split; [exact Hp |]. split.
    + exact (Horder [("x", "1"); ("y", "2")] [("y", "3"); ("z", ""); ("x", "4")]
               H1 H2 eq_refl eq_refl eq_refl eq_refl Hp).
    + exact (Hhashed [("x", "1"); ("y", "2")] H1 eq_refl).
  - split; [exact Hs1 |]. split; [exact Hs2 |]. split; [exact Hc |].
    intros Heq. specialize (Hback Hs1 Hs2 Hc Heq). vm_compute in Hback. discriminate Hback.
Defined.

(** C3, as the specification words it, fails for paths and for names: two
    pages at the same depth with the same last segment share a fingerprint,
    and so do a parameter named [a,b] and the two parameters [a] and [b]. *)
Lemma different_urls_same_fingerprint :
  (path (urlparse "http://h/a/page") <> path (urlparse "http://h/b/page") /\
   generate_fingerprint "http://h/a/page" = generate_fingerprint "http://h/b/page") /\
  (query_params (query (urlparse "http://h/p?a,b=1")) = ["a,b"] /\
   query_params (query (urlparse "http://h/p?a=1&b=1")) = ["a"; "b"] /\
   generate_fingerprint "http://h/p?a,b=1" = generate_fingerprint "http://h/p?a=1&b=1").
Proof.
  split; [split; [discriminate | reflexivity] |].
  split; [reflexivity |]. split; reflexivity.
Qed.

(** Two passes in table order over [mixed] with [block_ten]. *)
Lemma prune_idempotent_witness :
  faults mixed = [] /\
  NoDup (row_url <$> targets (db mixed)) /\
  prune [block_ten] false mixed = (Ok tt, (prune [block_ten] false mixed).2) /\
  targets (db (prune [block_ten] false mixed).2) =
    [new_row "http://example.com/p?x=1" None;
     set_scanned 1 (new_row "http://example.com/p?x=2" None)] /\
  exists w2,
    prune [block_ten] false (prune [block_ten] false mixed).2 = (Ok tt, w2) /\
    db w2 = db (prune [block_ten] false mixed).2.
Proof.
  assert (Hnd : NoDup (row_url <$> targets (db mixed)))
    by (apply (bool_decide_unpack _); vm_compute; exact I).
  assert (Hrun : prune [block_ten] false mixed = (Ok tt, (prune [block_ten] false mixed).2))
    by (vm_compute; reflexivity).
  split; [reflexivity |]. split; [exact Hnd |]. split; [exact Hrun |].
  split; [vm_compute; reflexivity |].
  exact (prune_idempotent [block_ten] mixed (prune [block_ten] false mixed).2
           eq_refl Hnd Hrun).
Defined.

(** C8, as the specification words it, fails under [randomize]: the second
    pass may visit two targets of one shape in the other order, keep the one
    the first pass marked and mark the one it kept. *)
Lemma prune_random_order_not_idempotent :
  prune [] true two_alike = (Ok tt, (prune [] true two_alike).2) /\
  prune [] true (prune [] true two_alike).2 =
    (Ok tt, (prune [] true (prune [] true two_alike).2).2) /\
  targets (db (prune [] true two_alike).2) =
    [new_row "http://h/p?x=1" None; set_scanned 1 (new_row "http://h/p?x=2" None)] /\
  targets (db (prune [] true (prune [] true two_alike).2).2) =
    [set_scanned 1 (new_row "http://h/p?x=1" None);
     set_scanned 1 (new_row "http://h/p?x=2" None)] /\
  db (prune [] true (prune [] true two_alike).2).2 <> db (prune [] true two_alike).2.
Proof.
  split; [vm_compute; reflexivity |]. split; [vm_compute; reflexivity |].
  split; [vm_compute; reflexivity |]. split; [vm_compute; reflexivity |].
  intros H. apply (f_equal targets) in H. vm_compute in H. discriminate H.
Qed.

End Examples.

(** * Further worked examples *)
Module More_examples.
Import Sample.

(** The first claim on [two_alike]. *)
Lemma claimed_target_is_new_witness :
  faults two_alike = [] /\ (2 <= 2)%nat /\
  get_next_target 2 sqlite false two_alike =
    (Ok (Some (target_of "http://h/p?x=1")), (get_next_target 2 sqlite false two_alike).2) /\
  (generate_fingerprint "http://h/p?x=1" ∉ fingerprints (db two_alike)) /\
  targets (db (get_next_target 2 sqlite false two_alike).2) =
    mark_row "http://h/p?x=1" <$> targets (db two_alike).
Proof.
  assert (Hrun : get_next_target 2 sqlite false two_alike =
                 (Ok (Some (target_of "http://h/p?x=1")),
                  (get_next_target 2 sqlite false two_alike).2))
    by (vm_compute; reflexivity).
  split; [reflexivity |]. split; [lia |]. split; [exact Hrun |].
  destruct (claimed_target_is_new 2 sqlite false two_alike _ _ eq_refl (le_n 2) Hrun)
    as (_ & Hnew & _ & Hts & _).
  split; [exact Hnew | exact Hts].
Defined.

(** [after_scan], flushed and asked for a target. *)
Lemma flush_fingerprints_reopens_witness :
  faults after_scan = [] /\ (2 <= 2)%nat /\
  (flush_fingerprints ;; get_next_target 2 sqlite false) after_scan =
    (Ok (Some (target_of "http://h/p?x=1")),
     ((flush_fingerprints ;; get_next_target 2 sqlite false) after_scan).2) /\
  fingerprints (db ((flush_fingerprints ;; get_next_target 2 sqlite false) after_scan).2) =
    {[ generate_fingerprint "http://h/p?x=1" ]}.
Proof.
  assert (Hrun : (flush_fingerprints ;; get_next_target 2 sqlite false) after_scan =
                 (Ok (Some (target_of "http://h/p?x=1")),
                  ((flush_fingerprints ;; get_next_target 2 sqlite false) after_scan).2))
    by (vm_compute; reflexivity).
  split; [reflexivity |]. split; [lia |]. split; [exact Hrun |].
  exact (proj2 (flush_fingerprints_reopens 2 sqlite after_scan _ _ _ _
                  eq_refl (le_n 2) eq_refl Hrun)).
Defined.

(** The second row of [duplicate_first], deleted. *)
Lemma delete_target_removes_witness :
  faults duplicate_first = [] /\
  exists w', delete_target "http://h/q" duplicate_first = (Ok tt, w') /\
    lookup_url "http://h/q" (targets (db w')) = None /\
    fingerprints (db w') = fingerprints (db duplicate_first).
Proof.
  split; [reflexivity |].
  destruct (delete_target_removes "http://h/q" duplicate_first eq_refl)
    as (w' & Hrun & Hgone & _ & Hfp & _).
  exists w'. split; [exact Hrun |]. split; [exact Hgone | exact Hfp].
Defined.

(** A new URL, added to [two_alike] and deleted. *)
Lemma add_then_delete_witness :
  faults two_alike = [] /\
  lookup_url "http://h/new" (targets (db two_alike)) = None /\
  exists w1 w2,
    add_target sqlite "http://h/new" (Some "bing") two_alike = (Ok tt, w1) /\
    lookup_url "http://h/new" (targets (db w1)) = Some (new_row "http://h/new" (Some "bing")) /\
    delete_target "http://h/new" w1 = (Ok tt, w2) /\
    db w2 = db two_alike.
Proof.
  assert (Hnew : lookup_url "http://h/new" (targets (db two_alike)) = None)
    by (vm_compute; reflexivity).
  split; [reflexivity |]. split; [exact Hnew |].
  exact (add_then_delete "dorkbot.db" "http://h/new" (Some "bing") two_alike eq_refl Hnew).
Defined.

(** The three rounds of [mark_scanned] on [answers_thrice], and the failure
    of the second statement on [fails_second]. *)
Lemma mark_scanned_repeats_witness :
  (exists w', mark_scanned "http://h/q" answers_thrice = (Ok tt, w') /\
     faults w' = [] /\ db w' = db_mark "http://h/q" (db answers_thrice) /\
     log w' = log answers_thrice) /\
  connection_lost "disk I/O error" = false /\
  (exists w', mark_scanned "http://h/q" fails_second = (Raise (SystemExit 1), w') /\
     db w' = db_mark "http://h/q" (db fails_second) /\
     log w' = log fails_second ++
              [(ERROR, "Failed to mark target as scanned - " +:+ "disk I/O error")]).
Proof.
  split; [| split; [reflexivity |]].
  - exact (proj1 (mark_scanned_repeats "http://h/q" answers_thrice []) eq_refl).
  - exact (proj2 (mark_scanned_repeats "http://h/q" fails_second [])
             "disk I/O error" eq_refl eq_refl).
Defined.

(** A lookup on [connection_blip]. *)
Lemma get_scanned_recovers_witness :
  Forall (fun m => connection_lost m = true) ["connection already closed"] /\
  faults connection_blip = (Some <$> ["connection already closed"]) ++ [None] /\
  exists w', get_scanned (generate_fingerprint "http://h/p?x=2") connection_blip =
      (Ok (if bool_decide (generate_fingerprint "http://h/p?x=2" ∈
                             fingerprints (db connection_blip))
           then Some (generate_fingerprint "http://h/p?x=2") else None), w') /\
    log w' = log connection_blip ++
             (lookup_retry_warning <$> ["connection already closed"]) /\
    connects w' = (1 + connects connection_blip)%nat /\ db w' = db connection_blip.
Proof.
  assert (Hlost : Forall (fun m => connection_lost m = true) ["connection already closed"])
    by (repeat constructor).
  split; [exact Hlost |]. split; [reflexivity |].
  exact (get_scanned_recovers (generate_fingerprint "http://h/p?x=2") connection_blip
           ["connection already closed"] [None]
           (le_S 1 1 (le_n 1)) Hlost eq_refl (or_introl eq_refl)).
Defined.

(** A URL without a scheme against [block_ten]. *)
Lemma match_raises_iff_witness :
  Blocklist_match block_ten (target_of "example.com/login") = Raise (AttributeError "ip").
Proof.
  apply (match_raises_iff block_ten (target_of "example.com/login") (AttributeError "ip")).
  split; [reflexivity |]. split; [reflexivity |]. split; [reflexivity |].
  split; [reflexivity |]. unfold block_ten, add_ip. simpl. set_solver.
Defined.

(** One pass over [mixed] with [block_ten]. *)
Lemma prune_leaves_novel_targets_witness :
  faults mixed = [] /\
  NoDup (row_url <$> targets (db mixed)) /\
  prune [block_ten] false mixed = (Ok tt, (prune [block_ten] false mixed).2) /\
  fingerprints (db (prune [block_ten] false mixed).2) = fingerprints (db mixed) /\
  NoDup (row_fingerprint <$>
           filter (fun r => unscanned r) (targets (db (prune [block_ten] false mixed).2))).
Proof.
  assert (Hnd : NoDup (row_url <$> targets (db mixed)))
    by (apply (bool_decide_unpack _); vm_compute; exact I).
  assert (Hrun : prune [block_ten] false mixed = (Ok tt, (prune [block_ten] false mixed).2))
    by (vm_compute; reflexivity).
  split; [reflexivity |]. split; [exact Hnd |]. split; [exact Hrun |].
  destruct (prune_leaves_novel_targets [block_ten] mixed (prune [block_ten] false mixed).2
              eq_refl Hnd Hrun) as (Hfp & _ & Hdistinct & _).
  split; [exact Hfp | exact Hdistinct].
Defined.

(** A pattern with a colon in it, given to [add]. *)
Lemma add_regex_keeps_first_field_witness :
  free_of ":"%char "http" /\
  exists self' w', Blocklist_add empty_blocklist "regex:http://h/admin" (world (store [] []))
                   = (Ok self', w') /\
    regex_set self' = {[ "http" ]} ∪ regex_set empty_blocklist /\
    regex self' = regex empty_blocklist /\
    (forall target, regex_test self' target = regex_test empty_blocklist target) /\
    blocklist (db w') = table_with "regex:http://h/admin" (blocklist (db (world (store [] [])))).
Proof.
  split; [reflexivity |].
  exact (add_regex_keeps_first_field empty_blocklist "http" "//h/admin" (world (store [] []))
           eq_refl eq_refl eq_refl eq_refl).
Defined.

(** A host rule, added to an empty table and deleted. *)
Lemma add_then_delete_rule_witness :
  free_of ":"%char "example.com" /\
  exists self' w1 w2,
    Blocklist_add empty_blocklist "host:example.com" (world (store [] [])) = (Ok self', w1) /\
    blocklist (db w1) = blocklist (db (world (store [] []))) ++ ["host:example.com"] /\
    Blocklist_delete self' "host:example.com" w1 = (Ok tt, w2) /\
    blocklist (db w2) = blocklist (db (world (store [] []))) /\
    (forall target, host target = Some "example.com" -> Blocklist_match self' target = Ok true).
Proof.
  split; [reflexivity |].
  apply (add_then_delete_rule empty_blocklist "example.com" (world (store [] [])));
    [reflexivity | reflexivity | reflexivity |].
  simpl. apply not_elem_of_nil.
Defined.

(** A host rule that [listed_host] already has, added on both kinds of
    driver. *)
Lemma add_rule_twice_witness :
  "host:example.com" ∈ blocklist (db listed_host) /\
  (exists w', Blocklist_add strict_blocklist "host:example.com" listed_host =
              (Raise (SystemExit 1), w') /\
     log w' = log listed_host ++
              [(ERROR, "Failed to add blocklist item - " +:+ unique_violation)] /\
     db w' = db listed_host) /\
  (exists w', Blocklist_add empty_blocklist "host:example.com" listed_host =
              (Ok (add_host "example.com" empty_blocklist), w') /\
     blocklist (db w') = blocklist (db listed_host)).
Proof.
  assert (Hin : "host:example.com" ∈ blocklist (db listed_host))
    by (simpl; apply list_elem_of_singleton; reflexivity).
  split; [exact Hin |]. split.
  - exact (proj1 (add_rule_twice strict_blocklist "example.com" listed_host
                    eq_refl eq_refl eq_refl Hin) eq_refl).
  - apply (proj2 (add_rule_twice empty_blocklist "example.com" listed_host
                    eq_refl eq_refl eq_refl Hin)).
    discriminate.
Defined.

(** The rules of [rules], listed and loaded into an empty blocklist. *)
Lemma listed_items_load_back_witness :
  listed_network print_address print_network ten_net = "10.0.0.0/24" /\
  ip_network "10.0.0.0/24" = Parsed ten_net /\
  exists b',
    parse_list empty_blocklist (get_parsed_items print_address print_network rules)
      (world (store [] [])) = (Ok b', world (store [] [])) /\
    ip_set b' = ip_set rules /\ host_set b' = host_set rules /\
    regex_set b' = regex_set rules.
Proof.
  split; [vm_compute; reflexivity |]. split; [vm_compute; reflexivity |].
  destruct (listed_items_load_back print_address print_network rules empty_blocklist
              (world (store [] []))) as (b' & Hrun & Hip & Hhost & Hre & _).
  - reflexivity.
  - reflexivity.
  - reflexivity.
  - intros n Hn. assert (n = ten_net) as ->.
    { simpl in Hn. apply elem_of_union in Hn as [Hn | Hn];
        [by apply elem_of_singleton in Hn | by apply elem_of_empty in Hn]. }
    split; vm_compute; reflexivity.
  - intros h Hh. assert (h = "example.com") as ->.
    { simpl in Hh. apply elem_of_union in Hh as [Hh | Hh];
        [by apply elem_of_singleton in Hh | by apply elem_of_empty in Hh]. }
    reflexivity.
  - intros p Hp. assert (p = "admin") as ->.
    { simpl in Hp. apply elem_of_union in Hp as [Hp | Hp];
        [by apply elem_of_singleton in Hp | by apply elem_of_empty in Hp]. }
    reflexivity.
  - right. reflexivity.
  - exists b'. split; [exact Hrun |]. split; [exact Hip |]. split; [exact Hhost | exact Hre].
Defined.

(** Arguments without and with the dashes. *)
Lemma format_module_args_spec_witness :
  format_module_args (Some ["depth=2"; "quiet"]) = Ok ["--depth=2"; "--quiet"] /\
  format_module_args (Some ["depth=2"; "--quiet"]) = Raise (AttributeError "add").
Proof.
  split.
  - apply (proj1 (format_module_args_spec ["depth=2"; "quiet"])).
    repeat constructor.
  - apply (proj1 (proj2 (format_module_args_spec ["depth=2"; "--quiet"]))).
    apply Exists_cons_tl, Exists_cons_hd. reflexivity.
Defined.

(** Two search results, one of them inside the blocked network, indexed
    with the bare [--source] flag on a driver that stores [True] as ["1"]. *)
Lemma index_adds_allowed_only_witness :
  index sqlite [block_ten] "google" ["http://example.com/a"; "http://h/admin"]
    "google" (SrcBool true) "1" (world (store [] [])) =
  (Ok tt,
   (index sqlite [block_ten] "google" ["http://example.com/a"; "http://h/admin"]
      "google" (SrcBool true) "1" (world (store [] []))).2) /\
  allowed [block_ten] "http://example.com/a" /\
  blocked [block_ten] "http://h/admin" /\
  lookup_url "http://example.com/a"
    (targets (db (index sqlite [block_ten] "google" ["http://example.com/a"; "http://h/admin"]
                    "google" (SrcBool true) "1" (world (store [] []))).2)) =
    Some (new_row "http://example.com/a" (Some "1")) /\
  lookup_url "http://h/admin"
    (targets (db (index sqlite [block_ten] "google" ["http://example.com/a"; "http://h/admin"]
                    "google" (SrcBool true) "1" (world (store [] []))).2)) = None.
Proof.
  assert (Hrun :
    index sqlite [block_ten] "google" ["http://example.com/a"; "http://h/admin"]
      "google" (SrcBool true) "1" (world (store [] [])) =
    (Ok tt,
     (index sqlite [block_ten] "google" ["http://example.com/a"; "http://h/admin"]
        "google" (SrcBool true) "1" (world (store [] []))).2))
    by (vm_compute; reflexivity).
  assert (Ha : allowed [block_ten] "http://example.com/a").
  { exists [false]. split; [vm_compute; reflexivity |].
    intros H. apply list_elem_of_singleton in H. discriminate H. }
  assert (Hb : blocked [block_ten] "http://h/admin").
  { exists [true]. split; [vm_compute; reflexivity |].
    apply list_elem_of_singleton. reflexivity. }
  split; [exact Hrun |]. split; [exact Ha |]. split; [exact Hb |].
  destruct (index_adds_allowed_only "dorkbot.db" "google" [block_ten]
              ["http://example.com/a"; "http://h/admin"] "google" (SrcBool true) "1"
              (world (store [] [])) _ eq_refl (NoDup_nil_2 (A := string)) Hrun)
    as (_ & Hadd & Hkeep & _).
  split.
  - rewrite (Hadd "http://example.com/a"); [reflexivity | by left | exact Ha].
  - rewrite (Hkeep "http://h/admin"); [reflexivity | by left].
Defined.

(** One scan of [mixed] with [block_ten] and room for two targets. *)
Lemma scan_bounded_witness :
  scan 5 2 sqlite [block_ten] report 2 false mixed =
    (Ok [(target_of "http://example.com/p?x=1", report (target_of "http://example.com/p?x=1"))],
     (scan 5 2 sqlite [block_ten] report 2 false mixed).2) /\
  Forall (fun x => unmatched [block_ten] x.1 /\ x.2 = report x.1)
    [(target_of "http://example.com/p?x=1", report (target_of "http://example.com/p?x=1"))].
Proof.
  assert (Hrun : scan 5 2 sqlite [block_ten] report 2 false mixed =
    (Ok [(target_of "http://example.com/p?x=1", report (target_of "http://example.com/p?x=1"))],
     (scan 5 2 sqlite [block_ten] report 2 false mixed).2))
    by (vm_compute; reflexivity).
  split; [exact Hrun |].
  exact (proj2 (scan_bounded 5 2 sqlite [block_ten] report 2 false mixed _ _ Hrun)).
Defined.

(** A scan of [two_alike] without a limit. *)
Lemma scan_never_repeats_a_fingerprint_witness :
  faults two_alike = [] /\ (2 <= 2)%nat /\
  scan 5 2 sqlite [] report (-1) false two_alike =
    (Ok [(target_of "http://h/p?x=1", report (target_of "http://h/p?x=1"))],
     (scan 5 2 sqlite [] report (-1) false two_alike).2) /\
  NoDup (scanned_fingerprint <$>
           [(target_of "http://h/p?x=1", report (target_of "http://h/p?x=1"))]).
Proof.
  assert (Hrun : scan 5 2 sqlite [] report (-1) false two_alike =
    (Ok [(target_of "http://h/p?x=1", report (target_of "http://h/p?x=1"))],
     (scan 5 2 sqlite [] report (-1) false two_alike).2))
    by (vm_compute; reflexivity).
  split; [reflexivity |]. split; [lia |]. split; [exact Hrun |].
  exact (proj1 (scan_never_repeats_a_fingerprint 5 2 sqlite [] report (-1) false two_alike
                  _ _ eq_refl (le_n 2) Hrun)).
Defined.

(** [mixed] has three unscanned rows: four iterations are enough. *)
Lemma scan_terminates_witness :
  faults mixed = [] /\ (2 <= 2)%nat /\ (pending (db mixed) < 4)%nat /\
  exists r w', scan 4 2 sqlite [block_ten] report (-1) false mixed = (r, w') /\ r <> Diverge.
Proof.
  split; [reflexivity |]. split; [lia |]. split; [apply le_n |].
  exact (scan_terminates 4 2 sqlite [block_ten] report (-1) mixed eq_refl (le_n 2) (le_n 4)).
Defined.

(** A list with one rule of each kind and a line that is none. *)
Lemma parse_list_collects_witness :
  parse_list empty_blocklist ["host:example.com"; "junk"; "regex:admin"; "ip:10.0.0.0/24"]
    (world (store [] [])) =
  (Ok (with_regex (Some "admin")
         (add_ip ten_net (add_regex "admin" (add_host "example.com" empty_blocklist)))),
   (parse_list empty_blocklist ["host:example.com"; "junk"; "regex:admin"; "ip:10.0.0.0/24"]
      (world (store [] []))).2) /\
  (forall item x,
     item ∈ ["host:example.com"; "junk"; "regex:admin"; "ip:10.0.0.0/24"] ->
     second_field item = Some x ->
     (PyStr.startswith "host:" item = true -> x ∈ host_set rules) /\
     (PyStr.startswith "regex:" item = true -> x ∈ regex_set rules) /\
     (PyStr.startswith "ip:" item = true ->
      forall n, ip_network x = Parsed n -> n ∈ ip_set rules)).
Proof.
  assert (Hrun :
    parse_list empty_blocklist ["host:example.com"; "junk"; "regex:admin"; "ip:10.0.0.0/24"]
      (world (store [] [])) =
    (Ok (with_regex (Some "admin")
           (add_ip ten_net (add_regex "admin" (add_host "example.com" empty_blocklist)))),
     (parse_list empty_blocklist ["host:example.com"; "junk"; "regex:admin"; "ip:10.0.0.0/24"]
        (world (store [] []))).2))
    by (vm_compute; reflexivity).
  split; [exact Hrun |].
  exact (proj1 (proj2 (proj2 (parse_list_collects _ _ _ _ _ Hrun)))).
Defined.

(** A host rule added to an empty table, and the table loaded by a new
    object. *)
Lemma added_rule_is_loaded_witness :
  free_of ":"%char "example.com" /\
  exists w1 b w3,
    Blocklist_add empty_blocklist "host:example.com" (world (store [] [])) =
      (Ok (add_host "example.com" empty_blocklist), w1) /\
    Blocklist_load [] empty_blocklist w1 = (Ok b, w3) /\
    "example.com" ∈ host_set b.
Proof.
  split; [reflexivity |].
  destruct (added_rule_is_loaded empty_blocklist "example.com" (world (store [] []))
              eq_refl eq_refl eq_refl eq_refl) as (self1 & w1 & Hadd & _ & Hload).
  assert (Hadd' :
    Blocklist_add empty_blocklist "host:example.com" (world (store [] [])) =
    (Ok (add_host "example.com" empty_blocklist),
     (Blocklist_add empty_blocklist "host:example.com" (world (store [] []))).2))
    by (vm_compute; reflexivity).
  assert (Hrun :
    Blocklist_load [] empty_blocklist
      (Blocklist_add empty_blocklist "host:example.com" (world (store [] []))).2 =
    (Ok (add_host "example.com" empty_blocklist),
     (Blocklist_load [] empty_blocklist
        (Blocklist_add empty_blocklist "host:example.com" (world (store [] []))).2).2))
    by (vm_compute; reflexivity).
  assert (Heq : (Ok (add_host "example.com" empty_blocklist),
                 (Blocklist_add empty_blocklist "host:example.com" (world (store [] []))).2) =
                (Ok self1, w1))
    by (rewrite <- Hadd'; exact Hadd).
  injection Heq as <- <-.
  eexists _, _, _. split; [exact Hadd' |]. split; [exact Hrun |].
  exact (proj1 (Hload [] empty_blocklist _ _ eq_refl Hrun)).
Defined.

(** [rules] flushed on [listed_host], and on a database that fails. *)
Lemma flush_clears_rules_witness :
  (exists self' w', Blocklist_flush None rules listed_host = (Ok self', w') /\
     blocklist (db w') = [] /\
     (forall target, Blocklist_match self' target = Ok false)) /\
  (exists w', Blocklist_flush None rules connection_gone = (Raise (SystemExit 1), w') /\
     db w' = db connection_gone /\
     log w' = log connection_gone ++
              [(INFO, "Flushing blocklist");
               (ERROR, "Failed to flush blocklist - " +:+ "connection already closed")]).
Proof.
  split.
  - destruct (proj1 (flush_clears_rules None rules listed_host eq_refl) eq_refl)
      as (self' & w' & Hrun & Htable & _ & _ & Hmatch).
    exists self', w'. split; [exact Hrun |]. split; [exact Htable | exact Hmatch].
  - exact (proj2 (flush_clears_rules None rules connection_gone eq_refl) _ _ eq_refl).
Defined.

(** A host under the blocked network and a name that does not resolve. *)
Lemma resolved_target_is_decided_witness :
  hostname (urlparse "http://h/admin") = Some "h" /\
  gethostbyname "h" <> OtherFailure /\
  Target_init "http://h/admin" (world (store [] [])) =
    (Ok (target_of "http://h/admin"), world (store [] [])) /\
  (allowed [block_ten] "http://h/admin" \/ blocked [block_ten] "http://h/admin") /\
  (allowed [block_ten] "http://nowhere.example/" \/ blocked [block_ten] "http://nowhere.example/").
Proof.
  assert (Hres : gethostbyname "h" <> OtherFailure) by discriminate.
  assert (Hgai : gethostbyname "nowhere.example" <> OtherFailure) by discriminate.
  assert (Hh : hostname (urlparse "http://h/admin") = Some "h")
    by (vm_compute; reflexivity).
  assert (Hn : hostname (urlparse "http://nowhere.example/") = Some "nowhere.example")
    by (vm_compute; reflexivity).
  split; [exact Hh |]. split; [exact Hres |].
  destruct (resolved_target_is_decided "http://h/admin" "h" [block_ten] (world (store [] []))
              Hh Hres) as [Hinit Hdecided].
  split; [exact Hinit |]. split; [exact Hdecided |].
  exact (proj2 (resolved_target_is_decided "http://nowhere.example/" "nowhere.example"
                  [block_ten] (world (store [] [])) Hn Hgai)).
Defined.

End More_examples.
